(** * chk: a synchronous value checker

    A shallow embedding of the two source files of the repository,

    - [Part000] : src/unnamed/part_000 (the checker with [override],
                  [callValidator] and the [validate] final stage), and
    - [ChkJs]   : src/chk.js (the checker with the [untrusted] option),

    over a small model of the JavaScript values they work on.

    The checker mutates the value it is given (defaults, coerced
    strings) and hands it to user-supplied validator functions, so the
    objects live in a store and values are references into it: aliasing
    between the schema and the value is part of the model.

    What is outside the model:
    - properties inherited from [Object.prototype] (an object is its own
      properties; keys such as "constructor" are not used as field names);
    - the order in which [for (k in o)] enumerates integer-like keys of a
      plain object (the model enumerates in insertion order);
    - getters, setters, frozen objects, and console output;
    - a validator that never returns. *)

From Stdlib Require Import ZArith Ascii String Numbers.Cyclic.Int63.Uint63 Lia.
From Stdlib Require Import Floats.PrimFloat Floats.SpecFloat Floats.FloatOps.
From stdpp Require Import base option list strings pretty.

Open Scope string_scope.
Open Scope list_scope.

(** ** JavaScript values and the store *)

(** A number is an IEEE 754 binary64, as in JavaScript. *)
Inductive val : Type :=
| VUndef
| VNull
| VBool (b : bool)
| VNum (n : float)
| VStr (s : string)
| VRef (l : nat).

(** What an object is besides its named properties.  An [Error] keeps its
    [message] here: it is an own property that [for-in] does not enumerate. *)
Inductive kind : Type :=
| KObject
| KArray (elems : list val)
| KFunction (f : nat)
| KError (message : val).

(** Named, enumerable own properties, in insertion order. *)
Abbreviation props := (list (string * val)).

Record cell : Type := Cell { ckind : kind; cprops : props }.

Abbreviation heap := (list cell).

(** One invocation of a user-supplied function, as the engine made it. *)
Inductive completion : Type :=
| Returned (v : val)
| Thrown (v : val).

Record invocation : Type := Invoke {
  inv_fn : nat;
  inv_this : val;
  inv_args : list val;
  inv_result : completion;
  inv_heap : heap (* the store as the function left it *)
}.

(** The store, and the invocations made so far (a ghost trace: the engine
    never reads it). *)
Record state : Type := State { st_heap : heap; st_calls : list invocation }.

(** ** Properties *)

Fixpoint assoc (k : string) (ps : props) : option val :=
  match ps with
  | [] => None
  | (k', v) :: ps' => if String.eqb k k' then Some v else assoc k ps'
  end.

Definition prop (k : string) (ps : props) : val :=
  match assoc k ps with Some v => v | None => VUndef end.

Fixpoint set_prop (k : string) (v : val) (ps : props) : props :=
  match ps with
  | [] => [(k, v)]
  | (k', v') :: ps' =>
      if String.eqb k k' then (k, v) :: ps' else (k', v') :: set_prop k v ps'
  end.

Fixpoint del_prop (k : string) (ps : props) : props :=
  match ps with
  | [] => []
  | (k', v') :: ps' =>
      if String.eqb k k' then del_prop k ps' else (k', v') :: del_prop k ps'
  end.

(** The key of an array index, and the index a key names among [n] slots. *)
Definition index_key (i : nat) : string := pretty i.

Definition index_keys (n : nat) : list string := map index_key (seq 0 n).

Definition key_index (k : string) (n : nat) : option nat :=
  List.find (fun i => String.eqb (index_key i) k) (seq 0 n).

Definition number_of_nat (n : nat) : float :=
  PrimFloat.of_uint63 (Uint63.of_Z (Z.of_nat n)).

Definition char_at (s : string) (i : nat) : val :=
  match String.get i s with
  | Some c => VStr (String c EmptyString)
  | None => VUndef
  end.

(** [c[k]] for an object in the store. *)
Definition cell_get (c : cell) (k : string) : val :=
  match ckind c with
  | KArray es =>
      match key_index k (length es) with
      | Some i => match es !! i with Some v => v | None => VUndef end
      | None => if String.eqb k "length" then VNum (number_of_nat (length es))
                else prop k (cprops c)
      end
  | KError m => if String.eqb k "message" then m else prop k (cprops c)
  | KObject | KFunction _ => prop k (cprops c)
  end.

(** [c[k] = v].  The engine only ever writes named properties. *)
Definition cell_set (c : cell) (k : string) (v : val) : cell :=
  match ckind c with
  | KError m =>
      if String.eqb k "message" then Cell (KError v) (cprops c)
      else Cell (ckind c) (set_prop k v (cprops c))
  | _ => Cell (ckind c) (set_prop k v (cprops c))
  end.

(** [delete c[k]]. *)
Definition cell_delete (c : cell) (k : string) : cell :=
  Cell (ckind c) (del_prop k (cprops c)).

(** [v[k]]: [None] is the TypeError of reading a property of [null] or
    [undefined]. *)
Definition read (h : heap) (v : val) (k : string) : option val :=
  match v with
  | VUndef | VNull => None
  | VBool _ | VNum _ => Some VUndef
  | VStr s =>
      Some match key_index k (String.length s) with
           | Some i => char_at s i
           | None => if String.eqb k "length"
                     then VNum (number_of_nat (String.length s)) else VUndef
           end
  | VRef l =>
      Some match h !! l with
           | Some c => cell_get c k
           | None => VUndef
           end
  end.

(** [v[k] = x] in sloppy mode: a write to a primitive is dropped, a write
    to [null] or [undefined] is a TypeError ([None]). *)
Definition write (h : heap) (v : val) (k : string) (x : val) : option heap :=
  match v with
  | VUndef | VNull => None
  | VRef l =>
      Some match h !! l with
           | Some c => <[l := cell_set c k x]> h
           | None => h
           end
  | _ => Some h
  end.

(** [delete v[k]] on a value that is not [null] or [undefined]. *)
Definition remove (h : heap) (v : val) (k : string) : heap :=
  match v with
  | VRef l =>
      match h !! l with
      | Some c => <[l := cell_delete c k]> h
      | None => h
      end
  | _ => h
  end.

(** The keys [for (k in v)] visits. *)
Definition keys (h : heap) (v : val) : list string :=
  match v with
  | VStr s => index_keys (String.length s)
  | VRef l =>
      match h !! l with
      | Some c =>
          match ckind c with
          | KArray es => index_keys (length es)
          | _ => []
          end ++ map fst (cprops c)
      | None => []
      end
  | _ => []
  end.

(** ToBoolean. *)
Definition to_boolean (v : val) : bool :=
  match v with
  | VUndef | VNull => false
  | VBool b => b
  | VNum n => negb (PrimFloat.eqb n 0 || PrimFloat.is_nan n)
  | VStr s => negb (String.eqb s "")
  | VRef _ => true
  end.

(** [a === b]. *)
Definition strict_equal (a b : val) : bool :=
  match a, b with
  | VUndef, VUndef => true
  | VNull, VNull => true
  | VBool x, VBool y => Bool.eqb x y
  | VNum x, VNum y => PrimFloat.eqb x y
  | VStr x, VStr y => String.eqb x y
  | VRef x, VRef y => Nat.eqb x y
  | _, _ => false
  end.

(** [a || b]. *)
Definition or_else (a b : val) : val := if to_boolean a then a else b.

(** ** The type classifier (the tipe package) *)

Inductive tag : Type :=
| TObject | TArray | TString | TNumber | TBoolean
| TFunction | TNull | TUndefined | TError.

Definition tag_name (t : tag) : string :=
  match t with
  | TObject => "object" | TArray => "array" | TString => "string"
  | TNumber => "number" | TBoolean => "boolean" | TFunction => "function"
  | TNull => "null" | TUndefined => "undefined" | TError => "error"
  end.

Definition classify (h : heap) (v : val) : tag :=
  match v with
  | VUndef => TUndefined
  | VNull => TNull
  | VBool _ => TBoolean
  | VNum _ => TNumber
  | VStr _ => TString
  | VRef l =>
      match h !! l with
      | Some c =>
          match ckind c with
          | KObject => TObject
          | KArray _ => TArray
          | KFunction _ => TFunction
          | KError _ => TError
          end
      | None => TUndefined
      end
  end.

(** [tipe(v)] *)
Definition tipe (h : heap) (v : val) : string := tag_name (classify h v).

Definition tag_eqb (a b : tag) : bool :=
  match a, b with
  | TObject, TObject | TArray, TArray | TString, TString
  | TNumber, TNumber | TBoolean, TBoolean | TFunction, TFunction
  | TNull, TNull | TUndefined, TUndefined | TError, TError => true
  | _, _ => false
  end.

Definition tipe_is (t : tag) (h : heap) (v : val) : bool := tag_eqb (classify h v) t.

(** ** Computations of the engine

    A computation reads and writes the store; it ends with a result, with
    an exception nothing caught, or (in the model only) out of fuel, in the
    state it had reached by then. *)

Inductive exn : Type :=
| TypeError            (* raised by the JavaScript engine itself *)
| Raised (v : val).  (* thrown by a user-supplied function *)

Inductive outcome (A : Type) : Type :=
| Ok (a : A) (s : state)
| Uncaught (e : exn) (s : state)
| OutOfFuel (s : state).

Arguments Ok {A} a s.
Arguments Uncaught {A} e s.
Arguments OutOfFuel {A} s.

Definition M (A : Type) : Type := state -> outcome A.

Definition ret {A} (a : A) : M A := fun s => Ok a s.

Definition bind {A B} (m : M A) (k : A -> M B) : M B :=
  fun s =>
    match m s with
    | Ok a s' => k a s'
    | Uncaught e s' => Uncaught e s'
    | OutOfFuel s' => OutOfFuel s'
    end.

Declare Scope js_scope.
Delimit Scope js_scope with js.
Notation "x <- m ;; k" := (bind m (fun x => k))
  (at level 100, m at next level, right associativity) : js_scope.
Notation "m ;; k" := (bind m (fun _ => k))
  (at level 100, right associativity) : js_scope.
Open Scope js_scope.

Definition throw {A} (e : exn) : M A := fun s => Uncaught e s.

Definition out_of_fuel {A} : M A := fun s => OutOfFuel s.

Definition get_heap : M heap := fun s => Ok (st_heap s) s.

(** A new object: its reference is the next free slot of the store. *)
Definition alloc (c : cell) : M val :=
  fun s => Ok (VRef (length (st_heap s))) (State (st_heap s ++ [c]) (st_calls s)).

Definition getp (v : val) (k : string) : M val :=
  fun s =>
    match read (st_heap s) v k with
    | Some x => Ok x s
    | None => Uncaught TypeError s
    end.

Definition setp (v : val) (k : string) (x : val) : M unit :=
  fun s =>
    match write (st_heap s) v k x with
    | Some h => Ok tt (State h (st_calls s))
    | None => Uncaught TypeError s
    end.

Definition delp (v : val) (k : string) : M unit :=
  fun s => Ok tt (State (remove (st_heap s) v k) (st_calls s)).

Definition keysM (v : val) : M (list string) :=
  fun s => Ok (keys (st_heap s) v) s.

Definition classifyM (v : val) : M tag :=
  fun s => Ok (classify (st_heap s) v) s.

Definition isM (t : tag) (v : val) : M bool :=
  fun s => Ok (tipe_is t (st_heap s) v) s.

(** [for (k in ...) body]: the body answers [Some r] when it returns [r]
    from the enclosing function, [None] when the loop goes on. *)
Fixpoint for_in {A} (ks : list string) (body : string -> M (option A)) : M (option A) :=
  match ks with
  | [] => ret None
  | k :: ks' =>
      r <- body k ;;
      match r with
      | Some a => ret (Some a)
      | None => for_in ks' body
      end
  end.

(** A loop that never leaves early. *)
Fixpoint for_each (ks : list string) (body : string -> M unit) : M unit :=
  match ks with
  | [] => ret tt
  | k :: ks' => body k ;; for_each ks' body
  end.

(** What an engine-raised TypeError looks like once it is caught (the
    message text is the JavaScript engine's). *)
Definition type_error_object : cell := Cell (KError (VStr "TypeError")) [].

(** [try { body } catch (e) { handler e }] *)
Definition try_catch {A} (body : M A) (handler : val -> M A) : M A :=
  fun s =>
    match body s with
    | Ok a s' => Ok a s'
    | Uncaught TypeError s' => (e <- alloc type_error_object ;; handler e) s'
    | Uncaught (Raised v) s' => handler v s'
    | OutOfFuel s' => OutOfFuel s'
    end.

(** ** The JavaScript runtime the checker calls into

    Built-ins and user code that are not part of the repository. *)
Class Runtime : Type := {
  (** the global [parseFloat] and [parseInt] (radix omitted) *)
  parseFloat : string -> float;
  parseInt : string -> float;
  (** tipe's truthiness predicate, on a string *)
  truthy : string -> bool;
  (** tipe's [isScalar], by classified type *)
  isScalar : tag -> bool;
  (** ToString of a number, and of an object in the store *)
  number_to_string : float -> string;
  object_to_string : heap -> nat -> string;
  (** node's [util.inspect(v, false, 10)] *)
  inspect : heap -> val -> string;
  (** [JSON.parse(JSON.stringify(o))] *)
  JSON_roundtrip : heap -> val -> heap * completion;
  (** the body of the function [f], run with [this] and arguments *)
  call : nat -> heap -> val -> list val -> heap * completion
}.

Section Builtins.
Context `{Runtime}.

(** ToString *)
Definition to_string (h : heap) (v : val) : string :=
  match v with
  | VUndef => "undefined"
  | VNull => "null"
  | VBool true => "true"
  | VBool false => "false"
  | VNum n => number_to_string n
  | VStr s => s
  | VRef l => object_to_string h l
  end.

Definition to_stringM (v : val) : M string :=
  fun s => Ok (to_string (st_heap s) v) s.

(** [fn.call(this, args...)]: the invocation is recorded, and what the
    function throws is an exception of the caller. *)
Definition invoke (fn this : val) (args : list val) : M val :=
  fun s =>
    match fn with
    | VRef l =>
        match st_heap s !! l with
        | Some (Cell (KFunction f) _) =>
            let '(h', r) := call f (st_heap s) this args in
            let s' := State h' (st_calls s ++ [Invoke f this args r h']) in
            match r with
            | Returned v => Ok v s'
            | Thrown v => Uncaught (Raised v) s'
            end
        | _ => Uncaught TypeError s
        end
    | _ => Uncaught TypeError s
    end.

(** [JSON.parse(JSON.stringify(obj))] *)
Definition json_copy (obj : val) : M val :=
  fun s =>
    let '(h', r) := JSON_roundtrip (st_heap s) obj in
    match r with
    | Returned v => Ok v (State h' (st_calls s))
    | Thrown e => Uncaught (Raised e) (State h' (st_calls s))
    end.

End Builtins.

(** [str.split('|')] *)
Fixpoint split_pipe (s : string) : list string :=
  match s with
  | EmptyString => [EmptyString]
  | String c r =>
      if Ascii.eqb c "|"%char then EmptyString :: split_pipe r
      else match split_pipe r with
           | x :: xs => String c x :: xs
           | [] => [String c EmptyString]
           end
  end.

(** [v.length] of an array or a string, as a loop bound (an object that is
    not an array has no slots in the model). *)
Definition lengthM (v : val) : M nat :=
  fun s =>
    match v with
    | VUndef | VNull => Uncaught TypeError s
    | VStr x => Ok (String.length x) s
    | VRef l =>
        match st_heap s !! l with
        | Some (Cell (KArray es) _) => Ok (length es) s
        | _ => Ok 0 s
        end
    | _ => Ok 0 s
    end.

(** [m] has left the enclosing function with a result, or [k] goes on. *)
Definition or_continue {A} (m : M (option A)) (k : M A) : M A :=
  r <- m ;;
  match r with
  | Some a => ret a
  | None => k
  end.

(** * src/unnamed/part_000 *)
Module Part000.
Section Engine.
Context `{Runtime}.

(** [codeMap[code]] in [fail] *)
Definition codeMap (code : string) : val :=
  if String.eqb code "missingParam" then VStr "Missing Required Parameter"
  else if String.eqb code "badParam" then VStr "Unrecognized Parameter"
  else if String.eqb code "badType" then VStr "Invalid Type"
  else if String.eqb code "badValue" then VStr "Invalid Value"
  else if String.eqb code "badSchema" then VStr "Invalid Schema"
  else VUndef.

(** Error helper.  [a0 a1 a2] are the caller's [arguments]. *)
Definition fail (code msg : val) (a0 a1 a2 : val) : M val :=
  info <- alloc (Cell KObject [("value", a0); ("schema", a1)]) ;;
  (if to_boolean a2 then
     delp a2 "rootValue" ;;
     ks <- keysM a2 ;;
     for_each ks (fun key =>
       v <- getp a2 key ;;
       if to_boolean v then setp info key v else ret tt)
   else ret tt) ;;
  e <- isM TError msg ;;
  err <- (if e then ret msg
          else
            c <- to_stringM code ;;
            p <- to_stringM (codeMap c) ;;
            m <- to_stringM msg ;;
            alloc (Cell (KError (VStr (p +:+ ": " +:+ m))) [])) ;;
  c <- getp err "code" ;;
  setp err "code" (or_else c code) ;;
  setp err "info" info ;;
  ret err.

(** Pipe-delimited enum: true if [str] equals any member of [strEnum]. *)
Definition match_ (str strEnum : val) : bool :=
  match strEnum with
  | VStr e => existsb (fun member => strict_equal (VStr member) str) (split_pipe e)
  | _ => false
  end.

(** Returns the exception for objects that JSON can't serialize. *)
Definition clone (obj : val) : M val :=
  o <- isM TObject obj ;;
  if negb o then ret obj
  else try_catch (json_copy obj) (fun e => ret e).

(** Debugging helper, called on the [arguments] of [_chk]: console output
    apart, it strips the root references from the options it is shown. *)
Definition log (a0 a1 a2 : val) : M unit :=
  o <- isM TObject a2 ;;
  (if o then delp a2 "rootSchema" ;; delp a2 "rootValue" else ret tt) ;;
  alloc (Cell KObject [("value", a0); ("schema", a1);
                       ("options", if o then a2 else VUndef)]) ;;
  ret tt.

(** Like extend, except that in order to override an option the new option
    must match the old option's type. *)
Definition override (obj1 obj2 : val) : M val :=
  o1 <- isM TObject obj1 ;;
  o2 <- isM TObject obj2 ;;
  if negb (o1 && o2) then ret obj1
  else
    newObj <- alloc (Cell KObject []) ;;
    ks1 <- keysM obj1 ;;
    for_each ks1 (fun key => v <- getp obj1 key ;; setp newObj key v) ;;
    ks2 <- keysM obj2 ;;
    for_each ks2 (fun key =>
      v1 <- getp obj1 key ;;
      t1 <- classifyM v1 ;;
      if tag_eqb t1 TUndefined then
        v2 <- getp obj2 key ;; setp newObj key v2
      else
        v2 <- getp obj2 key ;;
        t2 <- classifyM v2 ;;
        if tag_eqb t1 t2 then setp newObj key v2 else ret tt) ;;
    ret newObj.

(** The numeric branch of [coerceType] on the string [s]. *)
Definition coerceNumber (s : string) : val :=
  let f := parseFloat s in
  let i := parseInt s in
  let value :=
    if PrimFloat.ltb (PrimFloat.abs i) (PrimFloat.abs f) then VNum f
    else if to_boolean (VNum i) then VNum i
    else VStr s in
  if strict_equal value (VStr "0") then VNum 0 else value.

(** Query string params arrive parsed as strings: if the schema type is
    number or boolean try to coerce. *)
Definition coerceType (value schema options : val) : M val :=
  dnc <- getp options "doNotCoerce" ;;
  if to_boolean dnc then ret value
  else
    match value with
    | VStr s =>
        ty <- getp schema "type" ;;
        if strict_equal ty (VStr "number") then ret (coerceNumber s)
        else if strict_equal ty (VStr "boolean") then ret (VBool (truthy s))
        else ret value
    | _ => ret value
    end.

(** Execute a schema-defined validator function. *)
Definition callValidator (fn value options : val) : M val :=
  r <- try_catch
         (root <- getp options "rootValue" ;;
          err <- invoke fn root [value; options] ;;
          ret (inl err))
         (fun schemaErr =>
            m <- getp schemaErr "message" ;;
            ms <- to_stringM m ;;
            setp schemaErr "message" (VStr ("Validator threw exception " +:+ ms)) ;;
            setp schemaErr "code" (VStr "badSchema") ;;
            ret (inr schemaErr)) ;;
  match r with
  | inr schemaErr => ret schemaErr
  | inl err =>
      if to_boolean err then
        e <- isM TError err ;;
        err <- (if e then ret err
                else m <- to_stringM err ;; alloc (Cell (KError (VStr m)) [])) ;;
        c <- getp err "code" ;;
        setp err "code" (or_else c (VStr "badValue")) ;;
        ret err
      else ret VNull
  end.

(** Check a scalar value against a simple rule or a validator function. *)
Definition checkScalar (value schema options : val) : M val :=
  so <- isM TObject schema ;;
  tv <- classifyM value ;;
  if negb so || tag_eqb tv TNull || tag_eqb tv TUndefined then ret value
  else
    sv <- getp schema "value" ;;
    tsv <- classifyM sv ;;
    match tsv with
    | TUndefined => ret value
    | TFunction =>
        err <- callValidator sv value options ;;
        if to_boolean err then
          c <- getp err "code" ;; fail c err value schema options
        else ret value
    | TString =>
        if negb (match_ value sv) then
          k <- getp options "key" ;;
          ks <- to_stringM k ;;
          svs <- to_stringM sv ;;
          fail (VStr "badValue") (VStr (ks +:+ ": " +:+ svs)) value schema options
        else ret value
    | TNumber | TBoolean =>
        if negb (strict_equal sv value) then
          k <- getp options "key" ;;
          ks <- to_stringM k ;;
          svs <- to_stringM sv ;;
          fail (VStr "badValue") (VStr (ks +:+ ": " +:+ svs)) value schema options
        else ret value
    | _ => fail (VStr "badType") sv value schema options
    end.

(** ** Check an object

    The four loops of [checkobject], each with its body. *)

(** In strict mode check for unrecognized keys. *)
Definition strictKey (value schema options fields : val) (key : string)
  : M (option val) :=
  f <- getp fields key ;;
  if negb (to_boolean f) then
    e <- fail (VStr "badParam") (VStr key) value schema options ;;
    ret (Some e)
  else ret None.

Definition checkStrict (value schema options fields : val) : M (option val) :=
  ks <- keysM value ;;
  for_in ks (strictKey value schema options fields).

(** Set defaults. *)
Definition defaultField (value schema options fields : val) (key : string)
  : M (option val) :=
  f <- getp fields key ;;
  d <- getp f "default" ;;
  td <- classifyM d ;;
  v <- getp value key ;;
  tv <- classifyM v ;;
  if negb (tag_eqb td TUndefined) && tag_eqb tv TUndefined then
    c <- clone d ;;
    setp value key c ;;
    v' <- getp value key ;;
    e <- isM TError v' ;;
    if e then
      r <- fail (VStr "badSchema")
             (VStr "Invalid default. Could not serialize as JSON.")
             value schema options ;;
      ret (Some r)
    else ret None
  else ret None.

Definition setDefaults (value schema options fields : val) : M (option val) :=
  ks <- keysM fields ;;
  for_in ks (defaultField value schema options fields).

(** Check for missing required. *)
Definition requireField (value schema options fields : val) (key : string)
  : M (option val) :=
  f <- getp fields key ;;
  r <- getp f "required" ;;
  v <- getp value key ;;
  tv <- classifyM v ;;
  if to_boolean r && (tag_eqb tv TUndefined || tag_eqb tv TNull) then
    e <- fail (VStr "missingParam") (VStr key) value schema options ;;
    ret (Some e)
  else ret None.

Definition checkRequired (value schema options fields : val) : M (option val) :=
  ks <- keysM fields ;;
  for_in ks (requireField value schema options fields).

(** Recursively check the value's properties ([rec] is [_chk]). *)
Definition checkProperty (rec : val -> val -> val -> M val)
    (value fields options : val) (key : string) : M (option val) :=
  f <- getp fields key ;;
  fo <- isM TObject f ;;
  if fo then
    setp options "key" (VStr key) ;;
    v <- getp value key ;;
    f <- getp fields key ;;
    r <- rec v f options ;;
    setp value key r ;;
    v' <- getp value key ;;
    e <- isM TError v' ;;
    if e then ret (Some v') else ret None
  else ret None.

Definition checkProperties (rec : val -> val -> val -> M val)
    (value fields options : val) : M (option val) :=
  ks <- keysM value ;;
  for_in ks (checkProperty rec value fields options).

Definition checkobject (rec : val -> val -> val -> M val)
    (value schema options : val) : M val :=
  so <- isM TObject schema ;;
  if negb so then ret value
  else
    ty <- getp schema "type" ;;
    sv <- getp schema "value" ;;
    svo <- isM TObject sv ;;
    (* Schema fields may be nested inside an object *)
    let fields := if strict_equal (VStr "object") ty && svo then sv else schema in
    strict <- getp options "strict" ;;
    or_continue
      (if to_boolean strict then checkStrict value schema options fields
       else ret None)
      (ignoreDefaults <- getp options "ignoreDefaults" ;;
       or_continue
         (if negb (to_boolean ignoreDefaults)
          then setDefaults value schema options fields else ret None)
         (ignoreRequired <- getp options "ignoreRequired" ;;
          or_continue
            (if negb (to_boolean ignoreRequired)
             then checkRequired value schema options fields else ret None)
            (or_continue (checkProperties rec value fields options)
               (ret value)))).

(** ** Check an array

    [for (var i = value.length; i--;)]: [checkElements ... i] runs the
    iterations that are left when [i] is the counter before its test. *)
Definition checkElement (rec : val -> val -> val -> M val)
    (value schema options : val) (i : nat) : M val :=
  setp options "key" (VNum (number_of_nat i)) ;;
  x <- getp value (index_key i) ;;
  sv <- getp schema "value" ;;
  rec x sv options.

Fixpoint checkElements (rec : val -> val -> val -> M val)
    (value schema options : val) (i : nat) : M (option val) :=
  match i with
  | 0 => ret None
  | S j =>
      elm <- checkElement rec value schema options j ;;
      e <- isM TError elm ;;
      if e then ret (Some elm)
      else checkElements rec value schema options j
  end.

Definition checkArray (rec : val -> val -> val -> M val)
    (value schema options : val) : M val :=
  so <- isM TObject schema ;;
  if negb so then ret value
  else
    sv <- getp schema "value" ;;
    svo <- isM TObject sv ;;
    if svo then
      n <- lengthM value ;;
      or_continue (checkElements rec value schema options n) (ret value)
    else ret value.

(** ** Main worker *)
Fixpoint _chk (fuel : nat) (value schema parentOptions : val) : M val :=
  match fuel with
  | 0 => out_of_fuel
  | S fuel' =>
      so <- isM TObject schema ;;
      if negb so then ret value
      else
        (* Override options with those specified in the schema *)
        options <- override parentOptions schema ;;
        lg <- getp options "log" ;;
        (if to_boolean lg then log value schema parentOptions else ret tt) ;;
        (* Check required *)
        ignoreRequired <- getp options "ignoreRequired" ;;
        required <- getp schema "required" ;;
        tv <- classifyM value ;;
        if negb (to_boolean ignoreRequired) && to_boolean required
           && (tag_eqb tv TUndefined || tag_eqb tv TNull)
        then
          k <- getp options "key" ;;
          fail (VStr "missingParam") k value schema parentOptions
        else
          (* Check type *)
          value <- coerceType value schema options ;;
          tv <- classifyM value ;;
          ty <- getp schema "type" ;;
          tty <- classifyM ty ;;
          if negb (tag_eqb tv TUndefined) && tag_eqb tty TString
             && negb (match_ (VStr (tag_name tv)) ty)
          then fail (VStr "badType") (VStr (tag_name tv)) value schema parentOptions
          else
            (* Check value based on type *)
            value <- match tv with
                     | TObject => checkobject (_chk fuel') value schema options
                     | TArray => checkArray (_chk fuel') value schema options
                     | _ => checkScalar value schema options
                     end ;;
            e <- isM TError value ;;
            if e then ret value
            else
              (* Check final validator function *)
              validate <- getp schema "validate" ;;
              vf <- isM TFunction validate ;;
              if vf then
                err <- callValidator validate value options ;;
                if to_boolean err then
                  c <- getp err "code" ;;
                  fail c err value schema parentOptions
                else ret value
              else ret value
  end.

(** ** Public entry point *)
Definition chk (fuel : nat) (value schema userOptions : val) : M val :=
  so <- isM TObject schema ;;
  if negb so then
    fail (VStr "badType") (VStr "schema object is required")
      value schema userOptions
  else
    (* Configure options *)
    options <- alloc (Cell KObject [("ignoreDefaults", VBool false);
                                    ("ignoreRequired", VBool false);
                                    ("doNotCoerce", VBool false);
                                    ("strict", VBool false);
                                    ("log", VBool false)]) ;;
    options <- override options userOptions ;;
    (* For contextual error reporting *)
    setp options "rootValue" value ;;
    setp options "rootSchema" schema ;;
    (* Check value *)
    err <- _chk fuel value schema options ;;
    e <- isM TError err ;;
    ret (if e then err else VNull).

End Engine.
End Part000.

(** * src/chk.js *)
Module ChkJs.
Section Engine.
Context `{Runtime}.

(** [errCodeMap[code]] in [fail] *)
Definition errCodeMap (code : string) : val :=
  if String.eqb code "missingParam" then VStr "Missing Required Parameter"
  else if String.eqb code "badParam" then VStr "Unrecognized Parameter"
  else if String.eqb code "badType" then VStr "Invalid Type"
  else if String.eqb code "badValue" then VStr "Invalid Value"
  else if String.eqb code "badSchema" then VStr "Invalid Schema"
  else VUndef.

(** Error helper *)
Definition fail (code : string) (msg info : val) : M val :=
  mo <- isM TObject msg ;;
  h <- get_heap ;;
  let msg := if mo then inspect h msg else to_string h msg in
  io <- isM TObject info ;;
  let msg := if io then msg +:+ String "010"%char (inspect h info) else msg in
  p <- to_stringM (errCodeMap code) ;;
  err <- alloc (Cell (KError (VStr (p +:+ ": " +:+ msg))) []) ;;
  setp err "code" (VStr code) ;;
  ret err.

(** Pipe-delimited enum: true if [str] equals any member of [strEnum]. *)
Definition match_ (str strEnum : val) : bool :=
  match strEnum with
  | VStr e => existsb (fun member => strict_equal (VStr member) str) (split_pipe e)
  | _ => false
  end.

(** Returns null for objects that JSON can't serialize. *)
Definition clone (obj : val) : M val :=
  t <- classifyM obj ;;
  if isScalar t then ret obj
  else try_catch (json_copy obj) (fun e => ret VNull).

(** Validate the user-provided schema against the meta schema: the body
    starts with [return null], and what follows it never runs. *)
Definition checkSchema (schema : val) : M val := ret VNull.

(** Query string params arrive parsed as strings: if the schema type is
    number or boolean try to coerce. *)
Definition coerce (value schema : val) : M val :=
  ty <- getp schema "type" ;;
  match value with
  | VStr s =>
      if strict_equal ty (VStr "number") then
        let f := parseFloat s in
        let i := parseInt s in
        let value :=
          if PrimFloat.ltb (PrimFloat.abs i) (PrimFloat.abs f) then VNum f
          else if to_boolean (VNum i) then VNum i
          else VStr s in
        ret (if strict_equal value (VStr "0") then VNum 0 else value)
      else if strict_equal ty (VStr "boolean") then ret (VBool (truthy s))
      else ret value
  | _ => ret value
  end.

(** Check a scalar value against a simple rule or a validator function. *)
Definition checkScalar (value schema options : val) : M val :=
  args <- alloc (Cell KObject [("value", value); ("schema", schema);
                               ("options", options)]) ;;
  so <- isM TObject schema ;;
  if negb so then ret value
  else
    tv <- classifyM value ;;
    if tag_eqb tv TNull || tag_eqb tv TUndefined then ret value
    else
      doNotCoerce <- getp options "doNotCoerce" ;;
      value <- (if tag_eqb tv TString && negb (to_boolean doNotCoerce)
                then coerce value schema else ret value) ;;
      (* Check type, matching |-delimited target *)
      ty <- getp schema "type" ;;
      tv <- classifyM value ;;
      if to_boolean ty && negb (tag_eqb tv TUndefined) && negb (tag_eqb tv TNull)
         && negb (match_ (VStr (tag_name tv)) ty)
      then
        k <- getp options "key" ;;
        ks <- to_stringM k ;;
        tys <- to_stringM ty ;;
        fail "badType" (VStr (ks +:+ ": " +:+ tys)) args
      else
        sv <- getp schema "value" ;;
        tsv <- classifyM sv ;;
        match tsv with
        | TUndefined => ret value
        | TFunction =>
            (* Untrusted turns off function validators *)
            untrusted <- getp options "untrusted" ;;
            if to_boolean untrusted then
              fail "badSchema" (VStr "Function validators are not allowed") args
            else
              root <- getp options "rootValue" ;;
              k <- getp options "key" ;;
              err <- invoke sv schema [value; root; k] ;;
              if to_boolean err then
                e <- isM TError err ;;
                err <- (if e then ret err
                        else m <- to_stringM err ;;
                             alloc (Cell (KError (VStr m)) [])) ;;
                c <- getp err "code" ;;
                setp err "code" (or_else c (VStr "badValue")) ;;
                ret err
              else ret value
        | TString =>
            if negb (match_ value sv) then
              k <- getp options "key" ;;
              ks <- to_stringM k ;;
              svs <- to_stringM sv ;;
              fail "badValue" (VStr (ks +:+ ": " +:+ svs)) args
            else ret value
        | TNumber | TBoolean =>
            if negb (strict_equal sv value) then
              k <- getp options "key" ;;
              ks <- to_stringM k ;;
              svs <- to_stringM sv ;;
              fail "badValue" (VStr (ks +:+ ": " +:+ svs)) args
            else ret value
        | _ => fail "badType" sv args
        end.

(** [schema[key].value] when the schema is expressed as a nested object,
    [schema[key]] otherwise. *)
Definition subSchemaOf (node : val) : M val :=
  nv <- getp node "value" ;;
  nvo <- isM TObject nv ;;
  ty <- getp node "type" ;;
  ret (if nvo && strict_equal (VStr "object") ty then nv else node).

(** In strict mode check for unrecognized keys. *)
Definition checkStrict (value schema args : val) : M (option val) :=
  ks <- keysM value ;;
  for_in ks (fun key =>
    f <- getp schema key ;;
    if negb (to_boolean f) then
      e <- fail "badParam" (VStr key) args ;; ret (Some e)
    else ret None).

(** Set defaults and check for missing required properties. *)
Definition checkFields (value schema options args : val) : M (option val) :=
  ks <- keysM schema ;;
  for_in ks (fun key =>
    ignoreDefaults <- getp options "ignoreDefaults" ;;
    (if to_boolean ignoreDefaults then ret tt
     else
       f <- getp schema key ;;
       d <- getp f "default" ;;
       td <- classifyM d ;;
       v <- getp value key ;;
       tv <- classifyM v ;;
       if negb (tag_eqb td TUndefined) && tag_eqb tv TUndefined
       then c <- clone d ;; setp value key c
       else ret tt) ;;
    ignoreRequired <- getp options "ignoreRequired" ;;
    if to_boolean ignoreRequired then ret None
    else
      f <- getp schema key ;;
      r <- getp f "required" ;;
      v <- getp value key ;;
      tv <- classifyM v ;;
      if to_boolean r && (tag_eqb tv TUndefined || tag_eqb tv TNull) then
        e <- fail "missingParam" (VStr key) args ;; ret (Some e)
      else ret None).

(** Recursively check the value's properties: each pass overwrites [err],
    and none leaves the loop ([rec] is [doCheck]). *)
Fixpoint checkProperties (rec : val -> val -> val -> M val)
    (value schema options : val) (ks : list string) (err : val) : M val :=
  match ks with
  | [] => ret err
  | key :: ks' =>
      f <- getp schema key ;;
      err <- (if to_boolean f then
                setp options "key" (VStr key) ;;
                f <- getp schema key ;;
                subSchema <- subSchemaOf f ;;
                v <- getp value key ;;
                rec v subSchema options
              else ret err) ;;
      checkProperties rec value schema options ks' err
  end.

(** [value.forEach(function(elm) { err = doCheck(...); if (err) return })]:
    the [return] leaves the callback, not the loop.  [todo] counts the
    slots still to visit, out of [n]; a slot that is gone by the time it
    is reached is skipped. *)
Fixpoint checkElements (rec : val -> val -> val -> M val)
    (value subSchema options : val) (n todo : nat) (err : val) : M val :=
  match todo with
  | 0 => ret err
  | S todo' =>
      len <- lengthM value ;;
      err <- (if Nat.ltb (n - todo) len then
                elm <- getp value (index_key (n - todo)) ;;
                rec elm subSchema options
              else ret err) ;;
      checkElements rec value subSchema options n todo' err
  end.

(** Check all schema attributes except value. *)
Fixpoint doCheck (fuel : nat) (value schema options : val) : M val :=
  match fuel with
  | 0 => out_of_fuel
  | S fuel' =>
      options <- (if to_boolean options then ret options
                  else alloc (Cell KObject [])) ;;
      k <- getp options "key" ;;
      setp options "key" (or_else k (VStr "")) ;;
      args <- alloc (Cell KObject [("value", value); ("schema", schema);
                                   ("options", options)]) ;;
      delp args "options" ;;
      so <- isM TObject schema ;;
      if negb so then ret VNull
      else
        (* Set defaults *)
        ignoreDefaults <- getp options "ignoreDefaults" ;;
        d <- getp schema "default" ;;
        td <- classifyM d ;;
        tv <- classifyM value ;;
        value <- (if negb (to_boolean ignoreDefaults)
                     && negb (tag_eqb td TUndefined) && tag_eqb tv TUndefined
                  then clone d else ret value) ;;
        (* Check required *)
        ignoreRequired <- getp options "ignoreRequired" ;;
        required <- getp schema "required" ;;
        tv <- classifyM value ;;
        if negb (to_boolean ignoreRequired) && to_boolean required
           && (tag_eqb tv TUndefined || tag_eqb tv TNull)
        then k <- getp options "key" ;; fail "missingParam" k args
        else
          (* Check type *)
          ty <- getp schema "type" ;;
          if to_boolean ty && negb (match_ (VStr (tag_name tv)) ty)
          then fail "badType" args VUndef
          else
            err <- match tv with
                   | TObject =>
                       (* In strict mode check for unrecognized keys *)
                       ss <- getp schema "strict" ;;
                       os <- getp options "strict" ;;
                       let beStrict := match ss with VBool _ => ss | _ => os end in
                       or_continue
                         (if to_boolean beStrict
                          then checkStrict value schema args else ret None)
                         (or_continue (checkFields value schema options args)
                            (ks <- keysM value ;;
                             checkProperties (doCheck fuel') value schema
                               options ks VUndef))
                   | TArray =>
                       sv <- getp schema "value" ;;
                       if to_boolean sv then
                         subSchema <- subSchemaOf sv ;;
                         n <- lengthM value ;;
                         checkElements (doCheck fuel') value subSchema options
                           n n VUndef
                       else ret VUndef
                   | _ =>
                       value <- checkScalar value schema options ;;
                       e <- isM TError value ;;
                       ret (if e then value else VUndef)
                   end ;;
            e <- isM TError err ;;
            ret (if e then err else VNull)
  end.

(** Main *)
Definition chk (fuel : nat) (value schema options : val) : M val :=
  (* Make sure the schema is valid *)
  err <- checkSchema schema ;;
  if to_boolean err then ret err
  else
    (* Configure options *)
    options <- (if to_boolean options then ret options
                else alloc (Cell KObject [])) ;;
    strict <- getp options "strict" ;;
    setp options "strict" (or_else strict (VBool false)) ;;
    ignoreDefaults <- getp options "ignoreDefaults" ;;
    setp options "ignoreDefaults" (or_else ignoreDefaults (VBool false)) ;;
    ignoreRequired <- getp options "ignoreRequired" ;;
    setp options "ignoreRequired" (or_else ignoreRequired (VBool false)) ;;
    doNotCoerce <- getp options "doNotCoerce" ;;
    setp options "doNotCoerce" (or_else doNotCoerce (VBool false)) ;;
    untrusted <- getp options "untrusted" ;;
    setp options "untrusted" (or_else untrusted (VBool false)) ;;
    setp options "rootValue" value ;;
    setp options "rootSchema" schema ;;
    (* Do the work *)
    doCheck fuel value schema options.

End Engine.
End ChkJs.

(** * A runtime to run the checker on examples

    Enough of the built-ins to evaluate the checker on concrete inputs:
    [parseInt] and [parseFloat] read decimal (and, for [parseInt],
    hexadecimal) literals and are exact when the digits fit 53 bits and the
    decimal exponent is at most 22 in magnitude; [number_to_string] prints
    integers; the JSON round trip copies plain data and throws on a cycle. *)
Module Sample.

Definition is_space (c : ascii) : bool :=
  let n := nat_of_ascii c in
  Nat.eqb n 32 || (Nat.leb 9 n && Nat.leb n 13).

Fixpoint trim_start (s : string) : string :=
  match s with
  | String c r => if is_space c then trim_start r else s
  | EmptyString => s
  end.

Definition digit_of (radix : nat) (c : ascii) : option Z :=
  let n := nat_of_ascii c in
  let d := if Nat.leb 48 n && Nat.leb n 57 then Some (n - 48)
           else if Nat.leb 97 n && Nat.leb n 122 then Some (n - 87)
           else if Nat.leb 65 n && Nat.leb n 90 then Some (n - 55)
           else None in
  match d with
  | Some k => if Nat.ltb k radix then Some (Z.of_nat k) else None
  | None => None
  end.

(** The digits at the head of [s] and what follows them. *)
Fixpoint take_digits (radix : nat) (s : string) : list Z * string :=
  match s with
  | String c r =>
      match digit_of radix c with
      | Some d => let '(ds, rest) := take_digits radix r in (d :: ds, rest)
      | None => ([], s)
      end
  | EmptyString => ([], s)
  end.

Definition digits_value (radix : Z) (ds : list Z) : Z :=
  fold_left (fun acc d => (acc * radix + d)%Z) ds 0%Z.

(** The nearest binary64 to a natural number. *)
Definition float_of_Z (z : Z) : float :=
  match z with
  | Zpos p => FloatOps.SF2Prim (SpecFloat.binary_normalize FloatOps.prec FloatOps.emax z 0 false)
  | _ => 0%float
  end.

Definition take_sign (s : string) : bool * string :=
  match s with
  | String "-" r => (true, r)
  | String "+" r => (false, r)
  | _ => (false, s)
  end.

Definition signed (neg : bool) (x : float) : float :=
  if neg then PrimFloat.opp x else x.

Definition sample_parseInt (s : string) : float :=
  let '(neg, s1) := take_sign (trim_start s) in
  let '(radix, s2) :=
    match s1 with
    | String "0" (String "x" r) | String "0" (String "X" r) => (16, r)
    | _ => (10, s1)
    end in
  match take_digits radix s2 with
  | ([], _) => PrimFloat.nan
  | (ds, _) => signed neg (float_of_Z (digits_value (Z.of_nat radix) ds))
  end.

Fixpoint pow10 (n : nat) : float :=
  match n with
  | 0 => 1%float
  | S k => (10 * pow10 k)%float
  end.

Definition scale10 (x : float) (e : Z) : float :=
  match e with
  | Z0 => x
  | Zpos p => (x * pow10 (Pos.to_nat p))%float
  | Zneg p => (x / pow10 (Pos.to_nat p))%float
  end.

(** An exponent part [e[+-]digits] at the head of [s], if there is one. *)
Definition take_exponent (s : string) : Z :=
  match s with
  | String c r =>
      if Ascii.eqb c "e" || Ascii.eqb c "E" then
        let '(neg, r') := take_sign r in
        match take_digits 10 r' with
        | ([], _) => 0%Z
        | (ds, _) => if neg then (- digits_value 10 ds)%Z else digits_value 10 ds
        end
      else 0%Z
  | EmptyString => 0%Z
  end.

Definition sample_parseFloat (s : string) : float :=
  let '(neg, s1) := take_sign (trim_start s) in
  if String.prefix "Infinity" s1 then signed neg PrimFloat.infinity
  else
    let '(ip, s2) := take_digits 10 s1 in
    let '(fp, s3) :=
      match s2 with
      | String "." r => take_digits 10 r
      | _ => ([], s2)
      end in
    match ip ++ fp with
    | [] => PrimFloat.nan
    | ds =>
        signed neg
          (scale10 (float_of_Z (digits_value 10 ds))
             (take_exponent s3 - Z.of_nat (length fp)))
    end.

Definition lower (c : ascii) : ascii :=
  let n := nat_of_ascii c in
  if Nat.leb 65 n && Nat.leb n 90 then ascii_of_nat (n + 32) else c.

Fixpoint to_lower (s : string) : string :=
  match s with
  | String c r => String (lower c) (to_lower r)
  | EmptyString => EmptyString
  end.

(** tipe's [truthy] on a string: 'true', 'yes' and the strings that parse
    to a positive integer. *)
Definition sample_truthy (s : string) : bool :=
  let v := to_lower s in
  String.eqb v "true" || String.eqb v "yes"
  || PrimFloat.ltb 0 (sample_parseInt v).

Definition sample_number_to_string (x : float) : string :=
  if PrimFloat.is_nan x then "NaN"
  else if PrimFloat.eqb x PrimFloat.infinity then "Infinity"
  else if PrimFloat.eqb x PrimFloat.neg_infinity then "-Infinity"
  else
    match FloatOps.Prim2SF x with
    | SpecFloat.S754_finite neg m e =>
        (if neg then "-" else "") +:+
        pretty (match e with
                | Zneg p => (Zpos m / 2 ^ Zpos p)%Z
                | _ => (Zpos m * 2 ^ e)%Z
                end)
    | _ => "0"
    end.

Definition sample_object_to_string (h : heap) (l : nat) : string :=
  match h !! l with
  | Some (Cell (KError (VStr m)) _) => "Error: " +:+ m
  | Some (Cell (KFunction _) _) => "function () { [code] }"
  | _ => "[object Object]"
  end.

Definition sample_isScalar (t : tag) : bool :=
  match t with
  | TObject | TArray | TFunction => false
  | _ => true
  end.

(** A one-line rendering is all the examples need of [util.inspect]. *)
Definition sample_inspect (h : heap) (v : val) : string :=
  match v with
  | VStr s => s
  | VUndef => "undefined"
  | VNull => "null"
  | VBool true => "true"
  | VBool false => "false"
  | VNum n => sample_number_to_string n
  | VRef l =>
      match h !! l with
      | Some (Cell (KArray _) _) => "[ ... ]"
      | Some (Cell (KFunction _) _) => "[Function]"
      | Some (Cell (KError _) _) => "[Error]"
      | _ => "{ ... }"
      end
  end.

(** [JSON.parse(JSON.stringify(v))] for a value nested at most [fuel] deep:
    [None] when the nesting is deeper (JSON.stringify throws on a cycle).
    A property that holds [undefined] or a function is dropped; such an
    array slot, and a number that is not finite, becomes [null]. *)
Fixpoint json_value (fuel : nat) (h : heap) (v : val) : option (heap * val) :=
  match v with
  | VRef l =>
      match fuel with
      | 0 => None
      | S fuel' =>
          match h !! l with
          | Some (Cell (KFunction _) _) | None => Some (h, VUndef)
          | Some (Cell (KArray es) _) =>
              match
                fold_left (fun acc x =>
                  match acc with
                  | Some (h1, out) =>
                      match json_value fuel' h1 x with
                      | Some (h2, VUndef) => Some (h2, out ++ [VNull])
                      | Some (h2, y) => Some (h2, out ++ [y])
                      | None => None
                      end
                  | None => None
                  end) es (Some (h, []))
              with
              | Some (h1, out) => Some (h1 ++ [Cell (KArray out) []], VRef (length h1))
              | None => None
              end
          | Some (Cell _ ps) =>
              match
                fold_left (fun acc kx =>
                  match acc with
                  | Some (h1, out) =>
                      match json_value fuel' h1 (snd kx) with
                      | Some (h2, VUndef) => Some (h2, out)
                      | Some (h2, y) => Some (h2, out ++ [(fst kx, y)])
                      | None => None
                      end
                  | None => None
                  end) ps (Some (h, []))
              with
              | Some (h1, out) => Some (h1 ++ [Cell KObject out], VRef (length h1))
              | None => None
              end
          end
      end
  | VNum n => Some (h, if PrimFloat.is_finite n then VNum n else VNull)
  | _ => Some (h, v)
  end.

Definition sample_JSON_roundtrip (h : heap) (v : val) : heap * completion :=
  match json_value (S (length h)) h v with
  | Some (h', VUndef) =>
      (* JSON.stringify answered undefined, which JSON.parse rejects *)
      (h' ++ [Cell (KError (VStr "Unexpected token u in JSON")) []],
       Thrown (VRef (length h')))
  | Some (h', y) => (h', Returned y)
  | None =>
      (h ++ [Cell (KError (VStr "Converting circular structure to JSON")) []],
       Thrown (VRef (length h)))
  end.

(** The validators of the examples, by function number. *)
Definition sample_call (f : nat) (h : heap) (this : val) (args : list val)
  : heap * completion :=
  match f with
  | 0 => (h, Returned VUndef)                        (* accepts *)
  | 1 => (h, Returned (VStr "no"))                   (* rejects *)
  | 2 => (h ++ [Cell (KError (VStr "boom")) []],     (* throw new Error('boom') *)
          Thrown (VRef (length h)))
  | 3 => (h, Thrown VNull)                           (* throw null *)
  | 4 => (h, Thrown (VStr ""))                       (* throw '' *)
  | 5 =>                                             (* rejects under doNotCoerce *)
      match args with
      | [_; options] =>
          match read h options "doNotCoerce" with
          | Some (VBool true) => (h, Returned (VStr "no"))
          | _ => (h, Returned VUndef)
          end
      | _ => (h, Returned VUndef)
      end
  | _ => (h, Returned VUndef)
  end.

#[export] Instance runtime : Runtime := {|
  parseFloat := sample_parseFloat;
  parseInt := sample_parseInt;
  truthy := sample_truthy;
  isScalar := sample_isScalar;
  number_to_string := sample_number_to_string;
  object_to_string := sample_object_to_string;
  inspect := sample_inspect;
  JSON_roundtrip := sample_JSON_roundtrip;
  call := sample_call
|}.

End Sample.

(** ** Reasoning about computations *)

Definition post {A} (m : M A) (s : state)
    (Q : A -> state -> Prop) (E : exn -> state -> Prop) (F : Prop) : Prop :=
  match m s with
  | Ok a s' => Q a s'
  | Uncaught e s' => E e s'
  | OutOfFuel _ => F
  end.

Definition no_exn : exn -> state -> Prop := fun _ _ => False.

(** [m] returns, in a state and with a result that satisfy [Q]. *)
Definition returns {A} (m : M A) (s : state) (Q : A -> state -> Prop) : Prop :=
  post m s Q no_exn False.

Lemma post_ret {A} (a : A) s Q E F : Q a s -> post (ret a) s Q E F.
Proof. done. Qed.

Lemma post_bind {A B} (m : M A) (k : A -> M B) s Q E F :
  post m s (fun a s' => post (k a) s' Q E F) E F -> post (bind m k) s Q E F.
Proof. unfold post, bind. by destruct (m s). Qed.

Lemma post_mono {A} (m : M A) s (Q Q' : A -> state -> Prop) (E E' : exn -> state -> Prop) (F F' : Prop) :
  post m s Q E F ->
  (forall a s', Q a s' -> Q' a s') -> (forall e s', E e s' -> E' e s') -> (F -> F') ->
  post m s Q' E' F'.
Proof. unfold post. destruct (m s); eauto. Qed.

Lemma returns_inv {A} (m : M A) s Q :
  returns m s Q -> exists a s', m s = Ok a s' /\ Q a s'.
Proof. unfold returns, post, no_exn. destruct (m s); naive_solver. Qed.

Lemma post_alloc c s Q E F :
  Q (VRef (length (st_heap s))) (State (st_heap s ++ [c]) (st_calls s)) ->
  post (alloc c) s Q E F.
Proof. done. Qed.

Lemma post_getp v k x s Q E F :
  read (st_heap s) v k = Some x -> Q x s -> post (getp v k) s Q E F.
Proof. unfold post, getp. by intros ->. Qed.

Lemma post_setp v k x h s Q E F :
  write (st_heap s) v k x = Some h -> Q tt (State h (st_calls s)) ->
  post (setp v k x) s Q E F.
Proof. unfold post, setp. by intros ->. Qed.

Lemma post_delp v k s Q E F :
  Q tt (State (remove (st_heap s) v k) (st_calls s)) -> post (delp v k) s Q E F.
Proof. done. Qed.

Lemma post_keysM v s Q E F : Q (keys (st_heap s) v) s -> post (keysM v) s Q E F.
Proof. done. Qed.

Lemma post_classifyM v s Q E F : Q (classify (st_heap s) v) s -> post (classifyM v) s Q E F.
Proof. done. Qed.

Lemma post_isM t v s Q E F : Q (tipe_is t (st_heap s) v) s -> post (isM t v) s Q E F.
Proof. done. Qed.

Lemma post_for_each (I : state -> Prop) ks body s E F :
  I s ->
  (forall k s0, In k ks -> I s0 -> post (body k) s0 (fun _ s1 => I s1) E F) ->
  post (for_each ks body) s (fun _ s' => I s') E F.
Proof.
  revert s. induction ks as [|k ks IH]; intros s Hs Hbody; [done|].
  cbn [for_each]. apply post_bind.
  eapply post_mono; [apply (Hbody k s); [by left|done] | | done | done].
  intros [] s1 Hs1. apply IH; [done|]. intros k' s0 Hk'. apply Hbody. by right.
Qed.

Lemma post_to_stringM `{Runtime} v s Q E F :
  Q (to_string (st_heap s) v) s -> post (to_stringM v) s Q E F.
Proof. done. Qed.

Lemma post_get_heap s Q E F : Q (st_heap s) s -> post get_heap s Q E F.
Proof. done. Qed.

Lemma post_or_continue {A} (m : M (option A)) (k : M A) s Q E F :
  post m s (fun r s' => match r with
                        | Some a => Q a s'
                        | None => post k s' Q E F
                        end) E F ->
  post (or_continue m k) s Q E F.
Proof.
  intros Hm. unfold or_continue. apply post_bind.
  eapply post_mono; [exact Hm| |done|done]. by intros [a|] s'.
Qed.

(** Running the primitive steps of a computation. *)

Lemma bind_ret {A B} (a : A) (k : A -> M B) s : bind (ret a) k s = k a s.
Proof. done. Qed.

Lemma bind_bind {A B C} (m : M A) (f : A -> M B) (g : B -> M C) s :
  bind (bind m f) g s = bind m (fun a => bind (f a) g) s.
Proof. unfold bind. by destruct (m s). Qed.

Lemma bind_Ok {A B} (m : M A) (k : A -> M B) s a s' :
  m s = Ok a s' -> bind m k s = k a s'.
Proof. unfold bind. by intros ->. Qed.

Lemma bind_isM {B} t v (k : bool -> M B) s :
  bind (isM t v) k s = k (tipe_is t (st_heap s) v) s.
Proof. done. Qed.

Lemma bind_classifyM {B} v (k : tag -> M B) s :
  bind (classifyM v) k s = k (classify (st_heap s) v) s.
Proof. done. Qed.

Lemma bind_keysM {B} v (k : list string -> M B) s :
  bind (keysM v) k s = k (keys (st_heap s) v) s.
Proof. done. Qed.

Lemma bind_get_heap {B} (k : heap -> M B) s :
  bind get_heap k s = k (st_heap s) s.
Proof. done. Qed.

Lemma bind_alloc {B} c (k : val -> M B) s :
  bind (alloc c) k s =
    k (VRef (length (st_heap s))) (State (st_heap s ++ [c]) (st_calls s)).
Proof. done. Qed.

Lemma bind_delp {B} v key (k : unit -> M B) s :
  bind (delp v key) k s = k tt (State (remove (st_heap s) v key) (st_calls s)).
Proof. done. Qed.

(** ** The store under the engine's primitive steps *)

Lemma read_truthy h v k : to_boolean v = true -> is_Some (read h v k).
Proof. destruct v; simpl; try done; eauto. Qed.

Lemma read_ref h l k : exists x, read h (VRef l) k = Some x.
Proof. simpl. eauto. Qed.

Lemma read_ref_cell h l c k :
  h !! l = Some c -> read h (VRef l) k = Some (cell_get c k).
Proof. simpl. by intros ->. Qed.

Lemma write_truthy h v k x : to_boolean v = true -> is_Some (write h v k x).
Proof. destruct v; simpl; try done; eauto. Qed.

Lemma write_ref_cell h l c k x :
  h !! l = Some c -> write h (VRef l) k x = Some (<[l := cell_set c k x]> h).
Proof. simpl. by intros ->. Qed.

Lemma length_write h v k x h' : write h v k x = Some h' -> length h' = length h.
Proof.
  destruct v as [| | | | |l]; simpl; try congruence.
  destruct (h !! l); intros [= <-]; by rewrite ?length_insert.
Qed.

Lemma length_remove h v k : length (remove h v k) = length h.
Proof.
  destruct v as [| | | | |l]; simpl; try done.
  destruct (h !! l); by rewrite ?length_insert.
Qed.

Lemma lookup_alloc_new (h : heap) c : (h ++ [c]) !! length h = Some c.
Proof. by rewrite lookup_app_r, Nat.sub_diag by lia. Qed.

Lemma lookup_alloc_old (h : heap) c l : l < length h -> (h ++ [c]) !! l = h !! l.
Proof. intros. by rewrite lookup_app_l. Qed.

Lemma insert_alloc_new (h : heap) (c c' : cell) :
  <[length h := c']> (h ++ [c]) = h ++ [c'].
Proof. by rewrite insert_app_r_alt, Nat.sub_diag by lia. Qed.

Lemma length_alloc (h : heap) (c : cell) : length (h ++ [c]) = S (length h).
Proof. rewrite length_app. simpl. lia. Qed.

Lemma lookup_write_ne h v k x h' l :
  write h v k x = Some h' -> v <> VRef l -> h' !! l = h !! l.
Proof.
  destruct v as [| | | | |l']; simpl; try congruence.
  destruct (h !! l') eqn:E; intros [= <-] Hne; [|done].
  apply list_lookup_insert_ne. congruence.
Qed.

Lemma lookup_write_eq h l k x h' c :
  write h (VRef l) k x = Some h' -> h !! l = Some c ->
  h' !! l = Some (cell_set c k x).
Proof.
  simpl. intros Hw Hc. rewrite Hc in Hw. injection Hw as <-.
  apply list_lookup_insert_eq. by eapply lookup_lt_Some.
Qed.

Lemma lookup_remove_ne h v k l : v <> VRef l -> remove h v k !! l = h !! l.
Proof.
  destruct v as [| | | | |l']; simpl; try done.
  destruct (h !! l') eqn:E; intros Hne; [|done].
  apply list_lookup_insert_ne. congruence.
Qed.

Lemma lookup_remove_eq h l k c :
  h !! l = Some c -> remove h (VRef l) k !! l = Some (cell_delete c k).
Proof.
  simpl. intros Hc. rewrite Hc.
  apply list_lookup_insert_eq. by eapply lookup_lt_Some.
Qed.

(** The property [k] of the object at [l], as [read] finds it. *)
Definition deref (h : heap) (l : nat) (k : string) : val :=
  match h !! l with
  | Some c => cell_get c k
  | None => VUndef
  end.

Lemma read_deref h l k : read h (VRef l) k = Some (deref h l k).
Proof. done. Qed.

(** The store after [l[k] = x]. *)
Definition store (h : heap) (l : nat) (k : string) (x : val) : heap :=
  match h !! l with
  | Some c => <[l := cell_set c k x]> h
  | None => h
  end.

Lemma write_store h l k x : write h (VRef l) k x = Some (store h l k x).
Proof. done. Qed.

Lemma bind_getp_ref {B} l key (k : val -> M B) s :
  bind (getp (VRef l) key) k s = k (deref (st_heap s) l key) s.
Proof. done. Qed.

Lemma bind_setp_ref {B} l key x (k : unit -> M B) s :
  bind (setp (VRef l) key x) k s =
    k tt (State (store (st_heap s) l key x) (st_calls s)).
Proof. done. Qed.

Lemma deref_alloc_old h c l k : l < length h -> deref (h ++ [c]) l k = deref h l k.
Proof. intros. unfold deref. by rewrite lookup_alloc_old. Qed.

Lemma deref_alloc_new h c k : deref (h ++ [c]) (length h) k = cell_get c k.
Proof. unfold deref. by rewrite lookup_alloc_new. Qed.

Lemma deref_cell h l c k : h !! l = Some c -> deref h l k = cell_get c k.
Proof. unfold deref. by intros ->. Qed.

Lemma store_alloc_new h c k x :
  store (h ++ [c]) (length h) k x = h ++ [cell_set c k x].
Proof. unfold store. by rewrite lookup_alloc_new, insert_alloc_new. Qed.

Lemma post_getp_ref l k s Q E F :
  Q (deref (st_heap s) l k) s -> post (getp (VRef l) k) s Q E F.
Proof. done. Qed.

Lemma classify_object h v :
  tipe_is TObject h v = true ->
  exists l c, v = VRef l /\ h !! l = Some c /\ ckind c = KObject.
Proof.
  unfold tipe_is. destruct v as [| | | | |l]; simpl; try done.
  destruct (h !! l) as [c|] eqn:E; [|done].
  destruct (ckind c) eqn:K; try done. eauto.
Qed.

(** Cells that a computation leaves as they were. *)
Definition keeps (P : nat -> Prop) (s s' : state) : Prop :=
  forall l c, P l -> st_heap s !! l = Some c -> st_heap s' !! l = Some c.

Lemma keeps_refl P s : keeps P s s.
Proof. by intros l c. Qed.

Lemma keeps_trans P s1 s2 s3 : keeps P s1 s2 -> keeps P s2 s3 -> keeps P s1 s3.
Proof. intros H12 H23 l c Hl Hc. eauto. Qed.

Lemma keeps_weaken (P P' : nat -> Prop) s s' :
  (forall l, P' l -> P l) -> keeps P s s' -> keeps P' s s'.
Proof. intros HP Hk l c Hl. apply Hk. auto. Qed.

Lemma keeps_alloc P s s0 c :
  keeps P s s0 -> keeps P s (State (st_heap s0 ++ [c]) (st_calls s0)).
Proof.
  intros Hk l c' Hl Hc. cbn [st_heap]. rewrite lookup_alloc_old; [by apply Hk|].
  eapply lookup_lt_Some. by apply Hk.
Qed.

Lemma keeps_write (P : nat -> Prop) s s0 v k x h' :
  keeps P s s0 ->
  write (st_heap s0) v k x = Some h' ->
  (forall l, v = VRef l -> l < length (st_heap s) -> ~ P l) ->
  keeps P s (State h' (st_calls s0)).
Proof.
  intros Hk Hw Hv l c Hl Hc. cbn [st_heap].
  rewrite (lookup_write_ne _ _ _ _ _ l Hw); [by apply Hk|].
  intros ->. eapply Hv; [done| |done]. by eapply lookup_lt_Some.
Qed.

Lemma keeps_remove (P : nat -> Prop) s s0 v k :
  keeps P s s0 ->
  (forall l, v = VRef l -> l < length (st_heap s) -> ~ P l) ->
  keeps P s (State (remove (st_heap s0) v k) (st_calls s0)).
Proof.
  intros Hk Hv l c Hl Hc. cbn [st_heap].
  rewrite lookup_remove_ne; [by apply Hk|].
  intros ->. eapply Hv; [done| |done]. by eapply lookup_lt_Some.
Qed.

(** ** Properties of an object *)

Lemma prop_set_prop k k' v ps :
  prop k' (set_prop k v ps) = if String.eqb k' k then v else prop k' ps.
Proof.
  unfold prop. induction ps as [|[k0 v0] ps IH]; simpl.
  - by destruct (String.eqb k' k).
  - destruct (String.eqb k k0) eqn:E0; simpl.
    + apply String.eqb_eq in E0 as ->.
      by destruct (String.eqb k' k0).
    + destruct (String.eqb k' k0) eqn:E1; [|done].
      apply String.eqb_eq in E1 as ->.
      destruct (String.eqb k0 k) eqn:E2; [|done].
      apply String.eqb_eq in E2 as ->. by rewrite String.eqb_refl in E0.
Qed.

Lemma prop_not_key k ps : ~ In k (map fst ps) -> prop k ps = VUndef.
Proof.
  unfold prop. induction ps as [|[k0 v0] ps IH]; simpl; [done|].
  intros Hn. destruct (String.eqb k k0) eqn:E.
  - apply String.eqb_eq in E as ->. tauto.
  - apply IH. tauto.
Qed.

(** A loop whose passes each take the state [st a] to [st (f a k)]. *)
Lemma for_each_fold {S} (f : S -> string -> S) (st : S -> state) ks body a :
  (forall a k, In k ks -> body k (st a) = Ok tt (st (f a k))) ->
  for_each ks body (st a) = Ok tt (st (fold_left f ks a)).
Proof.
  revert a. induction ks as [|k ks IH]; intros a Hbody; [done|].
  cbn [for_each fold_left]. unfold bind at 1. rewrite Hbody by by left.
  apply IH. intros a' k' Hk'. apply Hbody. by right.
Qed.

Section Part000Facts.
Context `{Runtime}.
Import Part000.

Lemma codeMap_string c h h' : to_string h (codeMap c) = to_string h' (codeMap c).
Proof. unfold codeMap. by repeat (case String.eqb; [done|]). Qed.

(** What [fail] builds from a code and a message that are not objects. *)
Lemma fail_new_error (c : string) (msg : val) (ms : string) a0 a1 a2 s :
  (forall h, to_string h msg = ms) ->
  (forall h, tipe_is TError h msg = false) ->
  returns (fail (VStr c) msg a0 a1 a2) s (fun r s' =>
    let n := length (st_heap s) in
    r = VRef (S n) /\
    length (st_heap s') = S (S n) /\
    st_calls s' = st_calls s /\
    keeps (fun l => a2 <> VRef l) s s' /\
    st_heap s' !! S n =
      Some (Cell (KError (VStr (to_string [] (codeMap c) +:+ ": " +:+ ms)))
              [("code", VStr c); ("info", VRef n)])).
Proof.
  intros Hms Hne. unfold returns, fail.
  apply post_bind, post_alloc. cbn [st_heap st_calls].
  apply post_bind.
  set (I := fun s1 : state =>
              length (st_heap s1) = S (length (st_heap s))
              /\ st_calls s1 = st_calls s
              /\ keeps (fun l => a2 <> VRef l) s s1).
  eapply post_mono with (Q := fun _ s1 => I s1); try done.
  - assert (I (State (st_heap s ++ [Cell KObject [("value", a0); ("schema", a1)]])
                 (st_calls s))) as HI0.
    { split; [apply length_alloc|]. split; [done|].
      apply keeps_alloc, keeps_refl. }
    destruct (to_boolean a2) eqn:Ha2; [|by apply post_ret].
    apply post_bind, post_delp. apply post_bind, post_keysM.
    cbn [st_heap st_calls].
    apply post_for_each with (I := I).
    + destruct HI0 as (Hlen & Hc & Hk). split; [|split; [done|]].
      * cbn [st_heap] in *. by rewrite length_remove.
      * apply keeps_remove with (s0 := State _ (st_calls s)); [exact Hk|].
        by intros l -> _ Hl.
    + intros k s0 _ (Hlen & Hc & Hk).
      destruct (read_truthy (st_heap s0) a2 k Ha2) as [v Hv].
      eapply post_bind, post_getp; [done|].
      destruct (to_boolean v); [|done].
      destruct (write_truthy (st_heap s0) (VRef (length (st_heap s))) k v eq_refl)
        as [h' Hw].
      eapply post_setp; [done|]. split; [|split; [done|]].
      * cbn [st_heap]. by rewrite (length_write _ _ _ _ _ Hw).
      * eapply keeps_write; [exact Hk|done|]. intros l [= <-]. lia.
  - intros _ s1 (Hlen & Hc & Hk). apply post_bind, post_isM. rewrite Hne.
    apply post_bind, post_bind, post_to_stringM, post_bind, post_to_stringM,
      post_bind, post_to_stringM, post_alloc.
    rewrite Hms, Hlen. cbn [st_heap st_calls].
    rewrite (codeMap_string c _ []).
    set (e := Cell _ []).
    eapply post_bind, post_getp.
    { apply read_ref_cell. rewrite <- Hlen. apply lookup_alloc_new. }
    eapply post_bind, post_setp.
    { apply write_ref_cell. rewrite <- Hlen. apply lookup_alloc_new. }
    cbn [st_heap st_calls].
    eapply post_bind, post_setp.
    { apply write_ref_cell. apply list_lookup_insert_eq.
      rewrite length_alloc. lia. }
    apply post_ret. cbn [st_heap st_calls].
    rewrite !length_insert, length_alloc, Hlen.
    split; [done|]. split; [done|]. split; [done|]. split.
    + intros l c' Hl Hc'. cbn [st_heap].
      assert (l < length (st_heap s)) by by eapply lookup_lt_Some.
      rewrite !list_lookup_insert_ne by lia.
      rewrite lookup_alloc_old by lia. by apply Hk.
    + rewrite list_lookup_insert_eq by (rewrite length_insert, length_alloc; lia).
      done.
Qed.

(** ** The option merge *)

(** The copy of [p1], one key at a time. *)
Definition copied (p1 : props) (ks : list string) (acc : props) : props :=
  fold_left (fun acc k => set_prop k (prop k p1) acc) ks acc.

(** One pass of the second loop of [override]; [cl] classifies. *)
Definition absorb (cl : val -> tag) (p1 p2 : props) (acc : props) (k : string)
  : props :=
  if tag_eqb (cl (prop k p1)) TUndefined then set_prop k (prop k p2) acc
  else if tag_eqb (cl (prop k p1)) (cl (prop k p2))
       then set_prop k (prop k p2) acc else acc.

Definition merged (cl : val -> tag) (p1 p2 : props) : props :=
  fold_left (absorb cl p1 p2) (map fst p2) (copied p1 (map fst p1) []).

Lemma classify_new_object h a b v :
  classify (h ++ [Cell KObject a]) v = classify (h ++ [Cell KObject b]) v.
Proof.
  destruct v as [| | | | |l]; simpl; try done.
  destruct (decide (l < length h)) as [Hl|Hl].
  - by rewrite !lookup_app_l.
  - rewrite !lookup_app_r by lia.
    destruct (l - length h) as [|[|n]]; done.
Qed.

Lemma override_objects l1 p1 l2 p2 s :
  st_heap s !! l1 = Some (Cell KObject p1) ->
  st_heap s !! l2 = Some (Cell KObject p2) ->
  override (VRef l1) (VRef l2) s =
    Ok (VRef (length (st_heap s)))
       (State (st_heap s ++
                 [Cell KObject
                    (merged (classify (st_heap s ++ [Cell KObject []])) p1 p2)])
          (st_calls s)).
Proof.
  intros H1 H2. destruct s as [h calls]. cbn [st_heap st_calls] in *.
  assert (l1 < length h) as Hl1 by by eapply lookup_lt_Some.
  assert (l2 < length h) as Hl2 by by eapply lookup_lt_Some.
  unfold override. rewrite !bind_isM. cbn [st_heap].
  unfold tipe_is, classify. rewrite H1, H2. cbn [ckind tag_eqb andb negb].
  rewrite bind_alloc, bind_keysM. cbn [st_heap st_calls].
  unfold keys at 1. rewrite lookup_alloc_old, H1 by done. cbn [ckind cprops app].
  erewrite bind_Ok.
  2:{ apply (for_each_fold (fun acc k => set_prop k (prop k p1) acc)
               (fun acc => State (h ++ [Cell KObject acc]) calls)).
      intros a k _. rewrite bind_getp_ref. unfold setp. cbn [st_heap st_calls].
      rewrite write_store, deref_alloc_old, (deref_cell _ _ _ _ H1) by done.
      by rewrite store_alloc_new. }
  rewrite bind_keysM. cbn [st_heap].
  unfold keys at 1. rewrite lookup_alloc_old, H2 by done. cbn [ckind cprops app].
  erewrite bind_Ok.
  2:{ apply (for_each_fold (absorb (classify (h ++ [Cell KObject []])) p1 p2)
               (fun acc => State (h ++ [Cell KObject acc]) calls)).
      intros a k _. rewrite bind_getp_ref, bind_classifyM. cbn [st_heap st_calls].
      rewrite deref_alloc_old, (deref_cell _ _ _ _ H1) by done.
      unfold absorb. cbn [cell_get ckind cprops].
      rewrite (classify_new_object h a []).
      destruct (tag_eqb (classify _ (prop k p1)) TUndefined).
      - rewrite bind_getp_ref. unfold setp. cbn [st_heap st_calls].
        rewrite write_store, deref_alloc_old, (deref_cell _ _ _ _ H2) by done.
        by rewrite store_alloc_new.
      - rewrite bind_getp_ref, bind_classifyM. cbn [st_heap st_calls].
        rewrite deref_alloc_old, (deref_cell _ _ _ _ H2) by done.
        cbn [cell_get ckind cprops].
        rewrite (classify_new_object h a []).
        destruct (tag_eqb _ _); [|done].
        unfold setp. cbn [st_heap st_calls].
        by rewrite write_store, store_alloc_new. }
  done.
Qed.

Lemma prop_not_elem k ps : k ∉ map fst ps -> prop k ps = VUndef.
Proof. intros Hn. apply prop_not_key. by rewrite <- list_elem_of_In. Qed.

Lemma prop_copied p1 ks acc k :
  prop k (copied p1 ks acc) = if bool_decide (k ∈ ks) then prop k p1 else prop k acc.
Proof.
  unfold copied. revert acc. induction ks as [|k0 ks IH]; intros acc; [done|].
  cbn [fold_left]. rewrite IH, prop_set_prop.
  destruct (String.eqb k k0) eqn:E.
  - apply String.eqb_eq in E as ->.
    rewrite (bool_decide_eq_true_2 (k0 ∈ k0 :: ks)) by by left.
    by case bool_decide.
  - assert (k <> k0) by (intros ->; by rewrite String.eqb_refl in E).
    by rewrite (bool_decide_ext (k ∈ k0 :: ks) (k ∈ ks))
      by (rewrite elem_of_cons; split; [intros [?|?]; done|by right]).
Qed.

Lemma prop_copied_all p1 k : prop k (copied p1 (map fst p1) []) = prop k p1.
Proof.
  rewrite prop_copied. case bool_decide_reflect; [done|].
  intros Hn. by rewrite (prop_not_elem k p1).
Qed.

(** Whether the second loop of [override] adopts [o] over [b]. *)
Definition adopts (cl : val -> tag) (b o : val) : bool :=
  tag_eqb (cl b) TUndefined || tag_eqb (cl b) (cl o).

Lemma prop_absorbed cl p1 p2 ks acc k :
  prop k (fold_left (absorb cl p1 p2) ks acc) =
    if bool_decide (k ∈ ks) && adopts cl (prop k p1) (prop k p2)
    then prop k p2 else prop k acc.
Proof.
  revert acc. induction ks as [|k0 ks IH]; intros acc; [done|].
  cbn [fold_left]. rewrite IH. unfold absorb, adopts.
  destruct (String.eqb k k0) eqn:E.
  - apply String.eqb_eq in E as ->.
    rewrite (bool_decide_eq_true_2 (k0 ∈ k0 :: ks)) by by left.
    cbn [andb].
    destruct (tag_eqb (cl (prop k0 p1)) TUndefined); cbn [orb].
    + rewrite prop_set_prop, String.eqb_refl. by case bool_decide.
    + destruct (tag_eqb (cl (prop k0 p1)) (cl (prop k0 p2))).
      * rewrite prop_set_prop, String.eqb_refl. by case bool_decide.
      * by rewrite andb_false_r.
  - assert (k <> k0) by (intros ->; by rewrite String.eqb_refl in E).
    rewrite (bool_decide_ext (k ∈ k0 :: ks) (k ∈ ks))
      by (rewrite elem_of_cons; split; [intros [?|?]; done|by right]).
    assert (forall a, prop k (set_prop k0 (prop k0 p2) a) = prop k a) as Hset
      by (intros; by rewrite prop_set_prop, E).
    destruct (tag_eqb (cl (prop k0 p1)) TUndefined); [by rewrite Hset|].
    destruct (tag_eqb (cl (prop k0 p1)) (cl (prop k0 p2))); by rewrite ?Hset.
Qed.

Lemma prop_merged cl p1 p2 k :
  prop k (merged cl p1 p2) =
    if bool_decide (k ∈ map fst p2) && adopts cl (prop k p1) (prop k p2)
    then prop k p2 else prop k p1.
Proof. unfold merged. by rewrite prop_absorbed, prop_copied_all. Qed.

(** C6 (amended).  On two objects, [override base overrides] returns a new
    object and leaves the store as it was (so the base record is not
    mutated).  The new object holds, under each key of [overrides], the
    override's value when what the base holds under the key is undefined
    (the key is missing, or is there and holds [undefined]) or is of the
    same classified type, and the base value otherwise; under every other
    key it holds what the base holds.  When one of the two is not an object,
    the result is [base] itself, not a copy, and the store is as it was. *)
Theorem C6_override_merge :
  (forall base overrides s,
     tipe_is TObject (st_heap s) base = true ->
     tipe_is TObject (st_heap s) overrides = true ->
     exists ps,
       let h' := st_heap s ++ [Cell KObject ps] in
       override base overrides s =
         Ok (VRef (length (st_heap s))) (State h' (st_calls s)) /\
       forall key b o,
         read (st_heap s) base key = Some b ->
         read (st_heap s) overrides key = Some o ->
         prop key ps =
           if bool_decide (key ∈ keys (st_heap s) overrides) then
             if tag_eqb (classify h' b) TUndefined then o
             else if tag_eqb (classify h' b) (classify h' o) then o
             else b
           else b) /\
  (forall base overrides s,
     tipe_is TObject (st_heap s) base && tipe_is TObject (st_heap s) overrides
       = false ->
     override base overrides s = Ok base s).
Proof.
  split.
  - intros base overrides s Hb Ho.
    apply classify_object in Hb as (l1 & [k1 p1] & -> & H1 & K1).
    apply classify_object in Ho as (l2 & [k2 p2] & -> & H2 & K2).
    cbn [ckind] in *. subst k1 k2.
    eexists. cbn zeta. split; [by apply override_objects|].
    intros key b o. cbn [read]. rewrite H1, H2. intros [= <-] [= <-].
    cbn [cell_get ckind cprops keys app].
    rewrite prop_merged. unfold adopts.
    rewrite !(classify_new_object _ (merged _ p1 p2) []).
    rewrite H2. cbn [ckind cprops app].
    case bool_decide; cbn [andb]; [|done].
    destruct (tag_eqb (classify _ (prop key p1)) TUndefined); [done|].
    by destruct (tag_eqb _ _).
  - intros base overrides s Hn. unfold override.
    by rewrite !bind_isM, Hn.
Qed.

(** C8 (as amended).  When the schema argument is not object-shaped, [chk]
    returns an error whose code is badType (not badSchema) and whose message
    is "Invalid Type: schema object is required", whatever the value and
    the options are. *)
Theorem C8_schema_object_is_required fuel value schema userOptions s :
  tipe_is TObject (st_heap s) schema = false ->
  exists e s',
    chk fuel value schema userOptions s = Ok (VRef e) s' /\
    classify (st_heap s') (VRef e) = TError /\
    deref (st_heap s') e "code" = VStr "badType" /\
    deref (st_heap s') e "message" =
      VStr "Invalid Type: schema object is required".
Proof.
  intros Hs.
  assert (returns (chk fuel value schema userOptions) s (fun r s' =>
            exists e, r = VRef e /\
              st_heap s' !! e =
                Some (Cell (KError (VStr "Invalid Type: schema object is required"))
                        [("code", VStr "badType");
                         ("info", VRef (length (st_heap s)))]))) as Hr.
  { unfold returns, chk. apply post_bind, post_isM. rewrite Hs. cbn [negb].
    eapply post_mono;
      [apply (fail_new_error "badType" (VStr _) "schema object is required"); done
      | |done|done].
    cbn beta zeta. intros r s' (-> & _ & _ & _ & He). eauto. }
  apply returns_inv in Hr as (r & s' & Hchk & e & -> & He).
  exists e, s'. split; [done|].
  unfold deref. cbn. rewrite He. done.
Qed.

End Part000Facts.

Import Sample.

(** A non-object schema at work: the code is badType. *)
Lemma C8_witness :
  tipe_is TObject [] (VStr "x") = false /\
  exists e s',
    Part000.chk 0 VNull (VStr "x") VUndef (State [] []) = Ok (VRef e) s' /\
    classify (st_heap s') (VRef e) = TError /\
    deref (st_heap s') e "code" = VStr "badType" /\
    deref (st_heap s') e "message" =
      VStr "Invalid Type: schema object is required".
Proof.
  split; [reflexivity|].
  apply C8_schema_object_is_required. reflexivity.
Defined.

(** The merge on [{strict: false, depth: 1}] and
    [{strict: 'yes', depth: 2, extra: true}]: strict stays (a string does
    not override a boolean), depth and extra are adopted. *)
Lemma C6_witness :
  let h := [Cell KObject [("strict", VBool false); ("depth", VNum 1)];
            Cell KObject [("strict", VStr "yes"); ("depth", VNum 2);
                          ("extra", VBool true)]] in
  tipe_is TObject h (VRef 0) = true /\
  tipe_is TObject h (VRef 1) = true /\
  exists ps,
    Part000.override (VRef 0) (VRef 1) (State h []) =
      Ok (VRef 2) (State (h ++ [Cell KObject ps]) []) /\
    prop "strict" ps = VBool false /\
    prop "depth" ps = VNum 2 /\
    prop "extra" ps = VBool true.
Proof.
  cbn zeta. split; [reflexivity|]. split; [reflexivity|].
  destruct (proj1 C6_override_merge (VRef 0) (VRef 1)
              (State [Cell KObject [("strict", VBool false); ("depth", VNum 1)];
                      Cell KObject [("strict", VStr "yes"); ("depth", VNum 2);
                                    ("extra", VBool true)]] [])
              eq_refl eq_refl) as (ps & Hov & Hps).
  exists ps. split; [exact Hov|].
  split; [|split].
  - by rewrite (Hps "strict" (VBool false) (VStr "yes") eq_refl eq_refl).
  - by rewrite (Hps "depth" (VNum 1) (VNum 2) eq_refl eq_refl).
  - by rewrite (Hps "extra" VUndef (VBool true) eq_refl eq_refl).
Defined.

(** C6 as stated fails in two corners.  A key that the base has, holding
    [undefined], takes the override whatever its type: the merge of
    [{a: undefined}] and [{a: 1}] holds 1 under [a].  And when the overrides
    are not an object, as when [chk] is called without options, the result
    is the base itself, not a copy of it. *)
Lemma C6_counterexample :
  let h := [Cell KObject [("a", VUndef)]; Cell KObject [("a", VNum 1)]] in
  (exists ps,
     Part000.override (VRef 0) (VRef 1) (State h []) =
       Ok (VRef 2) (State (h ++ [Cell KObject ps]) []) /\
     prop "a" ps = VNum 1) /\
  Part000.override (VRef 0) VUndef (State h []) = Ok (VRef 0) (State h []).
Proof.
  cbn zeta. split; [|reflexivity].
  eexists. split; [vm_compute; reflexivity|reflexivity].
Qed.

(** C8 as the specification words it fails: the error is not badSchema, and
    its message is not the bare sentence. *)
Lemma C8_counterexample :
  exists e s',
    Part000.chk 0 VNull VUndef VUndef (State [] []) = Ok (VRef e) s' /\
    deref (st_heap s') e "code" <> VStr "badSchema" /\
    deref (st_heap s') e "message" <> VStr "schema object is required".
Proof.
  eexists _, _. split; [vm_compute; reflexivity|].
  vm_compute. split; discriminate.
Qed.

Lemma bind_to_stringM `{Runtime} {B} v (k : string -> M B) s :
  bind (to_stringM v) k s = k (to_string (st_heap s) v) s.
Proof. done. Qed.

Ltac mstep :=
  first [ rewrite bind_ret | rewrite bind_isM | rewrite bind_classifyM
        | rewrite bind_keysM | rewrite bind_getp_ref | rewrite bind_setp_ref
        | rewrite bind_alloc | rewrite bind_delp | rewrite bind_get_heap
        | rewrite bind_to_stringM ];
  cbn [st_heap st_calls].

(** Classification looks at the kind of a cell only. *)
Lemma classify_insert h l c c' v :
  h !! l = Some c -> ckind c' = ckind c ->
  classify (<[l := c']> h) v = classify h v.
Proof.
  intros Hc Hk. destruct v as [| | | | |l']; simpl; try done.
  destruct (decide (l = l')) as [<-|Hne].
  - rewrite list_lookup_insert_eq by by eapply lookup_lt_Some.
    by rewrite Hc, Hk.
  - by rewrite list_lookup_insert_ne.
Qed.

Lemma ckind_cell_set c k x :
  match ckind (cell_set c k x), ckind c with
  | KObject, KObject => True
  | KArray es, KArray es' => es = es'
  | KFunction f, KFunction f' => f = f'
  | KError _, KError _ => True
  | _, _ => False
  end.
Proof.
  unfold cell_set. destruct (ckind c) eqn:E; cbn; rewrite ?E; try done.
  destruct (String.eqb k "message"); cbn; by rewrite ?E.
Qed.

Lemma classify_store h l k x v : classify (store h l k x) v = classify h v.
Proof.
  unfold store. destruct (h !! l) as [c|] eqn:Hc; [|done].
  destruct v as [| | | | |l']; simpl; try done.
  destruct (decide (l = l')) as [<-|Hne].
  - rewrite list_lookup_insert_eq by by eapply lookup_lt_Some.
    rewrite Hc. pose proof (ckind_cell_set c k x) as Hk.
    destruct (ckind (cell_set c k x)), (ckind c); done.
  - by rewrite list_lookup_insert_ne.
Qed.

Lemma classify_remove h a k v : classify (remove h a k) v = classify h v.
Proof.
  destruct a as [| | | | |l]; try done. simpl.
  destruct (h !! l) as [c|] eqn:Hc; [|done].
  by apply (classify_insert h l c).
Qed.

Lemma tipe_is_store t h l k x v : tipe_is t (store h l k x) v = tipe_is t h v.
Proof. unfold tipe_is. by rewrite classify_store. Qed.

Lemma tipe_is_remove t h a k v : tipe_is t (remove h a k) v = tipe_is t h v.
Proof. unfold tipe_is. by rewrite classify_remove. Qed.

(** A new plain object makes nothing a function (or an array, or an error)
    that was not one. *)
Lemma classify_alloc_object h c v :
  ckind c = KObject ->
  classify (h ++ [c]) v = classify h v
  \/ (classify (h ++ [c]) v = TObject /\ classify h v = TUndefined).
Proof.
  intros Hc. destruct v as [| | | | |l]; simpl; auto.
  destruct (decide (l < length h)) as [Hl|Hl].
  - left. by rewrite lookup_app_l.
  - rewrite lookup_app_r by lia. rewrite (lookup_ge_None_2 h l) by lia.
    destruct (l - length h) as [|[|n]]; simpl; rewrite ?Hc; auto.
Qed.

Section T.
Context `{Runtime}.
Import Part000.

Lemma override_post obj1 obj2 s :
  override obj1 obj2 s = Ok obj1 s \/
  exists ps, override obj1 obj2 s =
    Ok (VRef (length (st_heap s))) (State (st_heap s ++ [Cell KObject ps]) (st_calls s)).
Proof.
  destruct (tipe_is TObject (st_heap s) obj1) eqn:H1,
           (tipe_is TObject (st_heap s) obj2) eqn:H2.
  - right. apply classify_object in H1 as (l1 & [k1 p1] & -> & H1 & K1).
    apply classify_object in H2 as (l2 & [k2 p2] & -> & H2 & K2).
    cbn [ckind] in *. subst. eexists. by apply override_objects.
  - left. unfold override. rewrite !bind_isM, H1, H2. done.
  - left. unfold override. rewrite !bind_isM, H1, H2. done.
  - left. unfold override. rewrite !bind_isM, H1, H2. done.
Qed.

Lemma override_not_object obj1 obj2 s :
  tipe_is TObject (st_heap s) obj2 = false -> override obj1 obj2 s = Ok obj1 s.
Proof.
  intros H2. unfold override. rewrite !bind_isM, H2. by rewrite andb_false_r.
Qed.

(** The store after [log] has shown the arguments. *)
Definition logged (h : heap) (a0 a1 a2 : val) : heap :=
  (if tipe_is TObject h a2
   then remove (remove h a2 "rootSchema") a2 "rootValue" else h)
  ++ [Cell KObject [("value", a0); ("schema", a1);
                    ("options", if tipe_is TObject h a2 then a2 else VUndef)]].

Lemma log_eq a0 a1 a2 s :
  log a0 a1 a2 s = Ok tt (State (logged (st_heap s) a0 a1 a2) (st_calls s)).
Proof.
  unfold log, logged. mstep. destruct (tipe_is TObject (st_heap s) a2).
  - rewrite bind_bind. repeat mstep. done.
  - repeat mstep. done.
Qed.

Lemma lookup_logged h a0 a1 a2 l :
  l < length h -> a2 <> VRef l -> logged h a0 a1 a2 !! l = h !! l.
Proof.
  intros Hl Hne. unfold logged.
  destruct (tipe_is TObject h a2).
  - rewrite lookup_app_l by by rewrite !length_remove.
    by rewrite !lookup_remove_ne.
  - by rewrite lookup_app_l.
Qed.

Lemma classify_logged h a0 a1 a2 v :
  classify (logged h a0 a1 a2) v = classify h v
  \/ (classify (logged h a0 a1 a2) v = TObject /\ classify h v = TUndefined).
Proof.
  unfold logged.
  destruct (classify_alloc_object
              (if tipe_is TObject h a2
               then remove (remove h a2 "rootSchema") a2 "rootValue" else h)
              (Cell KObject
                 [("value", a0); ("schema", a1);
                  ("options", if tipe_is TObject h a2 then a2 else VUndef)])
              v eq_refl)
    as [E|[E1 E2]].
  - left. rewrite E. destruct (tipe_is TObject h a2); [|done].
    by rewrite !classify_remove.
  - right. split; [done|]. rewrite <- E2.
    destruct (tipe_is TObject h a2); [|done]. by rewrite !classify_remove.
Qed.

Lemma coerceType_not_string value schema lo s :
  (forall str, value <> VStr str) ->
  coerceType value schema (VRef lo) s = Ok value s.
Proof.
  intros Hv. unfold coerceType. mstep.
  destruct (to_boolean _); [done|]. destruct value; try done. by destruct (Hv s0).
Qed.

Lemma checkScalar_absent value schema options s :
  value = VUndef \/ value = VNull ->
  checkScalar value schema options s = Ok value s.
Proof.
  intros Hv. unfold checkScalar. repeat mstep.
  destruct Hv as [-> | ->]; cbn [classify tag_eqb orb]; by rewrite ?orb_true_r.
Qed.

(** [fail] always returns, and what it returns is an error. *)
Lemma fail_post code msg a0 a1 a2 s :
  returns (fail code msg a0 a1 a2) s (fun r s' =>
    classify (st_heap s') r = TError /\
    st_calls s' = st_calls s /\
    length (st_heap s) <= length (st_heap s') /\
    keeps (fun l => a2 <> VRef l /\
                    (tipe_is TError (st_heap s) msg = true -> msg <> VRef l))
      s s').
Proof.
  unfold returns, fail.
  apply post_bind, post_alloc. cbn [st_heap st_calls].
  apply post_bind.
  set (P := fun l => a2 <> VRef l /\
                     (tipe_is TError (st_heap s) msg = true -> msg <> VRef l)).
  set (I := fun s1 : state =>
              length (st_heap s1) = S (length (st_heap s))
              /\ st_calls s1 = st_calls s
              /\ keeps P s s1
              /\ (forall v, classify (st_heap s1) v = TError <->
                            classify (st_heap s) v = TError)).
  eapply post_mono with (Q := fun _ s1 => I s1); try done.
  - assert (I (State (st_heap s ++ [Cell KObject [("value", a0); ("schema", a1)]])
                 (st_calls s))) as HI0.
    { split; [apply length_alloc|]. split; [done|].
      split; [apply keeps_alloc, keeps_refl|].
      intros v. cbn [st_heap].
      destruct (classify_alloc_object (st_heap s)
                  (Cell KObject [("value", a0); ("schema", a1)]) v eq_refl)
        as [E|[E1 E2]]; [by rewrite E|]. rewrite E1, E2. done. }
    destruct (to_boolean a2) eqn:Ha2; [|by apply post_ret].
    apply post_bind, post_delp. apply post_bind, post_keysM.
    cbn [st_heap st_calls].
    apply post_for_each with (I := I).
    + destruct HI0 as (Hlen & Hc & Hk & Hcl). split; [|split; [done|split]].
      * cbn [st_heap] in *. by rewrite length_remove.
      * apply keeps_remove with (s0 := State _ (st_calls s)); [exact Hk|].
        intros l -> _ [Hl _]. done.
      * intros v. cbn [st_heap] in *. rewrite classify_remove. by apply Hcl.
    + intros k s0 _ (Hlen & Hc & Hk & Hcl).
      destruct (read_truthy (st_heap s0) a2 k Ha2) as [v Hv].
      eapply post_bind, post_getp; [done|].
      destruct (to_boolean v); [|done].
      eapply post_setp; [apply write_store|]. split; [|split; [done|split]].
      * cbn [st_heap]. unfold store. destruct (_ !! _); by rewrite ?length_insert.
      * eapply keeps_write; [exact Hk|apply write_store|]. intros l [= <-]. lia.
      * intros v'. cbn [st_heap]. rewrite classify_store. by apply Hcl.
  - intros _ s1 (Hlen & Hc & Hk & Hcl). apply post_bind, post_isM.
    destruct (tipe_is TError (st_heap s1) msg) eqn:Hm.
    + (* the message is an error already: it is the result *)
      assert (tipe_is TError (st_heap s) msg = true) as Hm0.
      { unfold tipe_is in Hm |- *.
        destruct (classify (st_heap s1) msg) eqn:E; try done.
        apply Hcl in E. by rewrite E. }
      assert (exists l, msg = VRef l) as [l ->].
      { unfold tipe_is in Hm. destruct msg; try done. eauto. }
      unfold post. rewrite bind_ret, bind_getp_ref, !bind_setp_ref.
      unfold ret. cbn [st_heap st_calls].
      rewrite !classify_store.
      split; [|split; [done|split]].
      * unfold tipe_is in Hm. by destruct (classify _ _).
      * unfold store. repeat (destruct (_ !! _); rewrite ?length_insert); lia.
      * intros l' c' [Ha Hl'] Hc'. cbn [st_heap].
        unfold store.
        assert (l <> l') by (specialize (Hl' Hm0); congruence).
        repeat (destruct (_ !! l); rewrite ?list_lookup_insert_ne by done).
        all: apply Hk; done.
    + apply post_bind, post_bind, post_to_stringM, post_bind, post_to_stringM,
        post_bind, post_to_stringM, post_alloc.
      cbn [st_heap st_calls]. set (e := Cell _ []).
      unfold post. rewrite bind_getp_ref, !bind_setp_ref.
      unfold ret. cbn [st_heap st_calls].
      rewrite !classify_store.
      split; [|split; [done|split]].
      * simpl. by rewrite lookup_alloc_new.
      * unfold store. repeat (destruct (_ !! length (st_heap s1));
                              rewrite ?length_insert);
          rewrite length_alloc; lia.
      * intros l' c' Hl' Hc'. cbn [st_heap].
        assert (l' < length (st_heap s)) by by eapply lookup_lt_Some.
        unfold store.
        repeat (destruct (_ !! length (st_heap s1));
                rewrite ?list_lookup_insert_ne by lia).
        all: rewrite lookup_alloc_old by lia; by apply Hk.
Qed.

(** ** The recursive checker on a scalar *)

(** What [coerceType] makes of [value], from the [doNotCoerce] option and
    the declared type. *)
Definition coerceValue (doNotCoerce ty value : val) : val :=
  if to_boolean doNotCoerce then value
  else match value with
       | VStr str =>
           if strict_equal ty (VStr "number") then coerceNumber str
           else if strict_equal ty (VStr "boolean") then VBool (truthy str)
           else value
       | _ => value
       end.

Lemma coerceType_eq value ls lo s :
  coerceType value (VRef ls) (VRef lo) s =
    Ok (coerceValue (deref (st_heap s) lo "doNotCoerce")
          (deref (st_heap s) ls "type") value) s.
Proof.
  unfold coerceType, coerceValue. mstep.
  destruct (to_boolean _); [done|]. destruct value; try done.
  mstep. by repeat destruct (strict_equal _ _).
Qed.

(** A value that is no object of the store. *)
Definition primitive (v : val) : Prop := forall l, v <> VRef l.

Lemma coerceNumber_primitive str : primitive (coerceNumber str).
Proof.
  unfold coerceNumber, primitive. intros l.
  repeat (destruct (PrimFloat.ltb _ _) || destruct (to_boolean _)
          || destruct (strict_equal _ _)); done.
Qed.

Lemma coerceValue_primitive dnc ty v : primitive v -> primitive (coerceValue dnc ty v).
Proof.
  intros Hv. unfold coerceValue. destruct (to_boolean dnc); [done|].
  destruct v; try done.
  destruct (strict_equal _ _); [apply coerceNumber_primitive|].
  by destruct (strict_equal _ _).
Qed.

Lemma coerceValue_not_string dnc ty v :
  (forall str, v <> VStr str) -> coerceValue dnc ty v = v.
Proof.
  intros Hv. unfold coerceValue. destruct (to_boolean dnc); [done|].
  destruct v; try done. by destruct (Hv s).
Qed.

Lemma classify_primitive h v : primitive v -> classify h v = classify [] v.
Proof. destruct v; try done. intros Hv. by destruct (Hv l). Qed.

(** The rules of a scalar node that has no validator function: each is a
    reason for [_chk] to fail. *)
Definition missing (ignoreRequired required value : val) : bool :=
  negb (to_boolean ignoreRequired) && to_boolean required
  && (tag_eqb (classify [] value) TUndefined || tag_eqb (classify [] value) TNull).

Definition mistyped (ty v : val) : bool :=
  negb (tag_eqb (classify [] v) TUndefined) && tag_eqb (classify [] ty) TString
  && negb (match_ (VStr (tag_name (classify [] v))) ty).

Definition misvalued (sv v : val) : bool :=
  negb (tag_eqb (classify [] v) TNull || tag_eqb (classify [] v) TUndefined)
  && match sv with
     | VUndef => false
     | VStr _ => negb (match_ v sv)
     | VNum _ | VBool _ => negb (strict_equal sv v)
     | VNull | VRef _ => true
     end.

Lemma classify_string h ty : tag_eqb (classify h ty) TString = tag_eqb (classify [] ty) TString.
Proof.
  destruct ty as [| | | | |l]; try done. simpl.
  destruct (h !! l) as [c|]; [|done]. by destruct (ckind c).
Qed.

(** The options [_chk] works under: the parent's, overridden by the
    schema's. *)
Definition optionsOf (h : heap) (pp sp : props) : props :=
  merged (classify (h ++ [Cell KObject []])) pp sp.

(** A passing scalar node: [_chk] returns the coerced value, invokes
    nothing, and leaves the store as it was, the parent options apart. *)
Lemma _chk_scalar_pass_store fuel ls sp lo pp s value :
  st_heap s !! ls = Some (Cell KObject sp) ->
  st_heap s !! lo = Some (Cell KObject pp) ->
  lo <> ls ->
  primitive value ->
  let opts := optionsOf (st_heap s) pp sp in
  let v := coerceValue (prop "doNotCoerce" opts) (prop "type" sp) value in
  missing (prop "ignoreRequired" opts) (prop "required" sp) value = false ->
  mistyped (prop "type" sp) v = false ->
  misvalued (prop "value" sp) v = false ->
  classify (st_heap s) (prop "validate" sp) <> TFunction ->
  let h1 := st_heap s ++ [Cell KObject opts] in
  exists h2,
    (h2 = h1 \/ h2 = logged h1 value (VRef ls) (VRef lo)) /\
    _chk (S fuel) value (VRef ls) (VRef lo) s = Ok v (State h2 (st_calls s)).
Proof.
  intros Hs Hp Hne Hprim opts v Hreq Hty Hval Hvf h1.
  assert (ls < length (st_heap s)) as Hls by by eapply lookup_lt_Some.
  assert (lo < length (st_heap s)) as Hlo by by eapply lookup_lt_Some.
  cbn [_chk]. mstep.
  unfold tipe_is at 1, classify at 1. rewrite Hs. cbn [ckind tag_eqb negb].
  rewrite (bind_Ok _ _ _ _ _ (override_objects _ _ _ _ _ Hp Hs)).
  fold (optionsOf (st_heap s) pp sp). fold opts.
  set (c := Cell KObject opts). mstep. rewrite deref_alloc_new.
  assert (exists h2,
            (h2 = st_heap s ++ [c]
             \/ h2 = logged (st_heap s ++ [c]) value (VRef ls) (VRef lo))
            /\ (if to_boolean (cell_get c "log")
                then log value (VRef ls) (VRef lo) else ret tt)
                 (State (st_heap s ++ [c]) (st_calls s))
               = Ok tt (State h2 (st_calls s))) as (h2 & Hh2 & Hlog).
  { destruct (to_boolean (cell_get c "log")).
    - eexists. split; [right; reflexivity|exact (log_eq _ _ _ (State _ _))].
    - eexists. split; [left; reflexivity|done]. }
  rewrite (bind_Ok _ _ _ _ _ Hlog). clear Hlog.
  assert (forall l, l < length (st_heap s) -> l <> lo -> h2 !! l = st_heap s !! l)
    as Hkeep.
  { intros l Hl Hl'. destruct Hh2 as [-> | ->].
    - by rewrite lookup_alloc_old.
    - rewrite lookup_logged, lookup_alloc_old; try done.
      + rewrite length_alloc. lia.
      + congruence. }
  assert (h2 !! length (st_heap s) = Some c) as Hc2.
  { destruct Hh2 as [-> | ->].
    - apply lookup_alloc_new.
    - rewrite lookup_logged, lookup_alloc_new; try done.
      + rewrite length_alloc. lia.
      + intros [= ->]. lia. }
  assert (length (st_heap s) <= length h2) as Hlen2.
  { apply Nat.lt_le_incl. by eapply lookup_lt_Some. }
  assert (h2 !! ls = Some (Cell KObject sp)) as Hs2
    by (rewrite Hkeep; done).
  assert (classify h2 (prop "validate" sp) <> TFunction) as Hv2.
  { intros E. apply Hvf.
    destruct Hh2 as [-> | ->].
    - destruct (classify_alloc_object (st_heap s) c (prop "validate" sp) eq_refl)
        as [E'|[E' _]]; congruence.
    - destruct (classify_logged (st_heap s ++ [c]) value (VRef ls) (VRef lo)
                  (prop "validate" sp)) as [E'|[E' _]]; [|congruence].
      destruct (classify_alloc_object (st_heap s) c (prop "validate" sp) eq_refl)
        as [E''|[E'' _]]; congruence. }
  exists h2. split; [exact Hh2|]. clear Hh2.
  repeat mstep. rewrite (deref_cell _ _ _ _ Hs2), (deref_cell _ _ _ _ Hc2).
  cbn [cell_get ckind cprops c].
  rewrite (classify_primitive _ value Hprim).
  unfold missing in Hreq. rewrite Hreq.
  rewrite (bind_Ok _ _ _ _ _ (coerceType_eq _ _ _ _)). cbn [st_heap].
  rewrite (deref_cell _ _ _ _ Hs2), (deref_cell _ _ _ _ Hc2).
  cbn [cell_get ckind cprops c]. fold v.
  assert (primitive v) as Hpv by by apply coerceValue_primitive.
  clearbody v. repeat mstep. rewrite (deref_cell _ _ _ _ Hs2). cbn [cell_get ckind cprops].
  rewrite (classify_primitive _ v Hpv), classify_string.
  unfold mistyped in Hty. rewrite Hty.
  (* the scalar rules *)
  assert (checkScalar v (VRef ls) (VRef (length (st_heap s)))
            (State h2 (st_calls s)) = Ok v (State h2 (st_calls s))) as Hsc.
  { unfold checkScalar. repeat mstep.
    unfold tipe_is, classify at 1. rewrite Hs2. cbn [ckind tag_eqb negb orb].
    rewrite (classify_primitive _ v Hpv).
    unfold misvalued in Hval.
    destruct (tag_eqb (classify [] v) TNull || tag_eqb (classify [] v) TUndefined)
      eqn:Habs.
    - by destruct (tag_eqb (classify [] v) TNull).
    - replace (tag_eqb (classify [] v) TNull || tag_eqb (classify [] v) TUndefined)
        with false by done.
      cbn [negb andb] in Hval. repeat mstep.
      rewrite (deref_cell _ _ _ _ Hs2). cbn [cell_get ckind cprops].
      destruct (prop "value" sp) as [| | | | |l] eqn:Esv; try done;
        cbn [classify]; by rewrite Hval. }
  assert (match classify [] v with
          | TObject => checkobject (_chk fuel) v (VRef ls) (VRef (length (st_heap s)))
          | TArray => checkArray (_chk fuel) v (VRef ls) (VRef (length (st_heap s)))
          | _ => checkScalar v (VRef ls) (VRef (length (st_heap s)))
          end = checkScalar v (VRef ls) (VRef (length (st_heap s)))) as ->.
  { by destruct v. }
  rewrite (bind_Ok _ _ _ _ _ Hsc). repeat mstep.
  unfold tipe_is at 1. rewrite (classify_primitive _ v Hpv).
  assert (tag_eqb (classify [] v) TError = false) as -> by by destruct v.
  repeat mstep. rewrite (deref_cell _ _ _ _ Hs2). cbn [cell_get ckind cprops].
  unfold tipe_is.
  assert (tag_eqb (classify h2 (prop "validate" sp)) TFunction = false) as ->
    by by destruct (classify h2 (prop "validate" sp)).
  reflexivity.
Qed.

Lemma _chk_scalar_pass fuel ls sp lo pp s value :
  st_heap s !! ls = Some (Cell KObject sp) ->
  st_heap s !! lo = Some (Cell KObject pp) ->
  lo <> ls ->
  primitive value ->
  let opts := optionsOf (st_heap s) pp sp in
  let v := coerceValue (prop "doNotCoerce" opts) (prop "type" sp) value in
  missing (prop "ignoreRequired" opts) (prop "required" sp) value = false ->
  mistyped (prop "type" sp) v = false ->
  misvalued (prop "value" sp) v = false ->
  classify (st_heap s) (prop "validate" sp) <> TFunction ->
  exists s', _chk (S fuel) value (VRef ls) (VRef lo) s = Ok v s'
             /\ st_calls s' = st_calls s
             /\ length (st_heap s) <= length (st_heap s')
             /\ keeps (fun l => l <> lo) s s'.
Proof.
  intros Hs Hp Hne Hprim opts v Hreq Hty Hval Hvf.
  assert (lo < length (st_heap s)) as Hlo by by eapply lookup_lt_Some.
  destruct (_chk_scalar_pass_store fuel ls sp lo pp s value Hs Hp Hne Hprim
              Hreq Hty Hval Hvf) as (h2 & Hh2 & Hrun).
  fold opts in Hh2. fold v in Hrun.
  exists (State h2 (st_calls s)). split; [exact Hrun|]. cbn [st_heap st_calls].
  split; [done|].
  destruct Hh2 as [-> | ->].
  - split; [rewrite length_alloc; lia|].
    intros l c' Hl Hc'. cbn [st_heap]. rewrite lookup_alloc_old; [done|].
    by eapply lookup_lt_Some.
  - split.
    + unfold logged. rewrite length_app. destruct (tipe_is _ _ _);
        rewrite ?length_remove, length_alloc; cbn; lia.
    + intros l c' Hl Hc'. cbn [st_heap].
      assert (l < length (st_heap s)) by by eapply lookup_lt_Some.
      rewrite lookup_logged, lookup_alloc_old; try done.
      * rewrite length_alloc. lia.
      * congruence.
Qed.

(** C10 (as amended).  For an object-shaped schema whose [type] is a
    string, whose [required] flag is not set and whose [validate] is not a
    function, [chk] of an absent value returns [null], whatever the
    options are. *)
Theorem C10_absent_value_passes fuel schema userOptions s t r v :
  tipe_is TObject (st_heap s) schema = true ->
  read (st_heap s) schema "type" = Some (VStr t) ->
  read (st_heap s) schema "required" = Some r -> to_boolean r = false ->
  read (st_heap s) schema "validate" = Some v ->
  tipe_is TFunction (st_heap s) v = false ->
  exists s', chk (S fuel) VUndef schema userOptions s = Ok VNull s'.
Proof.
  intros Hs _ Hr Hrf Hv Hvf.
  apply classify_object in Hs as (ls & [ks sp] & -> & Hs & Ks).
  cbn [ckind] in Ks. subst ks.
  cbn [read] in Hr, Hv. rewrite Hs in Hr, Hv. cbn [cell_get ckind cprops] in *.
  injection Hr as <-. injection Hv as <-.
  assert (ls < length (st_heap s)) as Hls by by eapply lookup_lt_Some.
  unfold chk. mstep. unfold tipe_is at 1, classify at 1. rewrite Hs.
  cbn [ckind tag_eqb negb]. mstep.
  set (c0 := Cell KObject _).
  (* the options record, merged with the caller's *)
  assert (exists lo pp h1,
            override (VRef (length (st_heap s))) userOptions
              (State (st_heap s ++ [c0]) (st_calls s))
            = Ok (VRef lo) (State h1 (st_calls s))
            /\ h1 !! lo = Some (Cell KObject pp) /\ lo <> ls
            /\ h1 !! ls = Some (Cell KObject sp)
            /\ classify h1 (prop "validate" sp) <> TFunction)
    as (lo & pp & h1 & Hov & Hlo & Hne & Hs1 & Hv1).
  { assert (classify (st_heap s ++ [c0]) (prop "validate" sp) <> TFunction) as Hv0.
    { intros E. destruct (classify_alloc_object (st_heap s) c0
                            (prop "validate" sp) eq_refl) as [E'|[E' _]].
      - unfold tipe_is in Hvf. rewrite <- E', E in Hvf. done.
      - congruence. }
    destruct (override_post (VRef (length (st_heap s))) userOptions
                (State (st_heap s ++ [c0]) (st_calls s))) as [E|[ps E]].
    - exists (length (st_heap s)), (cprops c0), (st_heap s ++ [c0]).
      rewrite lookup_alloc_new, lookup_alloc_old by done.
      repeat split; try done. lia.
    - cbn [st_heap st_calls] in E. rewrite length_alloc in E.
      exists (S (length (st_heap s))), ps, ((st_heap s ++ [c0]) ++ [Cell KObject ps]).
      split; [done|]. split.
      { rewrite <- (length_alloc (st_heap s) c0). apply lookup_alloc_new. }
      split; [lia|]. split.
      { rewrite !lookup_alloc_old; rewrite ?length_alloc; try done; lia. }
      intros E'. destruct (classify_alloc_object (st_heap s ++ [c0])
                             (Cell KObject ps) (prop "validate" sp) eq_refl)
        as [E''|[E'' _]]; congruence. }
  rewrite (bind_Ok _ _ _ _ _ Hov). clear Hov. clearbody c0.
  repeat mstep.
  assert (lo < length h1) as Hlo1 by by eapply lookup_lt_Some.
  assert (exists pp', store (store h1 lo "rootValue" VUndef) lo "rootSchema" (VRef ls) !! lo
                      = Some (Cell KObject pp')) as [pp' Hlo'].
  { unfold store at 2. rewrite Hlo. unfold store.
    rewrite list_lookup_insert_eq by done.
    rewrite list_lookup_insert_eq by by rewrite length_insert.
    by eexists. }
  assert (store (store h1 lo "rootValue" VUndef) lo "rootSchema" (VRef ls) !! ls
          = Some (Cell KObject sp)) as Hs'.
  { unfold store at 2. rewrite Hlo. unfold store.
    rewrite list_lookup_insert_eq by done.
    by rewrite !list_lookup_insert_ne by done. }
  destruct (_chk_scalar_pass fuel ls sp lo pp'
              (State (store (store h1 lo "rootValue" VUndef) lo "rootSchema" (VRef ls))
                 (st_calls s)) VUndef Hs' Hlo' Hne) as (s' & Hchk & _);
    rewrite ?coerceValue_not_string in * by done; try done.
  { unfold missing. by rewrite Hrf, andb_false_r. }
  { cbn [st_heap]. by rewrite !classify_store. }
  rewrite (bind_Ok _ _ _ _ _ Hchk). mstep. cbn. eauto.
Qed.


(** ** The entry point *)

(** The options record of a call without options. *)
Definition defaultOptions (value schema : val) : props :=
  [("ignoreDefaults", VBool false); ("ignoreRequired", VBool false);
   ("doNotCoerce", VBool false); ("strict", VBool false); ("log", VBool false);
   ("rootValue", value); ("rootSchema", schema)].

Lemma chk_no_options fuel value ls sp s :
  st_heap s !! ls = Some (Cell KObject sp) ->
  chk fuel value (VRef ls) VUndef s =
    bind (_chk fuel value (VRef ls) (VRef (length (st_heap s))))
      (fun err => e <- isM TError err ;; ret (if e then err else VNull))
      (State (st_heap s ++ [Cell KObject (defaultOptions value (VRef ls))])
         (st_calls s)).
Proof.
  intros Hs. unfold chk. mstep.
  unfold tipe_is at 1, classify at 1. rewrite Hs. cbn [ckind tag_eqb negb].
  mstep. rewrite (bind_Ok _ _ _ _ _ (override_not_object _ VUndef _ eq_refl)).
  repeat mstep. by rewrite !store_alloc_new.
Qed.

(** A schema that declares a type and nothing else. *)
Lemma _chk_type_only fuel ls ty lo pp s str :
  st_heap s !! ls = Some (Cell KObject [("type", VStr ty)]) ->
  st_heap s !! lo = Some (Cell KObject pp) ->
  lo <> ls ->
  let v := coerceValue (prop "doNotCoerce" pp) (VStr ty) (VStr str) in
  mistyped (VStr ty) v = false ->
  exists s', _chk (S fuel) (VStr str) (VRef ls) (VRef lo) s = Ok v s'.
Proof.
  intros Hs Hp Hne v Hty.
  assert (prop "doNotCoerce" (optionsOf (st_heap s) pp [("type", VStr ty)])
          = prop "doNotCoerce" pp) as Hopt
    by (unfold optionsOf; by rewrite prop_merged).
  destruct (_chk_scalar_pass fuel ls [("type", VStr ty)] lo pp s (VStr str)
              Hs Hp Hne) as (s' & Hchk & _); rewrite ?Hopt in *; try done.
  - unfold missing. cbn [prop assoc String.eqb Ascii.eqb Bool.eqb to_boolean].
    by rewrite andb_false_r.
  - unfold misvalued. cbn [prop assoc String.eqb Ascii.eqb Bool.eqb].
    by rewrite andb_false_r.
  - by exists s'.
Qed.

(** What the checker makes of a string under a schema that declares a
    type and nothing else, when coercion turns the string into [x]. *)
Lemma _chk_coerced fuel s ls str ty x :
  (forall dnc, to_boolean dnc = false ->
     coerceValue dnc (VStr ty) (VStr str) = x /\ mistyped (VStr ty) x = false) ->
  st_heap s !! ls = Some (Cell KObject [("type", VStr ty)]) ->
  (forall lo pp,
     st_heap s !! lo = Some (Cell KObject pp) -> lo <> ls ->
     to_boolean (prop "doNotCoerce" pp) = false ->
     exists s', _chk (S fuel) (VStr str) (VRef ls) (VRef lo) s = Ok x s') /\
  exists s', chk (S fuel) (VStr str) (VRef ls) VUndef s = Ok VNull s'.
Proof.
  intros Hco Hs. split.
  - intros lo pp Hp Hne Hdnc. destruct (Hco _ Hdnc) as [Hv Hty].
    destruct (_chk_type_only fuel ls ty lo pp s str Hs Hp Hne) as [s' Hchk].
    + by rewrite Hv.
    + exists s'. by rewrite Hchk, Hv.
  - rewrite (chk_no_options _ _ _ _ _ Hs).
    assert (ls < length (st_heap s)) as Hls by by eapply lookup_lt_Some.
    destruct (Hco (VBool false) eq_refl) as [Hv Hty].
    destruct (_chk_type_only fuel ls ty (length (st_heap s))
                (defaultOptions (VStr str) (VRef ls))
                (State (st_heap s ++ [Cell KObject (defaultOptions (VStr str) (VRef ls))])
                   (st_calls s)) str) as [s' Hchk].
    + cbn [st_heap]. by rewrite lookup_alloc_old.
    + cbn [st_heap]. apply lookup_alloc_new.
    + lia.
    + assert (prop "doNotCoerce" (defaultOptions (VStr str) (VRef ls)) = VBool false)
        as -> by done.
      by rewrite Hv.
    + rewrite (bind_Ok _ _ _ _ _ Hchk). mstep.
      assert (prop "doNotCoerce" (defaultOptions (VStr str) (VRef ls)) = VBool false)
        as -> by done.
      rewrite Hv. unfold tipe_is.
      assert (tag_eqb (classify (st_heap s') x) TError = false) as ->.
      { unfold mistyped in Hty. destruct x as [| | | | |l]; try done.
        (* a value coerced from a string is no object *)
        exfalso. revert Hv. unfold coerceValue. cbn [to_boolean].
        destruct (strict_equal _ _); [apply coerceNumber_primitive|].
        by destruct (strict_equal _ _). }
      by eexists.
Qed.

(** C3 (as amended).  On a string checked against the declared type
    'number' with coercion on, [coerceType] of src/unnamed/part_000 takes
    the float parse when its magnitude is strictly greater than the integer
    parse's; otherwise the integer parse when it is truthy (neither zero
    nor NaN); otherwise it leaves the string as it is, the literal "0"
    apart, which becomes the number 0; [coerce] of src/chk.js makes the
    same of the string.  In src/unnamed/part_000, with parsers that read
    "42" as 42 and "0" as 0, and a truthiness rule that accepts "true", the
    recursive checker [_chk] goes on with, and returns, the number 42 for
    "42" and 0 for "0" under [{type: 'number'}], the boolean true for
    "true" under [{type: 'boolean'}]; [chk] itself returns null on each. *)
Theorem C3_coercion :
  (forall str schema options s dnc,
     read (st_heap s) options "doNotCoerce" = Some dnc ->
     to_boolean dnc = false ->
     read (st_heap s) schema "type" = Some (VStr "number") ->
     let f := parseFloat str in
     let i := parseInt str in
     exists v,
       coerceType (VStr str) schema options s = Ok v s /\
       ChkJs.coerce (VStr str) schema s = Ok v s /\
       (PrimFloat.ltb (PrimFloat.abs i) (PrimFloat.abs f) = true -> v = VNum f) /\
       (PrimFloat.ltb (PrimFloat.abs i) (PrimFloat.abs f) = false ->
        to_boolean (VNum i) = true -> v = VNum i) /\
       (PrimFloat.ltb (PrimFloat.abs i) (PrimFloat.abs f) = false ->
        to_boolean (VNum i) = false ->
        v = if String.eqb str "0" then VNum 0 else VStr str)) /\
  (forall fuel s ls,
     parseFloat "42" = 42%float -> parseInt "42" = 42%float ->
     st_heap s !! ls = Some (Cell KObject [("type", VStr "number")]) ->
     (forall lo pp,
        st_heap s !! lo = Some (Cell KObject pp) -> lo <> ls ->
        to_boolean (prop "doNotCoerce" pp) = false ->
        exists s', _chk (S fuel) (VStr "42") (VRef ls) (VRef lo) s
                   = Ok (VNum 42) s') /\
     exists s', chk (S fuel) (VStr "42") (VRef ls) VUndef s = Ok VNull s') /\
  (forall fuel s ls,
     parseFloat "0" = 0%float -> parseInt "0" = 0%float ->
     st_heap s !! ls = Some (Cell KObject [("type", VStr "number")]) ->
     (forall lo pp,
        st_heap s !! lo = Some (Cell KObject pp) -> lo <> ls ->
        to_boolean (prop "doNotCoerce" pp) = false ->
        exists s', _chk (S fuel) (VStr "0") (VRef ls) (VRef lo) s
                   = Ok (VNum 0) s') /\
     exists s', chk (S fuel) (VStr "0") (VRef ls) VUndef s = Ok VNull s') /\
  (forall fuel s ls,
     truthy "true" = true ->
     st_heap s !! ls = Some (Cell KObject [("type", VStr "boolean")]) ->
     (forall lo pp,
        st_heap s !! lo = Some (Cell KObject pp) -> lo <> ls ->
        to_boolean (prop "doNotCoerce" pp) = false ->
        exists s', _chk (S fuel) (VStr "true") (VRef ls) (VRef lo) s
                   = Ok (VBool true) s') /\
     exists s', chk (S fuel) (VStr "true") (VRef ls) VUndef s = Ok VNull s').
Proof.
  split; [|split; [|split]].
  - intros str schema options s dnc Hd Hdf Ht f i.
    exists (coerceNumber str). split; [|split].
    + unfold coerceType, getp, bind. rewrite Hd, Hdf, Ht. done.
    + unfold ChkJs.coerce, getp, bind. by rewrite Ht.
    + unfold coerceNumber. fold f i.
      destruct (PrimFloat.ltb (PrimFloat.abs i) (PrimFloat.abs f)).
      * by split; [|split].
      * split; [done|]. destruct (to_boolean (VNum i)).
        -- by split.
        -- split; [done|]. intros _ _.
           cbn [strict_equal]. by case String.eqb.
  - intros fuel s ls Hf Hi Hs. apply (_chk_coerced _ _ _ _ "number"); [|done].
    intros dnc Hdnc. unfold coerceValue. rewrite Hdnc.
    cbn [strict_equal]. rewrite String.eqb_refl. unfold coerceNumber.
    rewrite Hf, Hi. by vm_compute.
  - intros fuel s ls Hf Hi Hs. apply (_chk_coerced _ _ _ _ "number"); [|done].
    intros dnc Hdnc. unfold coerceValue. rewrite Hdnc.
    cbn [strict_equal]. rewrite String.eqb_refl. unfold coerceNumber.
    rewrite Hf, Hi. by vm_compute.
  - intros fuel s ls Htr Hs. apply (_chk_coerced _ _ _ _ "boolean"); [|done].
    intros dnc Hdnc. unfold coerceValue. rewrite Hdnc.
    cbn [strict_equal]. rewrite Htr. by vm_compute.
Qed.

End T.

Lemma bind_getp {B} v key x (k : val -> M B) s :
  read (st_heap s) v key = Some x -> bind (getp v key) k s = k x s.
Proof. unfold bind, getp. by intros ->. Qed.

Lemma bind_setp {B} v key x h (k : unit -> M B) s :
  write (st_heap s) v key x = Some h ->
  bind (setp v key x) k s = k tt (State h (st_calls s)).
Proof. unfold bind, setp. by intros ->. Qed.

Section ArrayFacts.
Context `{Runtime}.
Import Part000.
Variable rec : val -> val -> val -> M val.
Variables value schema options : val.

(** One pass of the array loop at index [i]: the traversal key is set to
    [i], and the element found at [i] is checked against [schema.value]. *)
Definition visits (i : nat) (s : state) (r : val) (s' : state) : Prop :=
  exists h x sv,
    write (st_heap s) options "key" (VNum (number_of_nat i)) = Some h /\
    read h value (index_key i) = Some x /\
    read h schema "value" = Some sv /\
    rec x sv options (State h (st_calls s)) = Ok r s'.

(** The passes at the indices below [hi] down to [lo], none of which
    produced an error. *)
Inductive passed : nat -> nat -> state -> state -> Prop :=
| passed_none i s : passed i i s s
| passed_next hi lo s r s1 s2 :
    visits hi s r s1 ->
    tipe_is TError (st_heap s1) r = false ->
    passed hi lo s1 s2 ->
    passed (S hi) lo s s2.

Lemma checkElement_visits i s r s' :
  visits i s r s' -> checkElement rec value schema options i s = Ok r s'.
Proof.
  intros (h & x & sv & Hw & Hx & Hsv & Hrec).
  unfold checkElement. rewrite (bind_setp _ _ _ _ _ _ Hw).
  rewrite (bind_getp _ _ x) by done. by rewrite (bind_getp _ _ sv).
Qed.

Lemma checkElements_passed hi lo s s' :
  passed hi lo s s' ->
  checkElements rec value schema options hi s
  = checkElements rec value schema options lo s'.
Proof.
  induction 1 as [|hi lo s r s1 s2 Hv Hr _ IH]; [done|].
  cbn [checkElements].
  rewrite (bind_Ok _ _ _ _ _ (checkElement_visits _ _ _ _ Hv)).
  rewrite bind_isM, Hr. exact IH.
Qed.

End ArrayFacts.

Section C4.
Context `{Runtime}.
Import Part000.

(** C4 (as amended).  With an element schema present in [schema.value],
    the array check visits the elements from the last index down to the
    first, the traversal key set to the index, and stops at the first
    failure it meets: when the elements above index [j] pass and the one
    at [j] fails, the check returns that element's error in the state the
    failing pass left, so no element below [j] is evaluated; when all
    pass, it returns the array. *)
Theorem C4_array_descending rec lv es ps schema sv options s :
  st_heap s !! lv = Some (Cell (KArray es) ps) ->
  tipe_is TObject (st_heap s) schema = true ->
  read (st_heap s) schema "value" = Some sv ->
  tipe_is TObject (st_heap s) sv = true ->
  (forall j s1 e s2,
     j < length es ->
     passed rec (VRef lv) schema options (length es) (S j) s s1 ->
     visits rec (VRef lv) schema options j s1 e s2 ->
     tipe_is TError (st_heap s2) e = true ->
     checkArray rec (VRef lv) schema options s = Ok e s2) /\
  (forall s',
     passed rec (VRef lv) schema options (length es) 0 s s' ->
     checkArray rec (VRef lv) schema options s = Ok (VRef lv) s').
Proof.
  intros Hv Hs Hsv Hsvo.
  assert (checkArray rec (VRef lv) schema options s =
          or_continue (checkElements rec (VRef lv) schema options (length es))
            (ret (VRef lv)) s) as ->.
  { unfold checkArray. rewrite bind_isM, Hs. cbn [negb].
    rewrite (bind_getp _ _ sv) by done. rewrite bind_isM, Hsvo.
    unfold lengthM, bind at 1. by rewrite Hv. }
  split.
  - intros j s1 e s2 Hj Hpass Hvis He.
    unfold or_continue.
    rewrite (bind_Ok _ _ _ (Some e) s2); [done|].
    rewrite (checkElements_passed _ _ _ _ _ _ _ _ Hpass). cbn [checkElements].
    rewrite (bind_Ok _ _ _ _ _ (checkElement_visits _ _ _ _ _ _ _ _ Hvis)).
    by rewrite bind_isM, He.
  - intros s' Hpass. unfold or_continue.
    rewrite (bind_Ok _ _ _ None s'); [done|].
    by rewrite (checkElements_passed _ _ _ _ _ _ _ _ Hpass).
Qed.

End C4.

(** * What a run of the checker invokes, and what it does to the store *)

(** An object keeps its class for as long as it lives. *)
Definition same_kind (k k' : kind) : Prop :=
  match k, k' with
  | KObject, KObject | KArray _, KArray _ | KError _, KError _ => True
  | KFunction f, KFunction f' => f = f'
  | _, _ => False
  end.

Definition kinds_kept (h h' : heap) : Prop :=
  forall l c, h !! l = Some c ->
    exists c', h' !! l = Some c' /\ same_kind (ckind c) (ckind c').

Lemma same_kind_refl k : same_kind k k.
Proof. by destruct k. Qed.

Lemma same_kind_trans k1 k2 k3 : same_kind k1 k2 -> same_kind k2 k3 -> same_kind k1 k3.
Proof. destruct k1, k2, k3; simpl; try done. congruence. Qed.

Lemma kinds_kept_refl h : kinds_kept h h.
Proof. intros l c Hc. exists c. split; [done|apply same_kind_refl]. Qed.

Lemma kinds_kept_trans h1 h2 h3 :
  kinds_kept h1 h2 -> kinds_kept h2 h3 -> kinds_kept h1 h3.
Proof.
  intros H12 H23 l c Hc. destruct (H12 l c Hc) as (c2 & Hc2 & K2).
  destruct (H23 l c2 Hc2) as (c3 & Hc3 & K3).
  exists c3. split; [done|]. by eapply same_kind_trans.
Qed.

Lemma kinds_kept_alloc h c : kinds_kept h (h ++ [c]).
Proof.
  intros l c' Hc'. exists c'. split; [|apply same_kind_refl].
  rewrite lookup_alloc_old; [done|]. by eapply lookup_lt_Some.
Qed.

Lemma same_kind_cell_set c k x : same_kind (ckind c) (ckind (cell_set c k x)).
Proof.
  unfold cell_set. destruct (ckind c) eqn:E; cbn; rewrite ?E; try done.
  destruct (String.eqb k "message"); cbn; by rewrite ?E.
Qed.

Lemma kinds_kept_store h l k x : kinds_kept h (store h l k x).
Proof.
  intros l' c' Hc'. unfold store. destruct (h !! l) as [c|] eqn:Hc.
  - destruct (decide (l = l')) as [<-|Hne].
    + rewrite list_lookup_insert_eq by by eapply lookup_lt_Some.
      eexists. split; [done|]. assert (c' = c) as -> by congruence.
      apply same_kind_cell_set.
    + rewrite list_lookup_insert_ne by done.
      exists c'. split; [done|apply same_kind_refl].
  - exists c'. split; [done|apply same_kind_refl].
Qed.

Lemma kinds_kept_write h v k x h' : write h v k x = Some h' -> kinds_kept h h'.
Proof.
  destruct v; simpl; try congruence; try (intros [= <-]; apply kinds_kept_refl).
  intros [= <-]. apply (kinds_kept_store h l k x).
Qed.

Lemma kinds_kept_remove h v k : kinds_kept h (remove h v k).
Proof.
  intros l' c' Hc'. destruct v as [| | | | |l]; simpl;
    try (exists c'; split; [done|apply same_kind_refl]).
  destruct (h !! l) as [c|] eqn:Hc.
  - destruct (decide (l = l')) as [<-|Hne].
    + rewrite list_lookup_insert_eq by by eapply lookup_lt_Some.
      eexists. split; [done|]. assert (c' = c) as -> by congruence.
      apply same_kind_refl.
    + rewrite list_lookup_insert_ne by done.
      exists c'. split; [done|apply same_kind_refl].
  - exists c'. split; [done|apply same_kind_refl].
Qed.

Lemma classify_kept h h' l c :
  kinds_kept h h' -> h !! l = Some c -> classify h' (VRef l) = classify h (VRef l).
Proof.
  intros Hk Hc. destruct (Hk l c Hc) as (c' & Hc' & K). simpl. rewrite Hc, Hc'.
  by destruct (ckind c), (ckind c').
Qed.

(** The runtime respects that. *)
Class Lawful (R : Runtime) : Prop := {
  call_kinds : forall f h this args, kinds_kept h (fst (call f h this args));
  JSON_kinds : forall h v, kinds_kept h (fst (JSON_roundtrip h v))
}.

(** ** Computations that invoke nothing *)

Definition quietly (X : exn -> Prop) (s : state) {A} (o : outcome A) : Prop :=
  match o with
  | Ok _ s' => kinds_kept (st_heap s) (st_heap s') /\ st_calls s' = st_calls s
  | Uncaught x s' =>
      X x /\ kinds_kept (st_heap s) (st_heap s') /\ st_calls s' = st_calls s
  | OutOfFuel _ => False
  end.

(** [m] ends, invokes no function, and the only exception it can end with
    is a TypeError of the engine. *)
Definition silent {A} (m : M A) : Prop :=
  forall s, quietly (fun x => x = TypeError) s (m s).

Lemma silent_ret {A} (a : A) : silent (ret a).
Proof. intros s. split; [apply kinds_kept_refl|done]. Qed.

Lemma silent_throw {A} : silent (throw (A := A) TypeError).
Proof. intros s. split; [done|]. split; [apply kinds_kept_refl|done]. Qed.

Lemma silent_bind {A B} (m : M A) (k : A -> M B) :
  silent m -> (forall a, silent (k a)) -> silent (bind m k).
Proof.
  intros Hm Hk s. unfold bind. specialize (Hm s).
  destruct (m s) as [a s1|x s1|]; [|done..].
  destruct Hm as [K1 C1]. specialize (Hk a s1).
  destruct (k a s1) as [b s2|x s2|]; [| |done].
  - destruct Hk as [K2 C2]. split; [by eapply kinds_kept_trans|congruence].
  - destruct Hk as (X & K2 & C2).
    split; [done|]. split; [by eapply kinds_kept_trans|congruence].
Qed.

Lemma silent_alloc c : silent (alloc c).
Proof. intros s. split; [apply kinds_kept_alloc|done]. Qed.

Lemma silent_getp v k : silent (getp v k).
Proof.
  intros s. unfold getp. destruct (read _ _ _).
  - split; [apply kinds_kept_refl|done].
  - split; [done|]. split; [apply kinds_kept_refl|done].
Qed.

Lemma silent_setp v k x : silent (setp v k x).
Proof.
  intros s. unfold setp. destruct (write _ _ _ _) eqn:E.
  - split; [by eapply kinds_kept_write|done].
  - split; [done|]. split; [apply kinds_kept_refl|done].
Qed.

Lemma silent_delp v k : silent (delp v k).
Proof. intros s. split; [apply kinds_kept_remove|done]. Qed.

Lemma silent_keysM v : silent (keysM v).
Proof. intros s. split; [apply kinds_kept_refl|done]. Qed.

Lemma silent_classifyM v : silent (classifyM v).
Proof. intros s. split; [apply kinds_kept_refl|done]. Qed.

Lemma silent_isM t v : silent (isM t v).
Proof. intros s. split; [apply kinds_kept_refl|done]. Qed.

Lemma silent_lengthM v : silent (lengthM v).
Proof.
  intros s. unfold lengthM.
  destruct v as [| | | | |l]; try (split; [apply kinds_kept_refl|done]);
    try (split; [done|]; split; [apply kinds_kept_refl|done]).
  destruct (_ !! l) as [[[] ?]|]; split; try apply kinds_kept_refl; done.
Qed.

Lemma silent_get_heap : silent get_heap.
Proof. intros s. split; [apply kinds_kept_refl|done]. Qed.

Lemma silent_to_stringM `{Runtime} v : silent (to_stringM v).
Proof. intros s. split; [apply kinds_kept_refl|done]. Qed.

Lemma silent_for_each ks body :
  (forall k, silent (body k)) -> silent (for_each ks body).
Proof.
  intros Hb. induction ks as [|k ks IH]; [apply silent_ret|].
  apply silent_bind; [apply Hb|]. by intros _.
Qed.

Lemma silent_for_in {A} ks (body : string -> M (option A)) :
  (forall k, silent (body k)) -> silent (for_in ks body).
Proof.
  intros Hb. induction ks as [|k ks IH]; [apply silent_ret|].
  apply silent_bind; [apply Hb|]. intros [a|]; [apply silent_ret|done].
Qed.

Lemma silent_or_continue {A} (m : M (option A)) (k : M A) :
  silent m -> silent k -> silent (or_continue m k).
Proof.
  intros Hm Hk. apply silent_bind; [done|]. intros [a|]; [apply silent_ret|done].
Qed.

(** What is caught never escapes: only the handler's exceptions do. *)
Lemma silent_try_catch {A} (body : M A) (handler : val -> M A) X :
  (forall s, quietly X s (body s)) ->
  (forall e, silent (handler e)) ->
  silent (try_catch body handler).
Proof.
  intros Hb Hh s. unfold try_catch. specialize (Hb s).
  destruct (body s) as [a s1|x s1|]; [done| |done].
  destruct Hb as (_ & K1 & C1).
  assert (forall e (s2 : state),
            kinds_kept (st_heap s1) (st_heap s2) -> st_calls s2 = st_calls s1 ->
            quietly (fun x => x = TypeError) s (handler e s2)) as Hrun.
  { intros e s2 K2 C2. specialize (Hh e s2).
    destruct (handler e s2) as [a s3|x' s3|]; [| |done].
    - destruct Hh as [K3 C3].
      split; [eapply kinds_kept_trans; [|exact K3]; by eapply kinds_kept_trans
             |congruence].
    - destruct Hh as (X' & K3 & C3). split; [done|].
      split; [eapply kinds_kept_trans; [|exact K3]; by eapply kinds_kept_trans
             |congruence]. }
  destruct x as [|v].
  - rewrite bind_alloc. apply Hrun; [apply kinds_kept_alloc|done].
  - apply Hrun; [apply kinds_kept_refl|done].
Qed.

Lemma silent_json_copy `{Lawful} obj s :
  quietly (fun _ => True) s (json_copy obj s).
Proof.
  unfold json_copy. pose proof (JSON_kinds (st_heap s) obj) as K.
  destruct (JSON_roundtrip (st_heap s) obj) as [h' [v|e]]; simpl in *; done.
Qed.

(** One step of a silence proof. *)
Ltac silent_step :=
  lazymatch goal with
  | |- silent (bind _ _) => apply silent_bind; [|intros ?]
  | |- silent (ret _) => apply silent_ret
  | |- silent (getp _ _) => apply silent_getp
  | |- silent (setp _ _ _) => apply silent_setp
  | |- silent (delp _ _) => apply silent_delp
  | |- silent (alloc _) => apply silent_alloc
  | |- silent (keysM _) => apply silent_keysM
  | |- silent (classifyM _) => apply silent_classifyM
  | |- silent (isM _ _) => apply silent_isM
  | |- silent (lengthM _) => apply silent_lengthM
  | |- silent get_heap => apply silent_get_heap
  | |- silent (to_stringM _) => apply silent_to_stringM
  | |- silent (for_each _ _) => apply silent_for_each; intros ?
  | |- silent (for_in _ _) => apply silent_for_in; intros ?
  | |- silent (or_continue _ _) => apply silent_or_continue
  | |- silent (if ?b then _ else _) => destruct b
  | |- silent (match ?x with _ => _ end) => destruct x
  end.

Section SilentParts.
Context `{L : Lawful}.
Import Part000.

Lemma silent_fail code msg a0 a1 a2 : silent (fail code msg a0 a1 a2).
Proof. unfold fail. repeat silent_step. Qed.

Lemma silent_override obj1 obj2 : silent (override obj1 obj2).
Proof. unfold override. repeat silent_step. Qed.

Lemma silent_log a0 a1 a2 : silent (log a0 a1 a2).
Proof. unfold log. repeat silent_step. Qed.

Lemma silent_clone obj : silent (clone obj).
Proof.
  unfold clone. repeat silent_step.
  eapply silent_try_catch; [intros s; apply silent_json_copy|].
  intros e. apply silent_ret.
Qed.

Lemma silent_coerceType value schema options : silent (coerceType value schema options).
Proof. unfold coerceType. repeat silent_step. Qed.

Lemma silent_checkStrict value schema options fields :
  silent (checkStrict value schema options fields).
Proof. unfold checkStrict, strictKey. repeat (silent_step || apply silent_fail). Qed.

Lemma silent_setDefaults value schema options fields :
  silent (setDefaults value schema options fields).
Proof.
  unfold setDefaults, defaultField.
  repeat (silent_step || apply silent_fail || apply silent_clone).
Qed.

Lemma silent_checkRequired value schema options fields :
  silent (checkRequired value schema options fields).
Proof. unfold checkRequired, requireField. repeat (silent_step || apply silent_fail). Qed.

End SilentParts.

(** ** Validators that throw *)

Section Guarded.
Context `{L : Lawful}.
Import Part000.

(** What is known of a run that needs more fuel than it was given. *)
Variable F : Prop.

(** The invocation [i] ended by throwing the Error object [e], whose message
    reads [m]. *)
Definition throws_error (i : invocation) (e : nat) (m : string) : Prop :=
  inv_result i = Thrown (VRef e) /\
  exists msg ps,
    inv_heap i !! e = Some (Cell (KError msg) ps) /\
    m = to_string (inv_heap i) msg.

(** None of these invocations threw an Error object. *)
Definition quiet (new : list invocation) : Prop :=
  forall i e m, i ∈ new -> ~ throws_error i e m.

(** The Error object [e] as [callValidator] hands it back. *)
Definition downgraded (h : heap) (e : nat) (m : string) : Prop :=
  exists ps,
    h !! e = Some (Cell (KError (VStr ("Validator threw exception " +:+ m))) ps) /\
    prop "code" ps = VStr "badSchema".

(** What a run tells about the validators it invoked: either none of them
    threw an Error object, or the last one did, and that object, downgraded,
    is the result. *)
Inductive verdict (new : list invocation) (h : heap) (r : option val) : Prop :=
  | all_quiet : quiet new -> verdict new h r
  | converted new0 i e m :
      new = new0 ++ [i] -> quiet new0 -> throws_error i e m ->
      r = Some (VRef e) -> downgraded h e m ->
      verdict new h r.

Definition guarded {A} (f : A -> option val) (s : state) (o : outcome A) : Prop :=
  match o with
  | Ok a s' =>
      kinds_kept (st_heap s) (st_heap s') /\
      exists new, st_calls s' = st_calls s ++ new /\ verdict new (st_heap s') (f a)
  | Uncaught x s' =>
      x = TypeError /\
      kinds_kept (st_heap s) (st_heap s') /\
      exists new, st_calls s' = st_calls s ++ new /\ quiet new
  | OutOfFuel s' =>
      F /\ exists new, st_calls s' = st_calls s ++ new /\ quiet new
  end.

(** The rest of the run hands the downgraded error on, and invokes nothing. *)
Definition hands_on {B} (f : B -> option val) (e : nat) (m : string)
    (s : state) (o : outcome B) : Prop :=
  exists b s',
    o = Ok b s' /\ f b = Some (VRef e) /\ downgraded (st_heap s') e m /\
    st_calls s' = st_calls s /\ kinds_kept (st_heap s) (st_heap s').

Lemma quiet_nil : quiet [].
Proof. intros i e m Hi. by apply elem_of_nil in Hi. Qed.

Lemma quiet_app new1 new2 : quiet new1 -> quiet new2 -> quiet (new1 ++ new2).
Proof.
  intros H1 H2 i e m Hi. apply elem_of_app in Hi as [Hi|Hi]; [by apply H1|by apply H2].
Qed.

Lemma guarded_silent {A} (f : A -> option val) (m : M A) s :
  silent m -> guarded f s (m s).
Proof.
  intros Hm. specialize (Hm s). unfold guarded. destruct (m s) as [a s'|x s'|]; [| |done].
  - destruct Hm as [K C]. split; [done|]. exists []. rewrite app_nil_r.
    split; [done|]. apply all_quiet, quiet_nil.
  - destruct Hm as (X & K & C). split; [done|]. split; [done|].
    exists []. rewrite app_nil_r. split; [done|apply quiet_nil].
Qed.

Lemma guarded_bind {A B} (fa : A -> option val) (fb : B -> option val)
    (m : M A) (k : A -> M B) s :
  guarded fa s (m s) ->
  (forall a s1, m s = Ok a s1 -> kinds_kept (st_heap s) (st_heap s1) ->
                guarded fb s1 (k a s1)) ->
  (forall a s1 e msg, m s = Ok a s1 -> fa a = Some (VRef e) ->
                      downgraded (st_heap s1) e msg ->
                      hands_on fb e msg s1 (k a s1)) ->
  guarded fb s (bind m k s).
Proof.
  intros Hm Hk Hh. unfold bind. destruct (m s) as [a s1|x s1|]; [|done..].
  destruct Hm as (K1 & new1 & C1 & V1).
  destruct V1 as [Q1|new0 i e msg -> Q0 Ti Ha D].
  - specialize (Hk a s1 eq_refl K1). destruct (k a s1) as [b s2|x s2|s2].
    3:{ destruct Hk as (HF & new2 & C2 & Q2). split; [done|].
        exists (new1 ++ new2).
        split; [by rewrite C2, C1, app_assoc|by apply quiet_app]. }
    + destruct Hk as (K2 & new2 & C2 & V2). split; [by eapply kinds_kept_trans|].
      exists (new1 ++ new2). split; [by rewrite C2, C1, app_assoc|].
      destruct V2 as [Q2|new0 i e msg -> Q0 Ti Hb D].
      * by apply all_quiet, quiet_app.
      * eapply converted with (new0 := new1 ++ new0); eauto using quiet_app.
        by rewrite app_assoc.
    + destruct Hk as (X & K2 & new2 & C2 & Q2). split; [done|].
      split; [by eapply kinds_kept_trans|].
      exists (new1 ++ new2). split; [by rewrite C2, C1, app_assoc|by apply quiet_app].
  - destruct (Hh a s1 e msg eq_refl Ha D) as (b & s2 & -> & Hb & D2 & C2 & K2).
    split; [by eapply kinds_kept_trans|].
    exists (new0 ++ [i]). split; [congruence|].
    by eapply converted.
Qed.

Lemma guarded_bind_silent {A B} (fb : B -> option val) (m : M A) (k : A -> M B) s :
  silent m ->
  (forall a s1, m s = Ok a s1 -> kinds_kept (st_heap s) (st_heap s1) ->
                guarded fb s1 (k a s1)) ->
  guarded fb s (bind m k s).
Proof.
  intros Hm Hk. apply guarded_bind with (fa := fun _ => None).
  - by apply guarded_silent.
  - done.
  - intros a s1 e msg _ [=].
Qed.

Lemma classify_kept_tag h h' v :
  kinds_kept h h' -> classify h v <> TUndefined -> classify h' v = classify h v.
Proof.
  intros K Hv. destruct v as [| | | | |l]; try done.
  destruct (h !! l) as [c|] eqn:Hc; [by eapply classify_kept|].
  simpl in Hv. by rewrite Hc in Hv.
Qed.

Lemma tipe_is_kept t h h' v :
  kinds_kept h h' -> t <> TUndefined -> tipe_is t h v = true -> tipe_is t h' v = true.
Proof.
  unfold tipe_is. intros K Ht Hv.
  rewrite (classify_kept_tag h h' v K); [done|].
  intros E. rewrite E in Hv. by destruct t.
Qed.

(** *** The downgraded error survives what [fail] does *)

Lemma downgraded_alloc h c e m : downgraded h e m -> downgraded (h ++ [c]) e m.
Proof.
  intros (ps & He & Hc). exists ps. split; [|done].
  rewrite lookup_alloc_old; [done|]. by eapply lookup_lt_Some.
Qed.

Lemma prop_del_prop k k' ps : k <> k' -> prop k (del_prop k' ps) = prop k ps.
Proof.
  intros Hne. unfold prop, del_prop. induction ps as [|[k0 v0] ps IH]; [done|].
  cbn. destruct (String.eqb k' k0) eqn:E0; cbn.
  - apply String.eqb_eq in E0 as <-.
    destruct (String.eqb k k') eqn:E1; [by apply String.eqb_eq in E1|done].
  - destruct (String.eqb k k0); [done|apply IH].
Qed.

Lemma downgraded_store h l k x e m :
  downgraded h e m ->
  l <> e \/ (k <> "message" /\ (k = "code" -> x = VStr "badSchema")) ->
  downgraded (store h l k x) e m.
Proof.
  intros (ps & He & Hc) Hl. unfold store. destruct (h !! l) as [c|] eqn:Hcl;
    [|by exists ps].
  destruct (decide (l = e)) as [->|Hne].
  - destruct Hl as [?|[Hk Hx]]; [done|].
    assert (c = Cell (KError (VStr ("Validator threw exception " +:+ m))) ps)
      as -> by congruence.
    unfold downgraded.
    rewrite list_lookup_insert_eq by by eapply lookup_lt_Some.
    unfold cell_set. cbn [ckind cprops].
    destruct (String.eqb k "message") eqn:E; [by apply String.eqb_eq in E|].
    eexists. split; [done|]. rewrite prop_set_prop.
    destruct (String.eqb "code" k) eqn:E'; [|done].
    apply String.eqb_eq in E'. by apply Hx.
  - exists ps. by rewrite list_lookup_insert_ne.
Qed.

Lemma downgraded_remove h v k e m :
  downgraded h e m -> k <> "code" -> downgraded (remove h v k) e m.
Proof.
  intros (ps & He & Hc) Hk.
  assert (v = VRef e \/ v <> VRef e) as [->|Hne].
  { destruct v as [| | | | |l]; try by right.
    destruct (decide (l = e)) as [->|]; [by left|right; congruence]. }
  - exists (del_prop k ps). split; [by rewrite (lookup_remove_eq h e k _ He)|].
    by rewrite prop_del_prop.
  - exists ps. by rewrite lookup_remove_ne.
Qed.

Lemma downgraded_error h e m : downgraded h e m -> tipe_is TError h (VRef e) = true.
Proof. intros (ps & He & _). unfold tipe_is. simpl. by rewrite He. Qed.

Lemma downgraded_code h e m : downgraded h e m -> deref h e "code" = VStr "badSchema".
Proof. intros (ps & He & Hc). unfold deref. by rewrite He. Qed.

Lemma downgraded_lt h e m : downgraded h e m -> e < length h.
Proof. intros (ps & He & _). by eapply lookup_lt_Some. Qed.

(** [fail] on a downgraded error returns it as it is. *)
Lemma fail_hands_on e m a0 a1 a2 s :
  downgraded (st_heap s) e m ->
  hands_on Some e m s (fail (VStr "badSchema") (VRef e) a0 a1 a2 s).
Proof.
  intros D.
  enough (returns (fail (VStr "badSchema") (VRef e) a0 a1 a2) s (fun r s' =>
            r = VRef e /\ downgraded (st_heap s') e m /\
            st_calls s' = st_calls s /\ kinds_kept (st_heap s) (st_heap s'))) as Hr.
  { apply returns_inv in Hr as (r & s' & Hrun & -> & D' & C' & K').
    by exists (VRef e), s'. }
  unfold returns, fail.
  apply post_bind, post_alloc. cbn [st_heap st_calls].
  apply post_bind.
  set (n := length (st_heap s)).
  set (I := fun s1 : state =>
              downgraded (st_heap s1) e m /\ st_calls s1 = st_calls s /\
              kinds_kept (st_heap s) (st_heap s1)).
  eapply post_mono with (Q := fun _ s1 => I s1); try done.
  - assert (I (State (st_heap s ++ [Cell KObject [("value", a0); ("schema", a1)]])
                 (st_calls s))) as HI0.
    { split; [by apply downgraded_alloc|]. split; [done|apply kinds_kept_alloc]. }
    destruct (to_boolean a2) eqn:Ha2; [|by apply post_ret].
    apply post_bind, post_delp. apply post_bind, post_keysM.
    cbn [st_heap st_calls].
    apply post_for_each with (I := I).
    + destruct HI0 as (D0 & C0 & K0). split; [by apply downgraded_remove|].
      split; [done|]. eapply kinds_kept_trans; [exact K0|apply kinds_kept_remove].
    + intros k s0 _ (D0 & C0 & K0).
      destruct (read_truthy (st_heap s0) a2 k Ha2) as [v Hv].
      eapply post_bind, post_getp; [done|].
      destruct (to_boolean v); [|done].
      eapply post_setp; [apply write_store|]. split; [|split; [done|]].
      * cbn [st_heap]. apply downgraded_store; [done|]. left.
        apply downgraded_lt in D. unfold n. lia.
      * eapply kinds_kept_trans; [exact K0|apply kinds_kept_store].
  - intros _ s1 (D1 & C1 & K1). apply post_bind, post_isM.
    rewrite (downgraded_error _ _ _ D1).
    unfold post. rewrite bind_ret, bind_getp_ref, !bind_setp_ref.
    unfold ret. cbn [st_heap st_calls].
    rewrite (downgraded_code _ _ _ D1). cbn [or_else to_boolean].
    split; [done|]. split; [|split; [done|]].
    + apply downgraded_store; [|by right].
      apply downgraded_store; [done|]. right. done.
    + eapply kinds_kept_trans; [exact K1|].
      eapply kinds_kept_trans; apply kinds_kept_store.
Qed.

(** *** [callValidator] *)

Definition caught (r : val + val) : option val :=
  match r with inr schemaErr => Some schemaErr | inl _ => None end.

Definition downgrade (schemaErr : val) : M (val + val) :=
  m <- getp schemaErr "message" ;;
  ms <- to_stringM m ;;
  setp schemaErr "message" (VStr ("Validator threw exception " +:+ ms)) ;;
  setp schemaErr "code" (VStr "badSchema") ;;
  ret (inr schemaErr).

Lemma silent_downgrade schemaErr : silent (downgrade schemaErr).
Proof. unfold downgrade. repeat silent_step. Qed.

Lemma downgrade_error e msg ps s :
  st_heap s !! e = Some (Cell (KError msg) ps) ->
  exists s',
    downgrade (VRef e) s = Ok (inr (VRef e)) s' /\
    downgraded (st_heap s') e (to_string (st_heap s) msg) /\
    st_calls s' = st_calls s /\ kinds_kept (st_heap s) (st_heap s').
Proof.
  intros He. unfold downgrade.
  rewrite bind_getp_ref, bind_to_stringM, !bind_setp_ref. unfold ret.
  eexists. split; [done|]. cbn [st_heap st_calls].
  rewrite (deref_cell _ _ _ _ He). cbn [cell_get ckind String.eqb Ascii.eqb Bool.eqb].
  split; [|split; [done|]].
  - unfold store at 2. rewrite He.
    cbn [cell_set ckind cprops String.eqb Ascii.eqb Bool.eqb].
    unfold store. rewrite list_lookup_insert_eq by by eapply lookup_lt_Some.
    cbn [cell_set ckind cprops String.eqb Ascii.eqb Bool.eqb].
    unfold downgraded.
    rewrite list_lookup_insert_eq
      by (rewrite length_insert; by eapply lookup_lt_Some).
    eexists. split; [done|]. by rewrite prop_set_prop.
  - eapply kinds_kept_trans; apply kinds_kept_store.
Qed.

Lemma not_thrown_quiet f this args r h :
  (forall e msg ps, r = Thrown (VRef e) -> h !! e <> Some (Cell (KError msg) ps)) ->
  quiet [Invoke f this args r h].
Proof.
  intros Hr i e m Hi [Ht (msg & ps & He & _)].
  apply list_elem_of_singleton in Hi as ->. cbn in *. by eapply Hr.
Qed.

Lemma try_validator_guarded fn value options s :
  guarded caught s
    (try_catch
       (root <- getp options "rootValue" ;;
        err <- invoke fn root [value; options] ;;
        ret (inl err))
       downgrade s).
Proof.
  assert (forall s0 : state,
            kinds_kept (st_heap s) (st_heap s0) -> st_calls s0 = st_calls s ->
            guarded caught s
              ((e <- alloc type_error_object ;; downgrade e) s0)) as Hte.
  { intros s0 K0 C0.
    assert (silent (e <- alloc type_error_object ;; downgrade e)) as Hs
      by (silent_step; [silent_step|apply silent_downgrade]).
    specialize (Hs s0).
    destruct ((e <- alloc type_error_object ;; downgrade e) s0) as [a s1|x s1|];
      [| |done].
    - destruct Hs as [K1 C1]. split; [by eapply kinds_kept_trans|].
      exists []. rewrite app_nil_r. split; [congruence|apply all_quiet, quiet_nil].
    - destruct Hs as (X & K1 & C1). split; [done|].
      split; [by eapply kinds_kept_trans|].
      exists []. rewrite app_nil_r. split; [congruence|apply quiet_nil]. }
  unfold try_catch, bind at 1, getp.
  destruct (read (st_heap s) options "rootValue") as [root|];
    [|apply Hte; [apply kinds_kept_refl|done]].
  unfold bind, invoke, ret.
  destruct fn as [| | | | |l]; try (apply Hte; [apply kinds_kept_refl|done]).
  destruct (st_heap s !! l) as [[[|es|f|m0] fps]|];
    try (apply Hte; [apply kinds_kept_refl|done]).
  pose proof (call_kinds f (st_heap s) root [value; options]) as K.
  destruct (call f (st_heap s) root [value; options]) as [h' r]. cbn [fst] in K.
  destruct r as [v|v].
  - (* the validator returned *)
    split; [done|]. eexists. split; [done|].
    apply all_quiet, not_thrown_quiet. done.
  - (* the validator threw [v] *)
    set (i := Invoke f root [value; options] (Thrown v) h').
    set (s1 := State h' (st_calls s ++ [i])).
    assert (quiet [i] -> guarded caught s (downgrade v s1)) as Hq.
    { intros Q. pose proof (silent_downgrade v s1) as Hs.
      destruct (downgrade v s1) as [a s2|x s2|]; [| |done].
      - destruct Hs as [K2 C2]. split; [by eapply kinds_kept_trans|].
        exists [i]. split; [done|by apply all_quiet].
      - destruct Hs as (X & K2 & C2). split; [done|].
        split; [by eapply kinds_kept_trans|]. by exists [i]. }
    destruct v as [| | | | |e];
      try solve [apply Hq, not_thrown_quiet; intros ? ? ? [=]].
    destruct (h' !! e) as [[[|es|f'|msg] ps]|] eqn:He;
      try solve [apply Hq, not_thrown_quiet; intros ? ? ? [= <-]; congruence].
    destruct (downgrade_error e msg ps s1 He) as (s2 & -> & D & C2 & K2).
    split; [by eapply kinds_kept_trans|].
    exists [i]. split; [done|].
    eapply converted with (new0 := []) (i := i); try done.
    + apply quiet_nil.
    + split; [done|]. by exists msg, ps.
Qed.

Lemma callValidator_guarded fn value options s :
  guarded Some s (callValidator fn value options s).
Proof.
  unfold callValidator. eapply guarded_bind.
  - apply try_validator_guarded.
  - intros [err|schemaErr] s1 _ _; apply guarded_silent; repeat silent_step.
  - intros [err|schemaErr] s1 e msg _ [= ->] D.
    exists (VRef e), s1. repeat split; try done. apply kinds_kept_refl.
Qed.

(** The caller's reaction to what [callValidator] returned. *)
Lemma reject_hands_on e m value a0 a1 a2 s :
  downgraded (st_heap s) e m ->
  hands_on Some e m s
    ((if to_boolean (VRef e)
      then c <- getp (VRef e) "code" ;; fail c (VRef e) a0 a1 a2
      else ret value) s).
Proof.
  intros D. cbn [to_boolean]. rewrite bind_getp_ref, (downgraded_code _ _ _ D).
  by apply fail_hands_on.
Qed.

Lemma checkScalar_guarded value schema options s :
  guarded Some s (checkScalar value schema options s).
Proof.
  unfold checkScalar.
  apply guarded_bind_silent; [silent_step|]. intros so s1 _ _.
  apply guarded_bind_silent; [silent_step|]. intros tv s2 _ _.
  destruct (_ || _); [apply guarded_silent, silent_ret|].
  apply guarded_bind_silent; [silent_step|]. intros sv s3 _ _.
  apply guarded_bind_silent; [silent_step|]. intros tsv s4 _ _.
  destruct tsv;
    try solve [apply guarded_silent; repeat (silent_step || apply silent_fail)].
  eapply guarded_bind.
  - apply callValidator_guarded.
  - intros err s5 _ _. apply guarded_silent. repeat (silent_step || apply silent_fail).
  - intros err s5 e msg _ [= ->] D. by apply reject_hands_on.
Qed.

(** *** The recursion *)

Lemma hands_on_ret {B} (f : B -> option val) e m b s :
  f b = Some (VRef e) -> downgraded (st_heap s) e m -> hands_on f e m s (ret b s).
Proof. intros Hb D. exists b, s. repeat split; try done. apply kinds_kept_refl. Qed.

Lemma guarded_for_in (P : state -> Prop) ks body s :
  (forall s1 s2, P s1 -> kinds_kept (st_heap s1) (st_heap s2) -> P s2) ->
  (forall k s1, P s1 -> guarded id s1 (body k s1)) ->
  P s -> guarded id s (for_in ks body s).
Proof.
  intros HP Hb. revert s. induction ks as [|k ks IH]; intros s Hs.
  - apply guarded_silent, silent_ret.
  - cbn [for_in]. eapply guarded_bind.
    + by apply Hb.
    + intros [a|] s1 _ K1; [apply guarded_silent, silent_ret|].
      apply IH. by eapply HP.
    + intros r s1 e msg _ Hr D. cbn in Hr. subst r. by apply hands_on_ret.
Qed.

Lemma guarded_or_continue {A} (f : A -> option val) (m : M (option A)) (k : M A) s :
  guarded (fun r => match r with Some a => f a | None => None end) s (m s) ->
  (forall s1, kinds_kept (st_heap s) (st_heap s1) -> guarded f s1 (k s1)) ->
  guarded f s (or_continue m k s).
Proof.
  intros Hm Hk. unfold or_continue. eapply guarded_bind; [exact Hm|..].
  - intros [a|] s1 _ K1; [apply guarded_silent, silent_ret|by apply Hk].
  - intros [a|] s1 e msg _ Hr D; [|done]. by apply hands_on_ret.
Qed.

Lemma silent_or_continue_guarded {A} (f : A -> option val)
    (m : M (option A)) (k : M A) s :
  silent m ->
  (forall s1, kinds_kept (st_heap s) (st_heap s1) -> guarded f s1 (k s1)) ->
  guarded f s (or_continue m k s).
Proof.
  intros Hm Hk. unfold or_continue. apply guarded_bind_silent; [done|].
  intros [a|] s1 _ K1; [apply guarded_silent, silent_ret|by apply Hk].
Qed.

Lemma deref_store_object h l c k x :
  h !! l = Some c -> ckind c = KObject -> deref (store h l k x) l k = x.
Proof.
  intros Hc Hk. unfold store, deref. rewrite Hc.
  rewrite list_lookup_insert_eq by by eapply lookup_lt_Some.
  unfold cell_set, cell_get. rewrite Hk. cbn [ckind cprops].
  by rewrite prop_set_prop, String.eqb_refl.
Qed.

Section Recursion.
Variable rec : val -> val -> val -> M val.
Hypothesis rec_guarded : forall v f o s, guarded Some s (rec v f o s).

Lemma checkProperty_guarded value fields options key s :
  tipe_is TObject (st_heap s) value = true ->
  guarded id s (checkProperty rec value fields options key s).
Proof.
  intros Hv. unfold checkProperty.
  apply guarded_bind_silent; [silent_step|]. intros f s1 _ K1.
  apply guarded_bind_silent; [silent_step|]. intros fo s2 _ K2.
  destruct fo; [|apply guarded_silent, silent_ret].
  apply guarded_bind_silent; [silent_step|]. intros [] s3 _ K3.
  apply guarded_bind_silent; [silent_step|]. intros v s4 _ K4.
  apply guarded_bind_silent; [silent_step|]. intros f' s5 _ K5.
  assert (kinds_kept (st_heap s) (st_heap s5)) as K
    by eauto using kinds_kept_trans.
  eapply guarded_bind; [apply rec_guarded|..].
  - intros r s6 _ _. apply guarded_silent. repeat silent_step.
  - intros r s6 e msg Hrun [= ->] D.
    pose proof (rec_guarded v f' options s5) as G. rewrite Hrun in G.
    destruct G as [K6 _].
    assert (tipe_is TObject (st_heap s6) value = true) as Hv6.
    { eapply tipe_is_kept; [|done|exact Hv]. by eapply kinds_kept_trans. }
    destruct (classify_object _ _ Hv6) as (lv & c & -> & Hc & Hk).
    assert (lv <> e) as Hne.
    { intros ->. destruct D as (ps & He & _). rewrite He in Hc.
      injection Hc as <-. done. }
    rewrite bind_setp_ref, bind_getp_ref. cbn [st_heap st_calls].
    rewrite (deref_store_object _ _ _ _ _ Hc Hk), bind_isM. cbn [st_heap].
    assert (downgraded (store (st_heap s6) lv key (VRef e)) e msg) as D'
      by (apply downgraded_store; [done|by left]).
    rewrite (downgraded_error _ _ _ D').
    eexists _, _. split; [done|]. split; [done|]. split; [exact D'|].
    split; [done|]. apply kinds_kept_store.
Qed.

Lemma checkProperties_guarded value fields options s :
  tipe_is TObject (st_heap s) value = true ->
  guarded id s (checkProperties rec value fields options s).
Proof.
  intros Hv. unfold checkProperties.
  apply guarded_bind_silent; [silent_step|]. intros ks s1 [= <- <-] _.
  apply guarded_for_in
    with (P := fun s1 => tipe_is TObject (st_heap s1) value = true); [| |done].
  - intros s1 s2 H1 K. by eapply tipe_is_kept.
  - intros k s1 H1. by apply checkProperty_guarded.
Qed.

Lemma checkobject_guarded value schema options s :
  tipe_is TObject (st_heap s) value = true ->
  guarded Some s (checkobject rec value schema options s).
Proof.
  intros Hv. unfold checkobject.
  apply guarded_bind_silent; [silent_step|]. intros so s1 _ K1.
  destruct (negb so); [apply guarded_silent, silent_ret|].
  apply guarded_bind_silent; [silent_step|]. intros ty s2 _ K2.
  apply guarded_bind_silent; [silent_step|]. intros sv s3 _ K3.
  apply guarded_bind_silent; [silent_step|]. intros svo s4 _ K4.
  apply guarded_bind_silent; [silent_step|]. intros strict s5 _ K5.
  apply silent_or_continue_guarded;
    [destruct (to_boolean strict); [apply silent_checkStrict|apply silent_ret]|].
  intros s6 K6.
  apply guarded_bind_silent; [silent_step|]. intros ignoreDefaults s7 _ K7.
  apply silent_or_continue_guarded;
    [destruct (negb _); [apply silent_setDefaults|apply silent_ret]|].
  intros s8 K8.
  apply guarded_bind_silent; [silent_step|]. intros ignoreRequired s9 _ K9.
  apply silent_or_continue_guarded;
    [destruct (negb _); [apply silent_checkRequired|apply silent_ret]|].
  intros s10 K10.
  apply guarded_or_continue.
  - assert (tipe_is TObject (st_heap s10) value = true) as Hv10.
    { eapply tipe_is_kept; [|done|exact Hv]. eauto 12 using kinds_kept_trans. }
    pose proof (checkProperties_guarded value
                  (if strict_equal (VStr "object") ty && svo then sv else schema)
                  options s10 Hv10) as G.
    destruct (checkProperties _ _ _ _ s10) as [[a|] s11|x s11|]; [| |done..].
    + destruct G as (K11 & new & C & V). split; [done|]. exists new. split; [done|].
      destruct V as [Q|new0 i e msg -> Q0 Ti Ha D]; [by apply all_quiet|].
      by eapply converted.
    + destruct G as (K11 & new & C & V). split; [done|]. exists new. split; [done|].
      destruct V as [Q|new0 i e msg -> Q0 Ti Ha D]; [by apply all_quiet|done].
  - intros s11 _. apply guarded_silent, silent_ret.
Qed.

Lemma checkElement_guarded value schema options i s :
  guarded Some s (checkElement rec value schema options i s).
Proof.
  unfold checkElement.
  apply guarded_bind_silent; [silent_step|]. intros [] s1 _ _.
  apply guarded_bind_silent; [silent_step|]. intros x s2 _ _.
  apply guarded_bind_silent; [silent_step|]. intros sv s3 _ _.
  apply rec_guarded.
Qed.

Lemma checkElements_guarded value schema options i s :
  guarded id s (checkElements rec value schema options i s).
Proof.
  revert s. induction i as [|j IH]; intros s; cbn [checkElements].
  - apply guarded_silent, silent_ret.
  - eapply guarded_bind; [apply checkElement_guarded|..].
    + intros elm s1 _ _. apply guarded_bind_silent; [silent_step|].
      intros e s2 [= <- <-] _.
      destruct (tipe_is _ _ _); [apply guarded_silent, silent_ret|apply IH].
    + intros elm s1 e msg _ [= ->] D.
      rewrite bind_isM, (downgraded_error _ _ _ D). by apply hands_on_ret.
Qed.

Lemma checkArray_guarded value schema options s :
  guarded Some s (checkArray rec value schema options s).
Proof.
  unfold checkArray.
  apply guarded_bind_silent; [silent_step|]. intros so s1 _ _.
  destruct (negb so); [apply guarded_silent, silent_ret|].
  apply guarded_bind_silent; [silent_step|]. intros sv s2 _ _.
  apply guarded_bind_silent; [silent_step|]. intros svo s3 _ _.
  destruct svo; [|apply guarded_silent, silent_ret].
  apply guarded_bind_silent; [silent_step|]. intros n s4 _ _.
  apply guarded_or_continue.
  - pose proof (checkElements_guarded value schema options n s4) as G.
    destruct (checkElements _ _ _ _ _ s4) as [[a|] s5|x s5|]; [| |done..].
    + destruct G as (K & new & C & V). split; [done|]. exists new. split; [done|].
      destruct V as [Q|new0 i e msg -> Q0 Ti Ha D]; [by apply all_quiet|].
      by eapply converted.
    + destruct G as (K & new & C & V). split; [done|]. exists new. split; [done|].
      destruct V as [Q|new0 i e msg -> Q0 Ti Ha D]; [by apply all_quiet|done].
  - intros s5 _. apply guarded_silent, silent_ret.
Qed.

End Recursion.

Lemma coerceType_primitive value schema options s v s' :
  primitive value -> coerceType value schema options s = Ok v s' -> primitive v.
Proof.
  intros Hv. unfold coerceType, bind, getp, ret.
  destruct (read _ options _) as [dnc|]; [|done].
  destruct (to_boolean dnc); [by intros [= <- _]|].
  destruct value as [| | | |str|l]; try by intros [= <- _].
  destruct (read _ schema _) as [ty|]; [|done].
  destruct (strict_equal ty (VStr "number"));
    [intros [= <- _]; apply coerceNumber_primitive|].
  destruct (strict_equal ty (VStr "boolean")); by intros [= <- _].
Qed.

(** One level of [_chk]: a value that is no object reaches no deeper one. *)
Lemma _chk_S_guarded fuel value schema parentOptions s :
  primitive value \/ (forall v f o s0, guarded Some s0 (_chk fuel v f o s0)) ->
  guarded Some s (_chk (S fuel) value schema parentOptions s).
Proof.
  intros Hrec. cbn [_chk].
  apply guarded_bind_silent; [silent_step|]. intros so s1 _ _.
  destruct (negb so); [apply guarded_silent, silent_ret|].
  apply guarded_bind_silent; [apply silent_override|]. intros options s2 _ _.
  apply guarded_bind_silent; [silent_step|]. intros lg s3 _ _.
  apply guarded_bind_silent;
    [destruct (to_boolean lg); [apply silent_log|apply silent_ret]|].
  intros [] s4 _ _.
  apply guarded_bind_silent; [silent_step|]. intros ignoreRequired s5 _ _.
  apply guarded_bind_silent; [silent_step|]. intros required s6 _ _.
  apply guarded_bind_silent; [silent_step|]. intros tv s7 _ _.
  destruct (_ && _);
    [apply guarded_silent; repeat (silent_step || apply silent_fail)|].
  apply guarded_bind_silent; [apply silent_coerceType|]. intros value' s8 Hco _.
  apply guarded_bind_silent; [silent_step|]. intros tv' s9 [= <- <-] _.
  apply guarded_bind_silent; [silent_step|]. intros ty s10 _ K10.
  apply guarded_bind_silent; [silent_step|]. intros tty s11 _ K11.
  destruct (_ && _); [apply guarded_silent, silent_fail|].
  assert (classify (st_heap s8) value' = TObject \/
          classify (st_heap s8) value' = TArray ->
          forall v f o s0, guarded Some s0 (_chk fuel v f o s0)) as Hdeep.
  { intros Hcl. destruct Hrec as [Hp|Hr]; [exfalso|done].
    pose proof (coerceType_primitive _ _ _ _ _ _ Hp Hco) as Hp'.
    rewrite (classify_primitive _ _ Hp') in Hcl.
    destruct value' as [| | | | |l]; cbn in Hcl; try by destruct Hcl. }
  eapply guarded_bind with (fa := Some).
  - destruct (classify (st_heap s8) value') eqn:Htv;
      try apply checkScalar_guarded.
    + apply checkobject_guarded; [by apply Hdeep; left|].
      eapply tipe_is_kept; [eapply kinds_kept_trans; [exact K10|exact K11]|done|].
      unfold tipe_is. by rewrite Htv.
    + apply checkArray_guarded. by apply Hdeep; right.
  - intros value'' s12 _ _.
    apply guarded_bind_silent; [silent_step|]. intros e s13 _ _.
    destruct e; [apply guarded_silent, silent_ret|].
    apply guarded_bind_silent; [silent_step|]. intros validate s14 _ _.
    apply guarded_bind_silent; [silent_step|]. intros vf s15 _ _.
    destruct vf; [|apply guarded_silent, silent_ret].
    eapply guarded_bind; [apply callValidator_guarded|..].
    + intros err s16 _ _. apply guarded_silent.
      repeat (silent_step || apply silent_fail).
    + intros err s16 e msg _ [= ->] D. by apply reject_hands_on.
  - intros value'' s12 e msg _ [= ->] D.
    rewrite bind_isM, (downgraded_error _ _ _ D). by apply hands_on_ret.
Qed.

Lemma _chk_guarded fuel value schema parentOptions s :
  F -> guarded Some s (_chk fuel value schema parentOptions s).
Proof.
  intros HF. revert value schema parentOptions s.
  induction fuel as [|fuel IH]; intros value schema parentOptions s.
  { split; [done|]. exists []. rewrite app_nil_r. split; [done|apply quiet_nil]. }
  apply _chk_S_guarded. by right.
Qed.

Lemma chk_with guarded_chk fuel value schema userOptions s :
  (forall options s0, guarded Some s0 (guarded_chk options s0)) ->
  (forall options, guarded_chk options = _chk fuel value schema options) ->
  guarded Some s (chk fuel value schema userOptions s).
Proof.
  intros G E. unfold chk.
  apply guarded_bind_silent; [silent_step|]. intros so s1 _ _.
  destruct (negb so); [apply guarded_silent, silent_fail|].
  apply guarded_bind_silent; [silent_step|]. intros o1 s2 _ _.
  apply guarded_bind_silent; [apply silent_override|]. intros options s3 _ _.
  apply guarded_bind_silent; [silent_step|]. intros [] s4 _ _.
  apply guarded_bind_silent; [silent_step|]. intros [] s5 _ _.
  eapply guarded_bind; [rewrite <- E; apply G|..].
  - intros err s6 _ _. apply guarded_silent. repeat silent_step.
  - intros err s6 e msg _ [= ->] D.
    rewrite bind_isM, (downgraded_error _ _ _ D). by apply hands_on_ret.
Qed.

Lemma chk_guarded fuel value schema userOptions s :
  F -> guarded Some s (chk fuel value schema userOptions s).
Proof.
  intros HF. apply chk_with with (guarded_chk := _chk fuel value schema); [|done].
  intros options s0. by apply _chk_guarded.
Qed.

Lemma chk_scalar_guarded fuel value schema userOptions s :
  primitive value -> guarded Some s (chk (S fuel) value schema userOptions s).
Proof.
  intros Hp. apply chk_with with (guarded_chk := _chk (S fuel) value schema); [|done].
  intros options s0. apply _chk_S_guarded. by left.
Qed.

End Guarded.

(** ** The runtime of the examples is lawful *)

Lemma kinds_kept_app h ext : kinds_kept h (h ++ ext).
Proof.
  intros l c Hc. exists c. split; [|apply same_kind_refl].
  by apply lookup_app_l_Some.
Qed.

Lemma fold_left_none {X O} (g : option O -> X -> option O) xs :
  (forall x, g None x = None) -> fold_left g xs None = None.
Proof. intros Hg. induction xs as [|x xs IH]; [done|]. cbn. by rewrite Hg. Qed.

Lemma fold_left_extends {X O}
    (g : option (heap * O) -> X -> option (heap * O)) xs :
  (forall x, g None x = None) ->
  (forall h o x h' o', g (Some (h, o)) x = Some (h', o') -> exists ext, h' = h ++ ext) ->
  forall h o h' o',
    fold_left g xs (Some (h, o)) = Some (h', o') -> exists ext, h' = h ++ ext.
Proof.
  intros Hn Hg. induction xs as [|x xs IH]; intros h o h' o'; cbn.
  - intros [= <- <-]. exists []. by rewrite app_nil_r.
  - destruct (g (Some (h, o)) x) as [[h1 o1]|] eqn:E.
    + intros Hf. destruct (Hg _ _ _ _ _ E) as [ext1 ->].
      destruct (IH _ _ _ _ Hf) as [ext2 ->].
      exists (ext1 ++ ext2). by rewrite app_assoc.
    + by rewrite fold_left_none.
Qed.

Lemma json_value_extends fuel h v h' y :
  Sample.json_value fuel h v = Some (h', y) -> exists ext, h' = h ++ ext.
Proof.
  revert h v h' y. induction fuel as [|fuel IH]; intros h v h' y.
  - destruct v; cbn; try done; intros [= <- _]; exists []; by rewrite app_nil_r.
  - destruct v as [| | | | |l]; cbn [Sample.json_value];
      try (intros [= <- _]; exists []; by rewrite app_nil_r).
    destruct (h !! l) as [[[|es|f|msg] ps]|];
      try (intros [= <- _]; exists []; by rewrite app_nil_r).
    + destruct (fold_left _ ps _) as [[h1 out]|] eqn:E; [|done].
      intros [= <- _]. apply fold_left_extends in E as [ext ->].
      * exists (ext ++ [Cell KObject out]). by rewrite app_assoc.
      * done.
      * intros h0 o x h2 o2.
        destruct (Sample.json_value fuel h0 x.2) as [[h3 z]|] eqn:Ez; [|done].
        apply IH in Ez. by destruct z; intros [= <- _].
    + destruct (fold_left _ es _) as [[h1 out]|] eqn:E; [|done].
      intros [= <- _]. apply fold_left_extends in E as [ext ->].
      * exists (ext ++ [Cell (KArray out) []]). by rewrite app_assoc.
      * done.
      * intros h0 o x h2 o2.
        destruct (Sample.json_value fuel h0 x) as [[h3 z]|] eqn:Ez; [|done].
        apply IH in Ez. by destruct z; intros [= <- _].
    + destruct (fold_left _ ps _) as [[h1 out]|] eqn:E; [|done].
      intros [= <- _]. apply fold_left_extends in E as [ext ->].
      * exists (ext ++ [Cell KObject out]). by rewrite app_assoc.
      * done.
      * intros h0 o x h2 o2.
        destruct (Sample.json_value fuel h0 x.2) as [[h3 z]|] eqn:Ez; [|done].
        apply IH in Ez. by destruct z; intros [= <- _].
Qed.

Lemma sample_lawful : Lawful Sample.runtime.
Proof.
  split.
  - intros f h this args. cbn [call Sample.runtime].
    do 6 (destruct f as [|f]; cbn;
          try apply kinds_kept_refl; try apply kinds_kept_alloc).
    destruct args as [|? [|options [|]]]; cbn; try apply kinds_kept_refl.
    destruct (read h options "doNotCoerce") as [[| |[]| | |]|];
      apply kinds_kept_refl.
  - intros h v. cbn [JSON_roundtrip Sample.runtime].
    unfold Sample.sample_JSON_roundtrip.
    destruct (Sample.json_value _ h v) as [[h' y]|] eqn:E;
      [|apply kinds_kept_alloc].
    apply json_value_extends in E as [ext ->].
    destruct y; cbn [fst]; try apply kinds_kept_app.
    rewrite <- app_assoc. apply kinds_kept_app.
Qed.

(** ** An object or an array of scalars needs two levels of the checker

    The recursion of [_chk] follows the nesting of the value.  A value
    whose fields, or elements, are no objects and no arrays is checked in
    two levels, whatever the validators do, as long as they leave the value
    itself alone and no default brings an object in. *)

(** A value that is neither an object nor an array. *)
Definition leaf (h : heap) (x : val) : Prop :=
  forall l, x = VRef l ->
    exists c, h !! l = Some c /\ ckind c <> KObject /\ forall es, ckind c <> KArray es.

Lemma leaf_primitive h x : primitive x -> leaf h x.
Proof. intros Hp l ->. by destruct (Hp l). Qed.

Lemma leaf_kept h h' x : kinds_kept h h' -> leaf h x -> leaf h' x.
Proof.
  intros K Hx l ->. destruct (Hx l eq_refl) as (c & Hc & Ho & Ha).
  destruct (K l c Hc) as (c' & Hc' & Hk). exists c'. split; [done|].
  destruct (ckind c) eqn:E, (ckind c') eqn:E'; try done.
  by destruct (Ha elems).
Qed.

Lemma leaf_classify h x :
  leaf h x -> classify h x <> TObject /\ classify h x <> TArray.
Proof.
  intros Hx. destruct x as [| | | | |l]; try done.
  destruct (Hx l eq_refl) as (c & Hc & Ho & Ha). cbn. rewrite Hc.
  destruct (ckind c) eqn:E; try done. by destruct (Ha elems).
Qed.

Lemma leaf_error h x : tipe_is TError h x = true -> leaf h x.
Proof.
  unfold tipe_is. intros Hx l ->. cbn in Hx.
  destruct (h !! l) as [c|]; [|done]. exists c. split; [done|].
  by destruct (ckind c).
Qed.

Lemma leaf_new_error h m ps : leaf (h ++ [Cell (KError m) ps]) (VRef (length h)).
Proof.
  intros l [= <-]. eexists. split; [apply lookup_alloc_new|]. done.
Qed.

(** What a property read off a cell, changed or not, can be. *)
Lemma cell_get_cell_set c k x k' :
  cell_get (cell_set c k x) k' = x \/ cell_get (cell_set c k x) k' = cell_get c k'.
Proof.
  destruct c as [kd ps]. unfold cell_get, cell_set. cbn [ckind cprops].
  destruct kd as [|es|f|m]; cbn [ckind cprops].
  - rewrite prop_set_prop. destruct (String.eqb k' k); [by left|by right].
  - destruct (key_index k' (length es)); [by right|].
    destruct (String.eqb k' "length"); [by right|].
    rewrite prop_set_prop. destruct (String.eqb k' k); [by left|by right].
  - rewrite prop_set_prop. destruct (String.eqb k' k); [by left|by right].
  - destruct (String.eqb k "message") eqn:Ek; cbn [ckind cprops].
    + destruct (String.eqb k' "message"); [by left|by right].
    + destruct (String.eqb k' "message"); [by right|].
      rewrite prop_set_prop. destruct (String.eqb k' k); [by left|by right].
Qed.

(** A property other than the one that is set stays. *)
Lemma cell_get_cell_set_ne c k x k' :
  k' <> k -> k' <> "message" -> cell_get (cell_set c k x) k' = cell_get c k'.
Proof.
  intros Hne Hm.
  assert (String.eqb k' k = false) as Ek by by apply String.eqb_neq.
  assert (String.eqb k' "message" = false) as Em by by apply String.eqb_neq.
  destruct c as [kd ps]. unfold cell_get, cell_set. cbn [ckind cprops].
  destruct kd as [|es|f|m]; cbn [ckind cprops]; rewrite ?prop_set_prop, ?Ek; try done.
  destruct (String.eqb k "message"); cbn [ckind cprops];
    by rewrite ?Em, ?prop_set_prop, ?Ek.
Qed.

Lemma prop_del_prop_same k ps : prop k (del_prop k ps) = VUndef.
Proof.
  unfold prop. induction ps as [|[k0 v0] ps IH]; [done|]. cbn.
  destruct (String.eqb k k0) eqn:E; [done|]. cbn. by rewrite E.
Qed.

Lemma cell_get_cell_delete c k k' :
  cell_get (cell_delete c k) k' = VUndef
  \/ cell_get (cell_delete c k) k' = cell_get c k'.
Proof.
  assert (prop k' (del_prop k (cprops c)) = VUndef
          \/ prop k' (del_prop k (cprops c)) = prop k' (cprops c)) as Hp.
  { destruct (decide (k' = k)) as [->|Hne].
    - left. apply prop_del_prop_same.
    - right. by apply prop_del_prop. }
  unfold cell_get, cell_delete. cbn [ckind cprops].
  destruct (ckind c); try done.
  - destruct (key_index k' (length elems)); [by right|].
    destruct (String.eqb k' "length"); [by right|done].
  - destruct (String.eqb k' "message"); [by right|done].
Qed.

Section Shallow.
Context `{L : Lawful}.
Import Part000.

(** The value that is checked. *)
Variable lv : nat.

(** No validator writes to it. *)
Hypothesis validators_apart :
  forall f h this args,
    lv < length h -> fst (call f h this args) !! lv = h !! lv.

(** It is an object or an array, and holds no object and no array. *)
Definition flat (h : heap) : Prop :=
  exists c, h !! lv = Some c /\
    (ckind c = KObject \/ exists es, ckind c = KArray es) /\
    forall k, leaf h (cell_get c k).

(** No object of the store has an object or an array for its default. *)
Definition plain (h : heap) : Prop :=
  forall l c, h !! l = Some c -> leaf h (cell_get c "default").

Lemma flat_lt h : flat h -> lv < length h.
Proof. intros (c & Hc & _). by eapply lookup_lt_Some. Qed.

Lemma flat_kept h h' :
  kinds_kept h h' -> h' !! lv = h !! lv -> flat h -> flat h'.
Proof.
  intros K E (c & Hc & Hk & Hl). exists c. split; [by rewrite E|].
  split; [done|]. intros k. by eapply leaf_kept.
Qed.

Lemma flat_alloc h c : flat h -> flat (h ++ [c]).
Proof.
  intros Hf. eapply flat_kept; [apply kinds_kept_alloc| |done].
  apply lookup_alloc_old. by apply flat_lt.
Qed.

Lemma flat_stored h l k x :
  flat h -> l <> lv \/ leaf h x -> flat (store h l k x).
Proof.
  intros Hf Hx. pose proof (kinds_kept_store h l k x) as K.
  destruct (decide (l = lv)) as [->|Hne].
  - destruct Hx as [?|Hx]; [done|].
    destruct Hf as (c & Hc & Hk & Hl).
    exists (cell_set c k x). split; [|split].
    + unfold store. rewrite Hc. apply list_lookup_insert_eq. by eapply lookup_lt_Some.
    + pose proof (same_kind_cell_set c k x) as Hs.
      destruct Hk as [Hk|[es Hk]]; rewrite Hk in Hs;
        destruct (ckind (cell_set c k x)); try done; eauto.
    + intros k'. eapply leaf_kept; [exact K|].
      by destruct (cell_get_cell_set c k x k') as [-> | ->].
  - eapply flat_kept; [exact K| |done].
    unfold store. destruct (h !! l); [|done]. by rewrite list_lookup_insert_ne.
Qed.

Lemma flat_write h v k x h' :
  flat h -> write h v k x = Some h' -> v <> VRef lv \/ leaf h x -> flat h'.
Proof.
  intros Hf Hw Hx. destruct v as [| | | | |l]; try done; try by injection Hw as <-.
  assert (h' = store h l k x) as -> by (cbn in Hw; by injection Hw as <-).
  apply flat_stored; [done|]. destruct Hx as [Hx|Hx]; [left; congruence|by right].
Qed.

Lemma flat_remove h v k : flat h -> flat (remove h v k).
Proof.
  intros Hf. pose proof (kinds_kept_remove h v k) as K.
  destruct v as [| | | | |l]; try done.
  destruct (decide (l = lv)) as [->|Hne].
  - destruct Hf as (c & Hc & Hk & Hl). cbn [remove] in *. rewrite Hc in *.
    exists (cell_delete c k). split; [|split; [done|]].
    + apply list_lookup_insert_eq. by eapply lookup_lt_Some.
    + intros k'. eapply leaf_kept; [exact K|].
      destruct (cell_get_cell_delete c k k') as [-> | ->]; [by intros l|done].
  - eapply flat_kept; [exact K| |done].
    cbn [remove]. destruct (h !! l); [|done]. by rewrite list_lookup_insert_ne.
Qed.

Lemma flat_call h f this args : flat h -> flat (fst (call f h this args)).
Proof.
  intros Hf. eapply flat_kept; [apply call_kinds| |done].
  apply validators_apart. by apply flat_lt.
Qed.

Lemma flat_not_error h x :
  flat h -> tipe_is TError h x = true -> x <> VRef lv.
Proof.
  intros (c & Hc & Hk & _) Hx ->. unfold tipe_is in Hx. cbn in Hx.
  rewrite Hc in Hx. destruct Hk as [Hk|[es Hk]]; by rewrite Hk in Hx.
Qed.

Lemma flat_read h k x : flat h -> read h (VRef lv) k = Some x -> leaf h x.
Proof.
  intros (c & Hc & _ & Hl). cbn. rewrite Hc. intros [= <-]. apply Hl.
Qed.

(** What is read off a value other than an object is a scalar. *)
Lemma read_leaf h v k x :
  (forall l c, v = VRef l -> h !! l = Some c -> leaf h (cell_get c k)) ->
  read h v k = Some x -> leaf h x.
Proof.
  intros Hv. destruct v as [| | | |str|l]; cbn; try done.
  - intros [= <-]. by intros l.
  - intros [= <-]. by intros l.
  - intros [= <-]. apply leaf_primitive.
    destruct (key_index k (String.length str)); [|by destruct (String.eqb _ _)].
    unfold char_at. by destruct (String.get _ _).
  - destruct (h !! l) as [c|] eqn:Hc; intros [= <-]; [by eapply Hv|by intros l'].
Qed.

Lemma plain_alloc h c :
  plain h -> leaf h (cell_get c "default") -> plain (h ++ [c]).
Proof.
  intros Hp Hc l c' Hl.
  eapply leaf_kept; [apply kinds_kept_alloc|].
  destruct (decide (l = length h)) as [->|Hne].
  - rewrite lookup_alloc_new in Hl. by injection Hl as <-.
  - apply (Hp l). rewrite lookup_alloc_old in Hl; [done|].
    apply lookup_lt_Some in Hl. rewrite length_app in Hl. cbn in Hl. lia.
Qed.

Lemma plain_store h l k x :
  plain h -> k <> "default" \/ leaf h x -> plain (store h l k x).
Proof.
  intros Hp Hx l' c' Hl'. eapply leaf_kept; [apply kinds_kept_store|].
  unfold store in Hl'. destruct (h !! l) as [c|] eqn:Hc; [|by apply (Hp l')].
  destruct (decide (l' = l)) as [->|Hne].
  - rewrite list_lookup_insert_eq in Hl' by by eapply lookup_lt_Some.
    injection Hl' as <-.
    destruct (cell_get_cell_set c k x "default") as [E|E]; rewrite E.
    + destruct Hx as [Hk|Hx]; [|done]. rewrite <- E.
      rewrite cell_get_cell_set_ne by done. by apply (Hp l).
    + by apply (Hp l).
  - rewrite list_lookup_insert_ne in Hl' by done. by apply (Hp l').
Qed.

Lemma plain_write h v k x h' :
  plain h -> write h v k x = Some h' -> k <> "default" \/ leaf h x -> plain h'.
Proof.
  intros Hf Hw Hx. destruct v as [| | | | |l]; try done; try by injection Hw as <-.
  assert (h' = store h l k x) as -> by (cbn in Hw; by injection Hw as <-).
  by apply plain_store.
Qed.

Lemma plain_remove h v k : plain h -> plain (remove h v k).
Proof.
  intros Hp l' c' Hl'. eapply leaf_kept; [apply kinds_kept_remove|].
  destruct v as [| | | | |l]; try by apply (Hp l').
  cbn [remove] in Hl'. destruct (h !! l) as [c|] eqn:Hc; [|by apply (Hp l')].
  destruct (decide (l' = l)) as [->|Hne].
  - rewrite list_lookup_insert_eq in Hl' by by eapply lookup_lt_Some.
    injection Hl' as <-.
    destruct (cell_get_cell_delete c k "default") as [-> | ->];
      [by intros l'|by apply (Hp l)].
  - rewrite list_lookup_insert_ne in Hl' by done. by apply (Hp l').
Qed.

Lemma plain_read h v x : plain h -> read h v "default" = Some x -> leaf h x.
Proof. intros Hp. apply read_leaf. intros l c -> Hc. by apply (Hp l). Qed.

(** The invariant of a check in two levels; until the defaults are set
    ([b] is [true]) it includes that no default is an object. *)
Definition inv (b : bool) (h : heap) : Prop := flat h /\ (b = true -> plain h).

(** [m] ends, and keeps the invariant. *)
Definition sh (b : bool) {A} (m : M A) (s : state) (Q : A -> heap -> Prop) : Prop :=
  post m s
    (fun a s' =>
       kinds_kept (st_heap s) (st_heap s') /\ inv b (st_heap s') /\ Q a (st_heap s'))
    (fun _ _ => True) False.

Lemma inv_weaken b h : inv b h -> inv false h.
Proof. intros [Hf _]. by split. Qed.

Lemma sh_ret b {A} (a : A) s (Q : A -> heap -> Prop) :
  inv b (st_heap s) -> Q a (st_heap s) -> sh b (ret a) s Q.
Proof. intros HI HQ. split; [apply kinds_kept_refl|done]. Qed.

Lemma sh_bind b b' {A B} (m : M A) (k : A -> M B) s
    (Q1 : A -> heap -> Prop) (Q2 : B -> heap -> Prop) :
  sh b m s Q1 ->
  (forall a s1, kinds_kept (st_heap s) (st_heap s1) -> inv b (st_heap s1) ->
                Q1 a (st_heap s1) -> sh b' (k a) s1 Q2) ->
  sh b' (bind m k) s Q2.
Proof.
  unfold sh, post, bind. intros Hm Hk. destruct (m s) as [a s1|x s1|s1]; [|done..].
  destruct Hm as (K1 & I1 & HQ1). specialize (Hk a s1 K1 I1 HQ1).
  destruct (k a s1) as [c s2|x s2|s2]; [|done..].
  destruct Hk as (K2 & I2 & HQ2). split; [by eapply kinds_kept_trans|done].
Qed.

Lemma sh_mono b {A} (m : M A) s (Q Q' : A -> heap -> Prop) :
  sh b m s Q -> (forall a h, kinds_kept (st_heap s) h -> Q a h -> Q' a h) ->
  sh b m s Q'.
Proof.
  unfold sh, post. destruct (m s) as [a s1|x s1|s1]; [|done..].
  intros (K & I & HQ) HQ'. split; [done|]. split; [done|by apply HQ'].
Qed.

Lemma sh_weaken {A} (m : M A) s (Q : A -> heap -> Prop) :
  sh true m s Q -> sh false m s Q.
Proof.
  unfold sh, post. destruct (m s) as [a s1|x s1|s1]; [|done..].
  intros (K & I & HQ). split; [done|]. split; [by eapply inv_weaken|done].
Qed.

(** A step that changes the store, then the rest. *)
Lemma sh_from b {A} (m : M A) s s1 (Q : A -> heap -> Prop) :
  kinds_kept (st_heap s) (st_heap s1) -> sh b m s1 Q -> post m s1
    (fun a s' =>
       kinds_kept (st_heap s) (st_heap s') /\ inv b (st_heap s') /\ Q a (st_heap s'))
    (fun _ _ => True) False.
Proof.
  unfold sh, post. intros K. destruct (m s1) as [a s2|x s2|s2]; [|done..].
  intros (K2 & I2 & HQ). split; [by eapply kinds_kept_trans|done].
Qed.

(** The last step of a computation. *)
Lemma sh_final b {A} (m : M A) s (Q : A -> heap -> Prop) :
  sh b (bind m (fun a => ret a)) s Q -> sh b m s Q.
Proof. unfold sh, post, bind, ret. by destruct (m s). Qed.

Lemma sh_bind_getp b {B} v key (k : val -> M B) s (Q : B -> heap -> Prop) :
  (forall x, read (st_heap s) v key = Some x -> sh b (k x) s Q) ->
  sh b (bind (getp v key) k) s Q.
Proof.
  intros Hk. unfold sh, post, bind, getp.
  destruct (read (st_heap s) v key) as [x|]; [|done]. by apply Hk.
Qed.

Lemma sh_bind_isM b {B} t v (k : bool -> M B) s (Q : B -> heap -> Prop) :
  sh b (k (tipe_is t (st_heap s) v)) s Q -> sh b (bind (isM t v) k) s Q.
Proof. done. Qed.

Lemma sh_bind_classifyM b {B} v (k : tag -> M B) s (Q : B -> heap -> Prop) :
  sh b (k (classify (st_heap s) v)) s Q -> sh b (bind (classifyM v) k) s Q.
Proof. done. Qed.

Lemma sh_bind_keysM b {B} v (k : list string -> M B) s (Q : B -> heap -> Prop) :
  sh b (k (keys (st_heap s) v)) s Q -> sh b (bind (keysM v) k) s Q.
Proof. done. Qed.

Lemma sh_bind_to_stringM b {B} v (k : string -> M B) s (Q : B -> heap -> Prop) :
  sh b (k (to_string (st_heap s) v)) s Q -> sh b (bind (to_stringM v) k) s Q.
Proof. done. Qed.

Lemma sh_bind_lengthM b {B} v (k : nat -> M B) s (Q : B -> heap -> Prop) :
  (forall n, sh b (k n) s Q) -> sh b (bind (lengthM v) k) s Q.
Proof.
  intros Hk. unfold sh, post, bind, lengthM.
  destruct v as [| | | | |l]; try done; try apply Hk.
  destruct (st_heap s !! l) as [[[] ?]|]; apply Hk.
Qed.

Lemma sh_bind_ret b {A B} (a : A) (k : A -> M B) s (Q : B -> heap -> Prop) :
  sh b (k a) s Q -> sh b (bind (ret a) k) s Q.
Proof. done. Qed.

Lemma sh_bind_setp b {B} v key x (k : unit -> M B) s (Q : B -> heap -> Prop) :
  inv b (st_heap s) ->
  v <> VRef lv \/ leaf (st_heap s) x ->
  (b = true -> key <> "default" \/ leaf (st_heap s) x) ->
  (forall h', inv b h' -> kinds_kept (st_heap s) h' ->
              sh b (k tt) (State h' (st_calls s)) Q) ->
  sh b (bind (setp v key x) k) s Q.
Proof.
  intros [Hf Hp] Hx Hd Hk. unfold sh, post, bind, setp.
  destruct (write (st_heap s) v key x) as [h'|] eqn:Hw; [|done].
  pose proof (kinds_kept_write _ _ _ _ _ Hw) as K.
  apply (sh_from b _ s (State h' (st_calls s))); [done|].
  apply Hk; [|done]. split; [by eapply flat_write|].
  intros Hb. eapply plain_write; [by apply Hp|done|by apply Hd].
Qed.

Lemma sh_bind_alloc b {B} c (k : val -> M B) s (Q : B -> heap -> Prop) :
  inv b (st_heap s) ->
  (b = true -> leaf (st_heap s) (cell_get c "default")) ->
  (inv b (st_heap s ++ [c]) -> length (st_heap s) <> lv ->
   sh b (k (VRef (length (st_heap s)))) (State (st_heap s ++ [c]) (st_calls s)) Q) ->
  sh b (bind (alloc c) k) s Q.
Proof.
  intros [Hf Hp] Hc Hk.
  apply (sh_from b _ s (State (st_heap s ++ [c]) (st_calls s)));
    [apply kinds_kept_alloc|].
  apply Hk; [|apply flat_lt in Hf; lia].
  split; [by apply flat_alloc|]. intros Hb. apply plain_alloc; auto.
Qed.

Lemma sh_bind_delp b {B} v key (k : unit -> M B) s (Q : B -> heap -> Prop) :
  inv b (st_heap s) ->
  (inv b (remove (st_heap s) v key) ->
   sh b (k tt) (State (remove (st_heap s) v key) (st_calls s)) Q) ->
  sh b (bind (delp v key) k) s Q.
Proof.
  intros [Hf Hp] Hk.
  apply (sh_from b _ s (State (remove (st_heap s) v key) (st_calls s)));
    [apply kinds_kept_remove|].
  apply Hk. split; [by apply flat_remove|]. intros Hb. by apply plain_remove, Hp.
Qed.

Lemma sh_for_each b ks body s :
  inv b (st_heap s) ->
  (forall k s1, inv b (st_heap s1) -> sh b (body k) s1 (fun _ _ => True)) ->
  sh b (for_each ks body) s (fun _ _ => True).
Proof.
  intros HI Hb. revert s HI. induction ks as [|k ks IH]; intros s HI.
  - by apply sh_ret.
  - cbn [for_each]. eapply sh_bind; [by apply Hb|].
    intros [] s1 _ I1 _. by apply IH.
Qed.

Lemma sh_for_in b {A} ks (body : string -> M (option A)) s (Q : A -> heap -> Prop) :
  inv b (st_heap s) ->
  (forall k s1, inv b (st_heap s1) ->
     sh b (body k) s1 (fun r h => match r with Some a => Q a h | None => True end)) ->
  sh b (for_in ks body) s (fun r h => match r with Some a => Q a h | None => True end).
Proof.
  intros HI Hb. revert s HI. induction ks as [|k ks IH]; intros s HI.
  - by apply sh_ret.
  - cbn [for_in]. eapply sh_bind; [by apply Hb|].
    intros [a|] s1 _ I1 HQ; [by apply sh_ret|by apply IH].
Qed.

Lemma sh_or_continue b b' {A} (m : M (option A)) (k : M A) s
    (Q : A -> heap -> Prop) :
  (forall h, inv b h -> inv b' h) ->
  sh b m s (fun r h => match r with Some a => Q a h | None => True end) ->
  (forall s1, kinds_kept (st_heap s) (st_heap s1) -> inv b (st_heap s1) ->
              sh b' k s1 Q) ->
  sh b' (or_continue m k) s Q.
Proof.
  intros Hb Hm Hk. unfold or_continue. eapply sh_bind; [exact Hm|].
  intros [a|] s1 K1 I1 HQ; [|by apply Hk].
  apply sh_ret; [by apply Hb|done].
Qed.

(** What is read under "default" is a scalar, as long as the defaults
    count. *)
Lemma inv_default b h v key x :
  inv b h -> read h v key = Some x ->
  b = true -> key <> "default" \/ leaf h x.
Proof.
  intros [_ Hp] Hr Hb. destruct (decide (key = "default")) as [->|Hne]; [|by left].
  right. eapply plain_read; [by apply Hp|done].
Qed.

(** *** The helpers *)

Lemma sh_fail b code msg a0 a1 a2 s :
  inv b (st_heap s) ->
  sh b (fail code msg a0 a1 a2) s (fun r h => leaf h r).
Proof.
  intros HI. unfold fail.
  apply sh_bind_alloc; [done|by intros _ l|]. intros I1 Hn.
  set (n := length (st_heap s)) in *.
  eapply sh_bind with (Q1 := fun _ _ => True).
  { destruct (to_boolean a2); [|by apply sh_ret].
    apply sh_bind_delp; [done|]. intros I2. apply sh_bind_keysM.
    apply sh_for_each; [done|]. intros key s1 I3.
    apply sh_bind_getp. intros v Hv.
    destruct (to_boolean v); [|by apply sh_ret].
    apply sh_final.
    apply sh_bind_setp; [done|left; congruence|by eapply inv_default|].
    intros h' I4 _. by apply sh_ret. }
  intros [] s1 K1 I1' _. apply sh_bind_isM.
  eapply sh_bind with (Q1 := fun err h => err <> VRef lv /\ leaf h err).
  { destruct (tipe_is TError (st_heap s1) msg) eqn:He.
    - apply sh_ret; [done|]. split; [|by apply leaf_error].
      eapply flat_not_error; [apply I1'|done].
    - apply sh_bind_to_stringM, sh_bind_to_stringM, sh_bind_to_stringM.
      apply sh_final.
      apply sh_bind_alloc; [done|by intros _ l|]. intros I2 Hn2.
      apply sh_ret; [done|]. split; [congruence|apply leaf_new_error]. }
  intros err s2 K2 I2 [Herr Hleaf].
  apply sh_bind_getp. intros c Hc.
  apply sh_bind_setp; [done|by left|by intros _; left|]. intros h3 I3 K3.
  apply sh_bind_setp; [done|by left|by intros _; left|]. intros h4 I4 K4.
  apply sh_ret; [done|]. cbn [st_heap] in *.
  eapply leaf_kept; [exact K4|]. by eapply leaf_kept.
Qed.

Lemma sh_override b obj1 obj2 s :
  inv b (st_heap s) ->
  sh b (override obj1 obj2) s (fun r _ => obj1 <> VRef lv -> r <> VRef lv).
Proof.
  intros HI. unfold override. apply sh_bind_isM, sh_bind_isM.
  destruct (negb _); [by apply sh_ret|].
  apply sh_bind_alloc; [done|by intros _ l|]. intros I1 Hn.
  set (n := length (st_heap s)) in *. apply sh_bind_keysM.
  eapply sh_bind with (Q1 := fun _ _ => True).
  { apply sh_for_each; [done|]. intros key s1 I2.
    apply sh_bind_getp. intros v Hv. apply sh_final.
    apply sh_bind_setp; [done|left; congruence|by eapply inv_default|].
    intros h' I3 _. by apply sh_ret. }
  intros [] s1 K1 I2 _. apply sh_bind_keysM.
  eapply sh_bind with (Q1 := fun _ _ => True).
  { apply sh_for_each; [done|]. intros key s2 I3.
    apply sh_bind_getp. intros v1 Hv1. apply sh_bind_classifyM.
    destruct (tag_eqb _ TUndefined).
    - apply sh_bind_getp. intros v2 Hv2. apply sh_final.
      apply sh_bind_setp; [done|left; congruence|by eapply inv_default|].
      intros h' I4 _. by apply sh_ret.
    - apply sh_bind_getp. intros v2 Hv2. apply sh_bind_classifyM.
      destruct (tag_eqb _ _); [|by apply sh_ret]. apply sh_final.
      apply sh_bind_setp; [done|left; congruence|by eapply inv_default|].
      intros h' I4 _. by apply sh_ret. }
  intros [] s2 K2 I3 _. apply sh_ret; [done|]. intros _. congruence.
Qed.

Lemma sh_log b a0 a1 a2 s :
  inv b (st_heap s) -> sh b (log a0 a1 a2) s (fun _ _ => True).
Proof.
  intros HI. unfold log. apply sh_bind_isM.
  eapply sh_bind with (Q1 := fun _ _ => True).
  { destruct (tipe_is TObject (st_heap s) a2); [|by apply sh_ret].
    apply sh_bind_delp; [done|]. intros I1. apply sh_final.
    apply sh_bind_delp; [done|]. intros I2. by apply sh_ret. }
  intros [] s1 K1 I1 _.
  apply sh_bind_alloc; [done|by intros _ l|]. intros I2 _. by apply sh_ret.
Qed.

Lemma coerceNumber_leaf h str : leaf h (coerceNumber str).
Proof. apply leaf_primitive, coerceNumber_primitive. Qed.

Lemma sh_coerceType b value schema options s :
  inv b (st_heap s) -> leaf (st_heap s) value ->
  sh b (coerceType value schema options) s (fun r h => leaf h r).
Proof.
  intros HI Hv. unfold coerceType. apply sh_bind_getp. intros dnc _.
  destruct (to_boolean dnc); [by apply sh_ret|].
  destruct value as [| | | |str|l]; try by apply sh_ret.
  apply sh_bind_getp. intros ty _.
  destruct (strict_equal ty (VStr "number"));
    [apply sh_ret; [done|apply coerceNumber_leaf]|].
  destruct (strict_equal ty (VStr "boolean")); by apply sh_ret.
Qed.

(** A reference is not coerced. *)
Lemma sh_coerceType_ref b l schema options s :
  inv b (st_heap s) ->
  sh b (coerceType (VRef l) schema options) s (fun r _ => r = VRef l).
Proof.
  intros HI. unfold coerceType. apply sh_bind_getp. intros dnc _.
  destruct (to_boolean dnc); by apply sh_ret.
Qed.

(** *** The validators *)

Lemma sh_downgrade schemaErr s :
  inv false (st_heap s) -> sh false (downgrade schemaErr) s (fun _ _ => True).
Proof.
  intros HI. unfold downgrade.
  apply sh_bind_getp. intros m _. apply sh_bind_to_stringM.
  apply sh_bind_setp; [done|by right; intros l|done|]. intros h1 I1 _.
  apply sh_bind_setp; [done|by right; intros l|done|]. intros h2 I2 _.
  by apply sh_ret.
Qed.

Lemma sh_try_validator fn value options s :
  inv false (st_heap s) ->
  sh false
    (try_catch
       (root <- getp options "rootValue" ;;
        err <- invoke fn root [value; options] ;;
        ret (inl err))
       downgrade) s (fun _ _ => True).
Proof.
  intros HI.
  assert (sh false (e <- alloc type_error_object ;; downgrade e) s (fun _ _ => True))
    as Hte.
  { apply sh_bind_alloc; [done..|]. intros I1 _. by apply sh_downgrade. }
  unfold sh, post, try_catch, bind at 1, getp.
  destruct (read (st_heap s) options "rootValue") as [root|]; [|exact Hte].
  unfold bind, invoke, ret.
  destruct fn as [| | | | |l]; try exact Hte.
  destruct (st_heap s !! l) as [[[|es|f|m0] fps]|]; try exact Hte.
  pose proof (call_kinds f (st_heap s) root [value; options]) as K.
  pose proof (flat_call (st_heap s) f root [value; options] (proj1 HI)) as Hf.
  destruct (call f (st_heap s) root [value; options]) as [h' r]. cbn [fst] in *.
  destruct r as [v|v].
  - split; [done|]. split; [by split|done].
  - set (s1 := State h' _).
    assert (inv false (st_heap s1)) as I1 by by split.
    exact (sh_from false (downgrade v) s s1 (fun _ _ => True) K
             (sh_downgrade v s1 I1)).
Qed.

Lemma sh_callValidator fn value options s :
  inv false (st_heap s) ->
  sh false (callValidator fn value options) s (fun _ _ => True).
Proof.
  intros HI. unfold callValidator.
  eapply sh_bind; [by apply sh_try_validator|].
  intros [err|schemaErr] s1 K1 I1 _; [|by apply sh_ret].
  destruct (to_boolean err); [|by apply sh_ret].
  apply sh_bind_isM.
  eapply sh_bind with (Q1 := fun e _ => e <> VRef lv).
  { destruct (tipe_is TError (st_heap s1) err) eqn:He.
    - apply sh_ret; [done|]. eapply flat_not_error; [apply I1|done].
    - apply sh_bind_to_stringM. apply sh_final.
      apply sh_bind_alloc; [done..|]. intros I2 Hn. apply sh_ret; [done|congruence]. }
  intros e s2 K2 I2 He. apply sh_bind_getp. intros c _.
  apply sh_bind_setp; [done|by left|done|]. intros h3 I3 _. by apply sh_ret.
Qed.

(** What the caller makes of what the validator returned. *)
Lemma sh_reject err value a0 a1 a2 s :
  inv false (st_heap s) -> leaf (st_heap s) value ->
  sh false
    (if to_boolean err then c <- getp err "code" ;; fail c err a0 a1 a2
     else ret value) s (fun r h => leaf h r).
Proof.
  intros HI Hv. destruct (to_boolean err); [|by apply sh_ret].
  apply sh_bind_getp. intros c _. by apply sh_fail.
Qed.

Lemma sh_checkScalar value schema options s :
  inv false (st_heap s) -> leaf (st_heap s) value ->
  sh false (checkScalar value schema options) s (fun r h => leaf h r).
Proof.
  intros HI Hv. unfold checkScalar. apply sh_bind_isM, sh_bind_classifyM.
  destruct (_ || _); [by apply sh_ret|].
  apply sh_bind_getp. intros sv _. apply sh_bind_classifyM.
  destruct (classify (st_heap s) sv); try by apply sh_fail.
  - destruct (negb _); [|by apply sh_ret].
    apply sh_bind_getp. intros k _. apply sh_bind_to_stringM, sh_bind_to_stringM.
    by apply sh_fail.
  - destruct (negb _); [|by apply sh_ret].
    apply sh_bind_getp. intros k _. apply sh_bind_to_stringM, sh_bind_to_stringM.
    by apply sh_fail.
  - destruct (negb _); [|by apply sh_ret].
    apply sh_bind_getp. intros k _. apply sh_bind_to_stringM, sh_bind_to_stringM.
    by apply sh_fail.
  - eapply sh_bind; [by apply sh_callValidator|].
    intros err s1 K1 I1 _. apply sh_reject; [done|by eapply leaf_kept].
  - by apply sh_ret.
Qed.


(** *** One level of the checker, on a value that is no object *)

Lemma sh_validate value schema parentOptions options s :
  inv false (st_heap s) -> leaf (st_heap s) value ->
  sh false
    (e <- isM TError value ;;
     if e then ret value
     else
       validate <- getp schema "validate" ;;
       vf <- isM TFunction validate ;;
       if vf then
         err <- callValidator validate value options ;;
         if to_boolean err then
           c <- getp err "code" ;;
           fail c err value schema parentOptions
         else ret value
       else ret value) s (fun r h => leaf h r).
Proof.
  intros HI Hv. apply sh_bind_isM.
  destruct (tipe_is TError _ _); [by apply sh_ret|].
  apply sh_bind_getp. intros validate _. apply sh_bind_isM.
  destruct (tipe_is TFunction _ _); [|by apply sh_ret].
  eapply sh_bind; [by apply sh_callValidator|].
  intros err s1 K1 I1 _. apply sh_reject; [done|by eapply leaf_kept].
Qed.

Lemma sh_chk_leaf fuel value schema parentOptions s :
  inv false (st_heap s) -> leaf (st_heap s) value ->
  sh false (_chk (S fuel) value schema parentOptions) s (fun r h => leaf h r).
Proof.
  intros HI Hv. cbn [_chk]. apply sh_bind_isM.
  destruct (negb _); [by apply sh_ret|].
  eapply sh_bind; [by apply sh_override|]. intros options s1 K1 I1 _.
  apply sh_bind_getp. intros lg _.
  eapply sh_bind with (Q1 := fun _ _ => True).
  { destruct (to_boolean lg); [by apply sh_log|by apply sh_ret]. }
  intros [] s2 K2 I2 _.
  assert (leaf (st_heap s2) value) as Hv2
    by (eapply leaf_kept; [exact K2|by eapply leaf_kept]).
  apply sh_bind_getp. intros ignoreRequired _.
  apply sh_bind_getp. intros required _. apply sh_bind_classifyM.
  destruct (_ && _ && _).
  { apply sh_bind_getp. intros k _. by apply sh_fail. }
  eapply sh_bind; [by apply sh_coerceType|]. intros value' s3 K3 I3 Hv3.
  apply sh_bind_classifyM. apply sh_bind_getp. intros ty _.
  apply sh_bind_classifyM.
  destruct (_ && _ && _); [by apply sh_fail|].
  eapply sh_bind with (Q1 := fun r h => leaf h r).
  { destruct (leaf_classify _ _ Hv3) as [Ho Ha].
    destruct (classify (st_heap s3) value'); try done; by apply sh_checkScalar. }
  intros value'' s4 K4 I4 Hv4. by apply sh_validate.
Qed.

(** *** The loops over the fields and the elements *)

Section Loops.
Variable rec : val -> val -> val -> M val.
Hypothesis rec_leaf :
  forall v f o s,
    inv false (st_heap s) -> leaf (st_heap s) v ->
    sh false (rec v f o) s (fun r h => leaf h r).

Lemma sh_checkProperty fields options key s :
  inv false (st_heap s) ->
  sh false (checkProperty rec (VRef lv) fields options key) s
    (fun r h => match r with Some _ => True | None => True end).
Proof.
  intros HI. unfold checkProperty.
  apply sh_bind_getp. intros f _. apply sh_bind_isM.
  destruct (tipe_is TObject _ _); [|by apply sh_ret].
  apply sh_bind_setp; [done|by right; intros l|done|]. intros h1 I1 K1.
  apply sh_bind_getp. intros v Hv. cbn [st_heap] in Hv.
  apply sh_bind_getp. intros f' _.
  eapply sh_bind.
  { apply rec_leaf; [done|]. eapply flat_read; [apply I1|exact Hv]. }
  intros r s2 K2 I2 Hr.
  apply sh_bind_setp; [done|by right|done|]. intros h3 I3 K3.
  apply sh_bind_getp. intros v' _. apply sh_bind_isM.
  destruct (tipe_is TError _ _); by apply sh_ret.
Qed.

Lemma sh_checkProperties fields options s :
  inv false (st_heap s) ->
  sh false (checkProperties rec (VRef lv) fields options) s
    (fun r h => match r with Some _ => True | None => True end).
Proof.
  intros HI. unfold checkProperties. apply sh_bind_keysM.
  apply (sh_for_in false _ _ s (fun _ _ => True)); [done|].
  intros k s1 I1. by apply sh_checkProperty.
Qed.

Lemma sh_checkElement schema options i s :
  inv false (st_heap s) ->
  sh false (checkElement rec (VRef lv) schema options i) s (fun r h => leaf h r).
Proof.
  intros HI. unfold checkElement.
  apply sh_bind_setp; [done|by right; intros l|done|]. intros h1 I1 K1.
  apply sh_bind_getp. intros x Hx. cbn [st_heap] in Hx.
  apply sh_bind_getp. intros sv _.
  apply rec_leaf; [done|]. eapply flat_read; [apply I1|exact Hx].
Qed.

Lemma sh_checkElements schema options i s :
  inv false (st_heap s) ->
  sh false (checkElements rec (VRef lv) schema options i) s
    (fun r h => match r with Some _ => True | None => True end).
Proof.
  revert s. induction i as [|j IH]; intros s HI; cbn [checkElements].
  - by apply sh_ret.
  - eapply sh_bind; [by apply sh_checkElement|]. intros elm s1 K1 I1 _.
    apply sh_bind_isM. destruct (tipe_is TError _ _); [by apply sh_ret|by apply IH].
Qed.

Lemma sh_checkArray schema options s :
  inv false (st_heap s) ->
  sh false (checkArray rec (VRef lv) schema options) s (fun _ _ => True).
Proof.
  intros HI. unfold checkArray. apply sh_bind_isM.
  destruct (negb _); [by apply sh_ret|].
  apply sh_bind_getp. intros sv _. apply sh_bind_isM.
  destruct (tipe_is TObject _ _); [|by apply sh_ret].
  apply sh_bind_lengthM. intros n.
  apply (sh_or_continue false false); [done|..].
  - eapply sh_mono; [by apply sh_checkElements|]. by intros [a|].
  - intros s1 _ I1. by apply sh_ret.
Qed.

(** The strict pass, the defaults and the required sweep invoke nothing:
    the defaults, being scalars, leave the value as flat as it was. *)
Lemma sh_checkStrict schema options fields s :
  inv true (st_heap s) ->
  sh true (checkStrict (VRef lv) schema options fields) s
    (fun r h => match r with Some _ => True | None => True end).
Proof.
  intros HI. unfold checkStrict. apply sh_bind_keysM.
  apply (sh_for_in true _ _ s (fun _ _ => True)); [done|].
  intros k s1 I1. unfold strictKey. apply sh_bind_getp. intros f _.
  destruct (negb _); [|by apply sh_ret].
  eapply sh_bind; [by apply sh_fail|]. intros e s2 _ I2 _. by apply sh_ret.
Qed.

Lemma clone_leaf d s : leaf (st_heap s) d -> clone d s = Ok d s.
Proof.
  intros Hd. unfold clone. rewrite bind_isM.
  destruct (leaf_classify _ _ Hd) as [Ho _]. unfold tipe_is.
  by destruct (classify (st_heap s) d).
Qed.

Lemma sh_bind_clone b {B} d (k : val -> M B) s (Q : B -> heap -> Prop) :
  leaf (st_heap s) d -> sh b (k d) s Q -> sh b (bind (clone d) k) s Q.
Proof.
  intros Hd Hk. unfold sh, post.
  rewrite (bind_Ok _ _ _ _ _ (clone_leaf d s Hd)). exact Hk.
Qed.

Lemma sh_setDefaults schema options fields s :
  inv true (st_heap s) ->
  sh true (setDefaults (VRef lv) schema options fields) s
    (fun r h => match r with Some _ => True | None => True end).
Proof.
  intros HI. unfold setDefaults. apply sh_bind_keysM.
  apply (sh_for_in true _ _ s (fun _ _ => True)); [done|].
  intros k s1 I1. unfold defaultField. apply sh_bind_getp. intros f _.
  apply sh_bind_getp. intros d Hd.
  assert (leaf (st_heap s1) d) as Hleaf
    by (eapply plain_read; [by apply I1|exact Hd]).
  apply sh_bind_classifyM. apply sh_bind_getp. intros v _. apply sh_bind_classifyM.
  destruct (_ && _); [|by apply sh_ret].
  apply sh_bind_clone; [done|].
  apply sh_bind_setp; [done|by right|by right|]. intros h1 I2 K2.
  apply sh_bind_getp. intros v' _. apply sh_bind_isM.
  destruct (tipe_is TError _ _); [|by apply sh_ret].
  eapply sh_bind; [by apply sh_fail|]. intros e s2 _ I3 _. by apply sh_ret.
Qed.

Lemma sh_checkRequired schema options fields s :
  inv true (st_heap s) ->
  sh true (checkRequired (VRef lv) schema options fields) s
    (fun r h => match r with Some _ => True | None => True end).
Proof.
  intros HI. unfold checkRequired. apply sh_bind_keysM.
  apply (sh_for_in true _ _ s (fun _ _ => True)); [done|].
  intros k s1 I1. unfold requireField. apply sh_bind_getp. intros f _.
  apply sh_bind_getp. intros r _. apply sh_bind_getp. intros v _.
  apply sh_bind_classifyM. destruct (_ && _); [|by apply sh_ret].
  eapply sh_bind; [by apply sh_fail|]. intros e s2 _ I2 _. by apply sh_ret.
Qed.

Lemma sh_checkobject schema options s :
  inv true (st_heap s) ->
  sh false (checkobject rec (VRef lv) schema options) s (fun _ _ => True).
Proof.
  intros HI. pose proof (inv_weaken _ _ HI) as HI'.
  unfold checkobject. apply sh_bind_isM.
  destruct (negb _); [by apply sh_ret|].
  apply sh_bind_getp. intros ty _. apply sh_bind_getp. intros sv _.
  apply sh_bind_isM. apply sh_bind_getp. intros strict _.
  apply (sh_or_continue true false); [apply inv_weaken|..].
  { destruct (to_boolean strict); [|by apply sh_ret].
    eapply sh_mono; [by apply sh_checkStrict|]. by intros [a|]. }
  intros s1 _ I1. apply sh_bind_getp. intros ignoreDefaults _.
  apply (sh_or_continue true false); [apply inv_weaken|..].
  { destruct (negb _); [|by apply sh_ret].
    eapply sh_mono; [by apply sh_setDefaults|]. by intros [a|]. }
  intros s2 _ I2. apply sh_bind_getp. intros ignoreRequired _.
  apply (sh_or_continue true false); [apply inv_weaken|..].
  { destruct (negb _); [|by apply sh_ret].
    eapply sh_mono; [by apply sh_checkRequired|]. by intros [a|]. }
  intros s3 _ I3. apply (sh_or_continue false false); [done|..].
  { eapply sh_mono; [apply sh_checkProperties; by eapply inv_weaken|].
    by intros [a|]. }
  intros s4 _ I4. by apply sh_ret.
Qed.

End Loops.

(** *** The two levels *)

Lemma sh_validate_object value schema parentOptions options s :
  inv false (st_heap s) ->
  sh false
    (e <- isM TError value ;;
     if e then ret value
     else
       validate <- getp schema "validate" ;;
       vf <- isM TFunction validate ;;
       if vf then
         err <- callValidator validate value options ;;
         if to_boolean err then
           c <- getp err "code" ;;
           fail c err value schema parentOptions
         else ret value
       else ret value) s (fun _ _ => True).
Proof.
  intros HI. apply sh_bind_isM.
  destruct (tipe_is TError _ _); [by apply sh_ret|].
  apply sh_bind_getp. intros validate _. apply sh_bind_isM.
  destruct (tipe_is TFunction _ _); [|by apply sh_ret].
  eapply sh_bind; [by apply sh_callValidator|].
  intros err s1 K1 I1 _. destruct (to_boolean err); [|by apply sh_ret].
  apply sh_bind_getp. intros c _. eapply sh_mono; [by apply sh_fail|done].
Qed.

Lemma sh_chk_flat fuel schema parentOptions s :
  inv true (st_heap s) ->
  sh false (_chk (S (S fuel)) (VRef lv) schema parentOptions) s (fun _ _ => True).
Proof.
  intros HI. remember (S fuel) as n eqn:Hn. cbn [_chk]. subst n.
  apply sh_bind_isM. destruct (negb _); [apply sh_ret; [by eapply inv_weaken|done]|].
  eapply (sh_bind true false); [by apply sh_override|]. intros options s1 K1 I1 _.
  pose proof (inv_weaken _ _ I1) as I1'.
  apply sh_bind_getp. intros lg _.
  eapply (sh_bind true false) with (Q1 := fun _ _ => True).
  { destruct (to_boolean lg); [by apply sh_log|by apply sh_ret]. }
  intros [] s2 K2 I2 _. pose proof (inv_weaken _ _ I2) as I2'.
  apply sh_bind_getp. intros ignoreRequired _.
  apply sh_bind_getp. intros required _. apply sh_bind_classifyM.
  destruct (_ && _ && _).
  { apply sh_bind_getp. intros k _. eapply sh_mono; [by apply sh_fail|done]. }
  eapply (sh_bind true false); [by apply sh_coerceType_ref|].
  intros value' s3 K3 I3 ->. pose proof (inv_weaken _ _ I3) as I3'.
  apply sh_bind_classifyM. apply sh_bind_getp. intros ty _.
  apply sh_bind_classifyM.
  destruct (_ && _ && _); [eapply sh_mono; [by apply sh_fail|done]|].
  eapply (sh_bind false false) with (Q1 := fun _ _ => True).
  { destruct (proj1 I3) as (c & Hc & Hk & Hl).
    cbn [classify]. rewrite Hc. destruct Hk as [Hk|[es Hk]]; rewrite Hk.
    - apply sh_checkobject; [|done]. intros v f o s0. apply sh_chk_leaf.
    - apply sh_checkArray; [|done]. intros v f o s0. apply sh_chk_leaf. }
  intros value'' s4 K4 I4 _. by apply sh_validate_object.
Qed.

Lemma sh_chk fuel schema userOptions s :
  inv true (st_heap s) ->
  sh false (chk (S (S fuel)) (VRef lv) schema userOptions) s (fun _ _ => True).
Proof.
  intros HI. pose proof (inv_weaken _ _ HI) as HI'. unfold chk.
  apply sh_bind_isM.
  destruct (negb _); [eapply sh_mono; [by apply sh_fail|done]|].
  apply sh_bind_alloc; [done|by intros _ l|]. intros _ Hn.
  assert (inv true (st_heap s ++
            [Cell KObject [("ignoreDefaults", VBool false);
                           ("ignoreRequired", VBool false);
                           ("doNotCoerce", VBool false);
                           ("strict", VBool false);
                           ("log", VBool false)]])) as I1.
  { destruct HI as [Hf Hp]. split; [by apply flat_alloc|].
    intros _. apply plain_alloc; [by apply Hp|by intros l]. }
  eapply (sh_bind true false); [by apply sh_override|].
  intros options s1 K1 I2 Ho.
  assert (options <> VRef lv) as Hne by (apply Ho; congruence).
  eapply (sh_bind true false) with (Q1 := fun _ _ => True).
  { apply sh_final.
    apply sh_bind_setp; [done|by left|by intros _; left|]. intros h2 I3 _.
    by apply sh_ret. }
  intros [] s2 K2 I3 _.
  eapply (sh_bind true false) with (Q1 := fun _ _ => True).
  { apply sh_final.
    apply sh_bind_setp; [done|by left|by intros _; left|]. intros h3 I4 _.
    by apply sh_ret. }
  intros [] s3 K3 I4 _.
  eapply (sh_bind false false); [by apply sh_chk_flat|].
  intros err s4 K4 I5 _. apply sh_bind_isM. by apply sh_ret.
Qed.

(** An object or an array that holds no object and no array, in a store
    where no default is one, is checked in two levels. *)
Lemma chk_two_levels fuel schema userOptions s s' :
  flat (st_heap s) -> plain (st_heap s) ->
  chk (S (S fuel)) (VRef lv) schema userOptions s <> OutOfFuel s'.
Proof.
  intros Hf Hp E.
  pose proof (sh_chk fuel schema userOptions s (conj Hf (fun _ => Hp))) as H.
  unfold sh, post in H. by rewrite E in H.
Qed.

End Shallow.

(** ** C1 *)

(** C1 (amended), for src/unnamed/part_000: a validator that throws an
    Error object.  [callValidator] catches it and returns that very object,
    with code [badSchema] and the message ["Validator threw exception " +
    message] (there is no colon).  For the whole of [chk], whatever the
    value, the schema and the options: of the validators invoked during a
    run only the last can have thrown an Error object, and then the run
    returns that object, downgraded in this way; a run that ends with an
    exception ends with a TypeError of the engine itself, and a run that
    the model cuts short for lack of fuel has got no further than that:
    in both no validator has thrown an Error object.  So a run in which a
    validator throws an Error object returns it.  As for the fuel: a value
    that is no object needs one unit, and an object or array that holds no
    object and no array needs two, in a store where no default is an
    object or array and no validator writes to the value. *)
Theorem C1_validator_exception `{L : Lawful} :
  (forall lf f fps value options root s h' e msg ps,
     st_heap s !! lf = Some (Cell (KFunction f) fps) ->
     read (st_heap s) options "rootValue" = Some root ->
     call f (st_heap s) root [value; options] = (h', Thrown (VRef e)) ->
     h' !! e = Some (Cell (KError msg) ps) ->
     exists s',
       Part000.callValidator (VRef lf) value options s = Ok (VRef e) s' /\
       classify (st_heap s') (VRef e) = TError /\
       deref (st_heap s') e "code" = VStr "badSchema" /\
       deref (st_heap s') e "message" =
         VStr ("Validator threw exception " +:+ to_string h' msg)) /\
  (forall fuel value schema userOptions s,
     match Part000.chk fuel value schema userOptions s with
     | Ok r s' =>
         exists new,
           st_calls s' = st_calls s ++ new /\
           (quiet new \/
            exists new0 i e m,
              new = new0 ++ [i] /\ quiet new0 /\ throws_error i e m /\
              r = VRef e /\
              classify (st_heap s') r = TError /\
              deref (st_heap s') e "code" = VStr "badSchema" /\
              deref (st_heap s') e "message" =
                VStr ("Validator threw exception " +:+ m))
     | Uncaught x s' =>
         x = TypeError /\
         exists new, st_calls s' = st_calls s ++ new /\ quiet new
     | OutOfFuel s' =>
         (primitive value -> fuel = 0) /\
         exists new, st_calls s' = st_calls s ++ new /\ quiet new
     end) /\
  (forall fuel lv schema userOptions s s',
     (forall f h this args,
        lv < length h -> fst (call f h this args) !! lv = h !! lv) ->
     flat lv (st_heap s) -> plain (st_heap s) ->
     Part000.chk (S (S fuel)) (VRef lv) schema userOptions s <> OutOfFuel s').
Proof.
  assert (forall h e m, downgraded h e m ->
            classify h (VRef e) = TError /\
            deref h e "code" = VStr "badSchema" /\
            deref h e "message" = VStr ("Validator threw exception " +:+ m))
    as Hd.
  { intros h e m (ps & He & Hc). unfold deref. cbn. by rewrite He. }
  split; [|split].
  - intros lf f fps value options root s h' e msg ps Hf Hroot Hcall He.
    set (s1 := State h' (st_calls s ++
                  [Invoke f root [value; options] (Thrown (VRef e)) h'])).
    destruct (downgrade_error e msg ps s1 He) as (s' & Hrun & D & _).
    exists s'. split; [|by apply Hd].
    unfold Part000.callValidator. erewrite bind_Ok; cycle 1.
    { unfold try_catch, bind, getp. rewrite Hroot.
      unfold invoke. rewrite Hf, Hcall. exact Hrun. }
    done.
  - intros fuel value schema userOptions s.
    pose proof (chk_guarded True fuel value schema userOptions s I) as G.
    destruct (Part000.chk fuel value schema userOptions s) as [r s'|x s'|] eqn:E.
    + destruct G as (_ & new & C & V). exists new. split; [done|].
      destruct V as [Q|new0 i e m -> Q0 Ti [= ->] D]; [by left|right].
      exists new0, i, e, m. destruct (Hd _ _ _ D) as (? & ? & ?). done.
    + destruct G as (X & _ & new & C & Q). split; [done|]. by exists new.
    + destruct G as (_ & new & C & Q). split; [|by exists new].
      intros Hp. destruct fuel as [|fuel]; [done|].
      pose proof (chk_scalar_guarded False fuel value schema userOptions s Hp) as G'.
      rewrite E in G'. by destruct G'.
  - intros fuel lv schema userOptions s s' Hcall Hf Hp.
    by apply chk_two_levels.
Qed.

Import Sample.

(** A validator that throws [new Error('boom')], one that throws [null];
    and the object [{a: 'x'}] (6) with a schema (5) whose field [a] has the
    first of them for its rule. *)
Definition throwing_store : list cell :=
  [Cell (KFunction 2) [];
   Cell KObject [("value", VRef 0)];
   Cell (KFunction 3) [];
   Cell KObject [("value", VRef 2)];
   Cell KObject [("rootValue", VStr "x")];
   Cell KObject [("a", VRef 1)];
   Cell KObject [("a", VStr "x")]].

(** The validators of the examples write to nothing that is there. *)
Lemma sample_call_apart lv f h this args :
  lv < length h -> fst (Sample.sample_call f h this args) !! lv = h !! lv.
Proof.
  intros Hlv.
  do 6 (destruct f as [|f]; cbn; try done; try by rewrite lookup_app_l).
  destruct args as [|? [|options [|]]]; cbn; try done.
  by destruct (read h options "doNotCoerce") as [[| |[]| | |]|].
Qed.

(** The Error object thrown for the string 'x' is handed back by
    [callValidator]; thrown for the field [a] of [{a: 'x'}], it is what
    [chk] returns, with two units of fuel. *)
Lemma C1_witness :
  Lawful Sample.runtime /\
  (exists s',
     Part000.callValidator (VRef 0) (VStr "x") (VRef 4) (State throwing_store [])
       = Ok (VRef 7) s' /\
     classify (st_heap s') (VRef 7) = TError /\
     deref (st_heap s') 7 "code" = VStr "badSchema" /\
     deref (st_heap s') 7 "message" = VStr "Validator threw exception boom") /\
  (exists e s',
     Part000.chk 2 (VRef 6) (VRef 5) VUndef (State throwing_store [])
       = Ok (VRef e) s' /\
     classify (st_heap s') (VRef e) = TError /\
     deref (st_heap s') e "code" = VStr "badSchema" /\
     deref (st_heap s') e "message" = VStr "Validator threw exception boom").
Proof.
  split; [exact sample_lawful|].
  destruct (C1_validator_exception (L := sample_lawful)) as (Hcall & Hrun & Hfuel).
  split.
  - exact (Hcall 0 2 [] (VStr "x") (VRef 4) (VStr "x") (State throwing_store [])
             (throwing_store ++ [Cell (KError (VStr "boom")) []]) 7 (VStr "boom") []
             eq_refl eq_refl eq_refl eq_refl).
  - specialize (Hrun 2 (VRef 6) (VRef 5) VUndef (State throwing_store [])).
    destruct (Part000.chk 2 (VRef 6) (VRef 5) VUndef (State throwing_store []))
      as [r s'|x s'|s'] eqn:E.
    + destruct Hrun as (new & Hnew & [Hq|(new0 & i & e & m & -> & _ & Ht & -> & Hv)]).
      * exfalso. vm_compute in E. injection E as <- <-.
        cbn [st_calls app] in Hnew. subst new.
        eapply Hq; [by left|]. split; [reflexivity|].
        eexists _, _. split; reflexivity.
      * exists e, s'. split; [done|].
        assert (m = "boom") as ->; [|done].
        vm_compute in E. injection E as _ <-. cbn [st_calls app] in Hnew.
        destruct new0 as [|i0 new0];
          [|exfalso; injection Hnew as _ Hnew; by destruct new0].
        injection Hnew as <-.
        destruct Ht as (Hres & msg & ps & Hi & ->). cbn in Hres.
        injection Hres as <-. cbn in Hi. by injection Hi as <- <-.
    + exfalso. vm_compute in E. discriminate.
    + exfalso. eapply (Hfuel 0 6 (VRef 5) VUndef (State throwing_store []) s');
        [apply sample_call_apart| | |exact E].
      * eexists. split; [reflexivity|]. split; [by left|].
        intros k. apply leaf_primitive. unfold cell_get, prop. cbn.
        by destruct (String.eqb k "a"); intros l.
      * intros l c Hc. apply leaf_primitive.
        do 7 (destruct l as [|l]; [injection Hc as <-; by intros l'|]).
        done.
Defined.

(** C1 as stated fails twice.  The message of the error returned for a
    validator that throws [new Error('boom')] has no colon after
    "exception"; and what a validator throws can escape: when it throws
    [null], the handler itself fails on [schemaErr.message], and the run
    ends with that TypeError; and src/chk.js catches nothing at all, so
    there the Error object itself is what the run ends with. *)
Lemma C1_counterexample :
  (exists e s',
     Part000.chk 1 (VStr "x") (VRef 1) VUndef (State throwing_store [])
       = Ok (VRef e) s' /\
     deref (st_heap s') e "code" = VStr "badSchema" /\
     deref (st_heap s') e "message" = VStr "Validator threw exception boom" /\
     deref (st_heap s') e "message" <> VStr "Validator threw exception: boom") /\
  (exists s',
     Part000.chk 1 (VStr "x") (VRef 3) VUndef (State throwing_store [])
       = Uncaught TypeError s') /\
  (exists e s',
     ChkJs.chk 1 (VStr "x") (VRef 1) VUndef (State throwing_store [])
       = Uncaught (Raised (VRef e)) s' /\
     st_heap s' !! e = Some (Cell (KError (VStr "boom")) [])).
Proof.
  split; [|split].
  - eexists _, _. split; [vm_compute; reflexivity|]. by vm_compute.
  - eexists. vm_compute. reflexivity.
  - eexists _, _. split; [vm_compute; reflexivity|]. by vm_compute.
Qed.

(** * src/chk.js under [untrusted] *)

(** The copy of a default.  [clone] copies an object or array default with
    [JSON.parse(JSON.stringify(obj))]; the model's round trip is a function
    of the store, and this class says that it builds its copy in new cells
    and leaves every cell that was there as it was.  [JSON.stringify] calls
    a [toJSON] method where the data has one; such a call is code of the
    caller's, it is not part of the model, and what is proved under this
    class is proved of defaults that are plain data, without [toJSON]
    methods. *)
Class PureJSON (R : Runtime) : Prop :=
  JSON_extends : forall h v, exists ext, fst (JSON_roundtrip h v) = h ++ ext.

Section Untrusted.
Context `{R : Runtime} {P : PureJSON R}.

(** The options object. *)
Variable lo : nat.

(** What is known of a run that needs more fuel than it was given. *)
Variable F : Prop.

(** [options.untrusted] is [true]. *)
Definition locked (h : heap) : Prop :=
  exists ps, h !! lo = Some (Cell KObject ps) /\ prop "untrusted" ps = VBool true.

(** The run invoked no function and left [options.untrusted] as it was. *)
Definition sealed (X : exn -> Prop) (s : state) {A} (o : outcome A) : Prop :=
  match o with
  | Ok _ s' => locked (st_heap s') /\ st_calls s' = st_calls s
  | Uncaught x s' => X x /\ locked (st_heap s') /\ st_calls s' = st_calls s
  | OutOfFuel s' => F /\ st_calls s' = st_calls s
  end.

Definition type_error (x : exn) : Prop := x = TypeError.

Lemma locked_lt h : locked h -> lo < length h.
Proof. intros (ps & Hc & _). by eapply lookup_lt_Some. Qed.

Lemma locked_app h ext : locked h -> locked (h ++ ext).
Proof. intros (ps & Hc & Hu). exists ps. split; [by apply lookup_app_l_Some|done]. Qed.

Lemma locked_store h l k x :
  locked h -> l <> lo \/ k <> "untrusted" \/ x = VBool true ->
  locked (store h l k x).
Proof.
  intros (ps & Hc & Hu) Hk. unfold store, locked.
  destruct (h !! l) as [c|] eqn:Hl; [|by exists ps].
  destruct (decide (l = lo)) as [->|Hne].
  - assert (c = Cell KObject ps) as -> by congruence.
    rewrite list_lookup_insert_eq by by eapply lookup_lt_Some.
    cbn [cell_set ckind cprops]. eexists. split; [done|].
    rewrite prop_set_prop.
    destruct (String.eqb "untrusted" k) eqn:E; [|done].
    apply String.eqb_eq in E. destruct Hk as [?|[?|?]]; congruence.
  - exists ps. by rewrite list_lookup_insert_ne.
Qed.

Lemma locked_remove h v k : locked h -> k <> "untrusted" -> locked (remove h v k).
Proof.
  intros (ps & Hc & Hu) Hk. unfold locked.
  destruct v as [| | | | |l]; cbn [remove]; try by exists ps.
  destruct (h !! l) as [c|] eqn:Hl; [|by exists ps].
  destruct (decide (l = lo)) as [->|Hne].
  - assert (c = Cell KObject ps) as -> by congruence.
    rewrite list_lookup_insert_eq by by eapply lookup_lt_Some.
    cbn [cell_delete ckind cprops]. eexists. split; [done|].
    by rewrite prop_del_prop.
  - exists ps. by rewrite list_lookup_insert_ne.
Qed.

Lemma read_locked h : locked h -> read h (VRef lo) "untrusted" = Some (VBool true).
Proof. intros (ps & Hc & Hu). cbn [read]. rewrite Hc. cbn. by rewrite Hu. Qed.

(** ** The steps of a run *)

Lemma sealed_ret {A} X (a : A) s : locked (st_heap s) -> sealed X s (ret a s).
Proof. by split. Qed.

Lemma sealed_weaken {A} (X X' : exn -> Prop) s (o : outcome A) :
  (forall x, X x -> X' x) -> sealed X s o -> sealed X' s o.
Proof. intros HX. destruct o; cbn; [done| |done]. intros (Hx & Hl & Hc). auto. Qed.

Lemma sealed_bind {A B} X (m : M A) (k : A -> M B) s :
  sealed X s (m s) ->
  (forall a s1, m s = Ok a s1 -> locked (st_heap s1) -> sealed X s1 (k a s1)) ->
  sealed X s (bind m k s).
Proof.
  intros Hm Hk. unfold bind. destruct (m s) as [a s1|x s1|]; [|done..].
  destruct Hm as [L1 C1]. specialize (Hk a s1 eq_refl L1).
  destruct (k a s1) as [b s2|x s2|s2].
  - destruct Hk as [L2 C2]. split; [done|congruence].
  - destruct Hk as (Hx & L2 & C2). split; [done|]. split; [done|congruence].
  - destruct Hk as [HF C2]. split; [done|congruence].
Qed.

Lemma sealed_getp v k s :
  locked (st_heap s) -> sealed type_error s (getp v k s).
Proof. intros Hl. unfold getp. by destruct (read _ _ _). Qed.

Lemma sealed_setp v k x s :
  locked (st_heap s) ->
  v <> VRef lo \/ k <> "untrusted" \/ x = VBool true ->
  sealed type_error s (setp v k x s).
Proof.
  intros Hl Hk. unfold setp.
  destruct v as [| | | | |l]; cbn; try done.
  split; [|done]. cbn. apply (locked_store _ l k x Hl).
  destruct Hk as [?|[?|?]]; [left; congruence|by right; left|by right; right].
Qed.

Lemma sealed_delp v k s :
  locked (st_heap s) -> k <> "untrusted" -> sealed type_error s (delp v k s).
Proof. intros Hl Hk. split; [by apply locked_remove|done]. Qed.

Lemma sealed_alloc c s : locked (st_heap s) -> sealed type_error s (alloc c s).
Proof. intros Hl. split; [by apply locked_app|done]. Qed.

Lemma sealed_keysM v s : locked (st_heap s) -> sealed type_error s (keysM v s).
Proof. by split. Qed.

Lemma sealed_classifyM v s : locked (st_heap s) -> sealed type_error s (classifyM v s).
Proof. by split. Qed.

Lemma sealed_isM t v s : locked (st_heap s) -> sealed type_error s (isM t v s).
Proof. by split. Qed.

Lemma sealed_get_heap s : locked (st_heap s) -> sealed type_error s (get_heap s).
Proof. by split. Qed.

Lemma sealed_to_stringM v s : locked (st_heap s) -> sealed type_error s (to_stringM v s).
Proof. by split. Qed.

Lemma sealed_lengthM v s : locked (st_heap s) -> sealed type_error s (lengthM v s).
Proof.
  intros Hl. unfold lengthM. destruct v as [| | | | |l]; try done.
  by destruct (_ !! l) as [[[] ?]|].
Qed.

Lemma sealed_for_in {A} ks (body : string -> M (option A)) s :
  (forall k s1, locked (st_heap s1) -> sealed type_error s1 (body k s1)) ->
  locked (st_heap s) -> sealed type_error s (for_in ks body s).
Proof.
  intros Hb. revert s. induction ks as [|k ks IH]; intros s Hl; [by split|].
  cbn [for_in]. apply sealed_bind; [by apply Hb|].
  intros [a|] s1 _ Hl1; [by split|by apply IH].
Qed.

Lemma sealed_or_continue {A} (m : M (option A)) (k : M A) s :
  sealed type_error s (m s) ->
  (forall s1, locked (st_heap s1) -> sealed type_error s1 (k s1)) ->
  sealed type_error s (or_continue m k s).
Proof.
  intros Hm Hk. apply sealed_bind; [done|].
  intros [a|] s1 _ Hl1; [by split|by apply Hk].
Qed.

Lemma sealed_try_catch {A} (body : M A) (handler : val -> M A) X s :
  sealed X s (body s) ->
  (forall e s1, locked (st_heap s1) -> sealed type_error s1 (handler e s1)) ->
  sealed type_error s (try_catch body handler s).
Proof.
  intros Hb Hh. unfold try_catch. destruct (body s) as [a s1|x s1|]; [done| |done].
  destruct Hb as (_ & L1 & C1).
  assert (forall e (s2 : state),
            locked (st_heap s2) -> st_calls s2 = st_calls s1 ->
            sealed type_error s (handler e s2)) as Hrun.
  { intros e s2 L2 C2. specialize (Hh e s2 L2).
    destruct (handler e s2) as [a s3|x' s3|s3].
    - destruct Hh as [L3 C3]. split; [done|congruence].
    - destruct Hh as (X' & L3 & C3). split; [done|]. split; [done|congruence].
    - destruct Hh as [HF C3]. split; [done|congruence]. }
  destruct x as [|v]; [|by apply Hrun].
  rewrite bind_alloc. apply Hrun; [by apply locked_app|done].
Qed.

Lemma sealed_json_copy obj s :
  locked (st_heap s) -> sealed (fun _ => True) s (json_copy obj s).
Proof.
  intros Hl. unfold json_copy. destruct (JSON_extends (st_heap s) obj) as [ext E].
  destruct (JSON_roundtrip (st_heap s) obj) as [h' [v|e]]; cbn in *; subst h'.
  - split; [by apply locked_app|done].
  - split; [done|]. split; [by apply locked_app|done].
Qed.

Create HintDb sealed discriminated.

(** One step of such a proof. *)
Ltac seal :=
  lazymatch goal with
  | |- sealed _ ?s (bind _ _ ?s) => apply sealed_bind; [|intros ? ? ? ?]
  | |- sealed _ ?s (ret _ ?s) => apply sealed_ret; assumption
  | |- sealed _ ?s (getp _ _ ?s) => apply sealed_getp; assumption
  | |- sealed _ ?s (setp _ _ _ ?s) =>
      apply sealed_setp; [assumption|by right; left]
  | |- sealed _ ?s (delp _ _ ?s) => apply sealed_delp; [assumption|done]
  | |- sealed _ ?s (alloc _ ?s) => apply sealed_alloc; assumption
  | |- sealed _ ?s (keysM _ ?s) => apply sealed_keysM; assumption
  | |- sealed _ ?s (classifyM _ ?s) => apply sealed_classifyM; assumption
  | |- sealed _ ?s (isM _ _ ?s) => apply sealed_isM; assumption
  | |- sealed _ ?s (lengthM _ ?s) => apply sealed_lengthM; assumption
  | |- sealed _ ?s (get_heap ?s) => apply sealed_get_heap; assumption
  | |- sealed _ ?s (to_stringM _ ?s) => apply sealed_to_stringM; assumption
  | |- sealed _ ?s (for_in _ _ ?s) => apply sealed_for_in; [intros ? ? ?|assumption]
  | |- sealed _ ?s (or_continue _ _ ?s) => apply sealed_or_continue; [|intros ? ?]
  | |- sealed _ ?s ((if ?b then _ else _) ?s) => destruct b
  | |- sealed _ ?s ((match ?x with _ => _ end) ?s) => destruct x
  | |- sealed _ ?s (?f ?s) => solve [eauto with sealed]
  end.

Import ChkJs.

Lemma fail_sealed code msg info s :
  locked (st_heap s) -> sealed type_error s (fail code msg info s).
Proof. intros Hl. unfold fail. repeat seal. Qed.

Lemma clone_sealed obj s :
  locked (st_heap s) -> sealed type_error s (clone obj s).
Proof.
  intros Hl. unfold clone. repeat seal.
  eapply sealed_try_catch; [by apply sealed_json_copy|].
  intros e s' Hl'. by apply sealed_ret.
Qed.

Lemma coerce_sealed value schema s :
  locked (st_heap s) -> sealed type_error s (coerce value schema s).
Proof. intros Hl. unfold coerce. repeat seal. Qed.

Lemma subSchemaOf_sealed node s :
  locked (st_heap s) -> sealed type_error s (subSchemaOf node s).
Proof. intros Hl. unfold subSchemaOf. repeat seal. Qed.

Hint Resolve fail_sealed clone_sealed coerce_sealed subSchemaOf_sealed : sealed.

Lemma checkStrict_sealed value schema args s :
  locked (st_heap s) -> sealed type_error s (checkStrict value schema args s).
Proof. intros Hl. unfold checkStrict. repeat seal. Qed.

Lemma getp_locked s :
  locked (st_heap s) -> getp (VRef lo) "untrusted" s = Ok (VBool true) s.
Proof. intros Hl. unfold getp. by rewrite read_locked. Qed.

(** A default is never written over [options.untrusted]: that is defined. *)
Lemma default_sealed value schema key s :
  locked (st_heap s) ->
  sealed type_error s
    ((f <- getp schema key ;;
      d <- getp f "default" ;;
      td <- classifyM d ;;
      v <- getp value key ;;
      tv <- classifyM v ;;
      if negb (tag_eqb td TUndefined) && tag_eqb tv TUndefined
      then c <- clone d ;; setp value key c
      else ret tt) s).
Proof.
  intros Hl.
  apply sealed_bind; [by apply sealed_getp|]. intros f s1 _ L1.
  apply sealed_bind; [by apply sealed_getp|]. intros d s2 _ L2.
  apply sealed_bind; [by apply sealed_classifyM|]. intros td s3 _ L3.
  apply sealed_bind; [by apply sealed_getp|]. intros v s4 Hv L4.
  apply sealed_bind; [by apply sealed_classifyM|]. intros tv s5 [= <- <-] L5.
  destruct (_ && _) eqn:Hc; [|by apply sealed_ret].
  apply andb_prop in Hc as [_ Hund].
  apply sealed_bind; [by apply clone_sealed|]. intros c s6 _ L6.
  apply sealed_setp; [done|].
  destruct (decide (key = "untrusted")) as [->|]; [left|by right; left].
  intros ->. rewrite (getp_locked _ L3) in Hv. by injection Hv as <- <-.
Qed.

Lemma checkFields_sealed value schema options args s :
  locked (st_heap s) ->
  sealed type_error s (checkFields value schema options args s).
Proof.
  intros Hl. unfold checkFields.
  apply sealed_bind; [by apply sealed_keysM|]. intros ks s1 _ L1.
  apply sealed_for_in; [|done]. intros key s2 L2.
  apply sealed_bind; [by apply sealed_getp|]. intros ignoreDefaults s3 _ L3.
  apply sealed_bind.
  { destruct (to_boolean ignoreDefaults);
      [by apply sealed_ret|by apply default_sealed]. }
  intros [] s4 _ L4. repeat seal.
Qed.

(** Under [untrusted] the scalar check never reaches the call. *)
Lemma checkScalar_sealed value schema s :
  locked (st_heap s) ->
  sealed type_error s (checkScalar value schema (VRef lo) s).
Proof.
  intros Hl. unfold checkScalar.
  apply sealed_bind; [by apply sealed_alloc|]. intros args s1 _ L1.
  apply sealed_bind; [by apply sealed_isM|]. intros so s2 _ L2.
  destruct (negb so); [by apply sealed_ret|].
  apply sealed_bind; [by apply sealed_classifyM|]. intros tv s3 _ L3.
  destruct (_ || _); [by apply sealed_ret|].
  apply sealed_bind; [by apply sealed_getp|]. intros dnc s4 _ L4.
  apply sealed_bind;
    [destruct (_ && _); [by apply coerce_sealed|by apply sealed_ret]|].
  intros value' s5 _ L5.
  apply sealed_bind; [by apply sealed_getp|]. intros ty s6 _ L6.
  apply sealed_bind; [by apply sealed_classifyM|]. intros tv' s7 _ L7.
  destruct (_ && _); [repeat seal|].
  apply sealed_bind; [by apply sealed_getp|]. intros sv s8 _ L8.
  apply sealed_bind; [by apply sealed_classifyM|]. intros tsv s9 _ L9.
  destruct tsv; try solve [repeat seal].
  rewrite (bind_Ok _ _ _ _ _ (getp_locked _ L9)). cbn [to_boolean].
  by apply fail_sealed.
Qed.

Section Recursion.
Variable rec : val -> val -> val -> M val.
Hypothesis rec_sealed :
  forall v f s, locked (st_heap s) -> sealed type_error s (rec v f (VRef lo) s).

Lemma checkProperties_sealed value schema ks err s :
  locked (st_heap s) ->
  sealed type_error s (checkProperties rec value schema (VRef lo) ks err s).
Proof.
  revert err s. induction ks as [|key ks IH]; intros err s Hl; cbn [checkProperties].
  - by apply sealed_ret.
  - apply sealed_bind; [by apply sealed_getp|]. intros f s1 _ L1.
    apply sealed_bind; [|intros err' s2 _ L2; by apply IH].
    destruct (to_boolean f); [|by apply sealed_ret].
    apply sealed_bind; [apply sealed_setp; [done|by right; left]|].
    intros [] s2 _ L2.
    apply sealed_bind; [by apply sealed_getp|]. intros f' s3 _ L3.
    apply sealed_bind; [by apply subSchemaOf_sealed|]. intros sub s4 _ L4.
    apply sealed_bind; [by apply sealed_getp|]. intros v s5 _ L5.
    by apply rec_sealed.
Qed.

Lemma checkElements_sealed value subSchema n todo err s :
  locked (st_heap s) ->
  sealed type_error s (checkElements rec value subSchema (VRef lo) n todo err s).
Proof.
  revert err s. induction todo as [|todo IH]; intros err s Hl; cbn [checkElements].
  - by apply sealed_ret.
  - apply sealed_bind; [by apply sealed_lengthM|]. intros len s1 _ L1.
    apply sealed_bind; [|intros err' s2 _ L2; by apply IH].
    destruct (Nat.ltb _ _); [|by apply sealed_ret].
    apply sealed_bind; [by apply sealed_getp|]. intros elm s2 _ L2.
    by apply rec_sealed.
Qed.

End Recursion.

(** A value that is there and is no object leads to no deeper check. *)
Definition shallow (value : val) : Prop := primitive value /\ value <> VUndef.

Lemma shallow_classify h value :
  shallow value ->
  classify h value <> TUndefined /\ classify h value <> TObject /\
  classify h value <> TArray.
Proof. intros [Hp Hu]. destruct value; try done. by destruct (Hp l). Qed.

Lemma doCheck_S_sealed fuel value schema s :
  shallow value \/
  (forall v f s0, locked (st_heap s0) ->
                  sealed type_error s0 (doCheck fuel v f (VRef lo) s0)) ->
  locked (st_heap s) ->
  sealed type_error s (doCheck (S fuel) value schema (VRef lo) s).
Proof.
  intros Hrec Hl. cbn [doCheck to_boolean]. rewrite bind_ret.
  apply sealed_bind; [by apply sealed_getp|]. intros k s1 _ L1.
  apply sealed_bind; [apply sealed_setp; [done|by right; left]|].
  intros [] s2 _ L2.
  apply sealed_bind; [by apply sealed_alloc|]. intros args s3 _ L3.
  apply sealed_bind; [by apply sealed_delp|]. intros [] s4 _ L4.
  apply sealed_bind; [by apply sealed_isM|]. intros so s5 _ L5.
  destruct (negb so); [by apply sealed_ret|].
  apply sealed_bind; [by apply sealed_getp|]. intros ignoreDefaults s6 _ L6.
  apply sealed_bind; [by apply sealed_getp|]. intros d s7 _ L7.
  apply sealed_bind; [by apply sealed_classifyM|]. intros td s8 _ L8.
  apply sealed_bind; [by apply sealed_classifyM|]. intros tv s9 [= <- <-] L9.
  apply sealed_bind;
    [destruct (_ && _); [by apply clone_sealed|by apply sealed_ret]|].
  intros value' s10 Hdef L10.
  apply sealed_bind; [by apply sealed_getp|]. intros ignoreRequired s11 _ L11.
  apply sealed_bind; [by apply sealed_getp|]. intros required s12 _ L12.
  apply sealed_bind; [by apply sealed_classifyM|]. intros tv' s13 [= <- <-] L13.
  destruct (_ && _ && (_ || _)); [repeat seal|].
  apply sealed_bind; [by apply sealed_getp|]. intros ty s14 _ L14.
  destruct (to_boolean ty && _); [by apply fail_sealed|].
  assert (classify (st_heap s12) value' = TObject \/
          classify (st_heap s12) value' = TArray ->
          forall v f s0, locked (st_heap s0) ->
                         sealed type_error s0 (doCheck fuel v f (VRef lo) s0))
    as Hdeep.
  { intros Hcl. destruct Hrec as [Hs|Hr]; [exfalso|done].
    destruct (shallow_classify (st_heap s8) value Hs) as (Hu & _).
    destruct (tag_eqb (classify (st_heap s8) value) TUndefined) eqn:E;
      [by destruct (classify (st_heap s8) value)|].
    rewrite !andb_false_r in Hdef. injection Hdef as <- <-.
    destruct (shallow_classify (st_heap s12) value Hs) as (_ & Ho & Ha).
    by destruct Hcl. }
  apply sealed_bind; [|intros err s15 _ L15; repeat seal].
  destruct (classify (st_heap s12) value') eqn:Htv;
    try (apply sealed_bind; [by apply checkScalar_sealed|];
         intros v s15 _ L15; repeat seal).
  - (* object *)
    apply sealed_bind; [by apply sealed_getp|]. intros ss s15 _ L15.
    apply sealed_bind; [by apply sealed_getp|]. intros os s16 _ L16.
    apply sealed_or_continue.
    { match goal with
      | |- sealed _ _ ((if ?b then _ else _) _) => destruct b
      end; [by apply checkStrict_sealed|by apply sealed_ret]. }
    intros s17 L17. apply sealed_or_continue; [by apply checkFields_sealed|].
    intros s18 L18.
    apply sealed_bind; [by apply sealed_keysM|]. intros ks s19 _ L19.
    apply checkProperties_sealed; [|done]. apply Hdeep. by left.
  - (* array *)
    apply sealed_bind; [by apply sealed_getp|]. intros sv s15 _ L15.
    destruct (to_boolean sv); [|by apply sealed_ret].
    apply sealed_bind; [by apply subSchemaOf_sealed|]. intros sub s16 _ L16.
    apply sealed_bind; [by apply sealed_lengthM|]. intros n s17 _ L17.
    apply checkElements_sealed; [|done]. apply Hdeep. by right.
Qed.

Lemma doCheck_sealed fuel value schema s :
  F -> locked (st_heap s) ->
  sealed type_error s (doCheck fuel value schema (VRef lo) s).
Proof.
  intros HF. revert value schema s.
  induction fuel as [|fuel IH]; intros value schema s Hl; [done|].
  apply doCheck_S_sealed; [|done]. by right.
Qed.

Lemma chk_sealed_with checker fuel value schema s :
  (forall s0, locked (st_heap s0) -> sealed type_error s0 (checker s0)) ->
  checker = doCheck fuel value schema (VRef lo) ->
  locked (st_heap s) ->
  sealed type_error s (chk fuel value schema (VRef lo) s).
Proof.
  intros Hch E Hl. unfold chk, checkSchema. rewrite bind_ret. cbn [to_boolean].
  rewrite bind_ret.
  apply sealed_bind; [by apply sealed_getp|]. intros strict s1 _ L1.
  apply sealed_bind; [apply sealed_setp; [done|by right; left]|].
  intros [] s2 _ L2.
  apply sealed_bind; [by apply sealed_getp|]. intros ignoreDefaults s3 _ L3.
  apply sealed_bind; [apply sealed_setp; [done|by right; left]|].
  intros [] s4 _ L4.
  apply sealed_bind; [by apply sealed_getp|]. intros ignoreRequired s5 _ L5.
  apply sealed_bind; [apply sealed_setp; [done|by right; left]|].
  intros [] s6 _ L6.
  apply sealed_bind; [by apply sealed_getp|]. intros doNotCoerce s7 _ L7.
  apply sealed_bind; [apply sealed_setp; [done|by right; left]|].
  intros [] s8 _ L8.
  rewrite (bind_Ok _ _ _ _ _ (getp_locked _ L8)). cbn [or_else to_boolean].
  apply sealed_bind; [apply sealed_setp; [done|by right; right]|].
  intros [] s9 _ L9.
  apply sealed_bind; [apply sealed_setp; [done|by right; left]|].
  intros [] s10 _ L10.
  apply sealed_bind; [apply sealed_setp; [done|by right; left]|].
  intros [] s11 _ L11.
  rewrite <- E. by apply Hch.
Qed.

Lemma chk_sealed fuel value schema s :
  F -> locked (st_heap s) ->
  sealed type_error s (chk fuel value schema (VRef lo) s).
Proof.
  intros HF Hl.
  apply chk_sealed_with with (checker := doCheck fuel value schema (VRef lo)); try done.
  intros s0 L0. by apply doCheck_sealed.
Qed.

Lemma chk_shallow_sealed fuel value schema s :
  shallow value -> locked (st_heap s) ->
  sealed type_error s (chk (S fuel) value schema (VRef lo) s).
Proof.
  intros Hs Hl.
  apply chk_sealed_with with (checker := doCheck (S fuel) value schema (VRef lo));
    try done.
  intros s0 L0. apply doCheck_S_sealed; [by left|done].
Qed.

End Untrusted.

(** ** The node that holds a function validator *)

Section UntrustedNode.
Context `{R : Runtime}.
Import ChkJs.

Lemma classify_alloc_valid h c v :
  classify h v <> TUndefined -> classify (h ++ [c]) v = classify h v.
Proof. apply classify_kept_tag, kinds_kept_alloc. Qed.

Lemma classify_coerced h c dnc ty value :
  classify h value <> TUndefined ->
  classify (h ++ [c]) (coerceValue dnc ty value) = classify h (coerceValue dnc ty value).
Proof.
  intros Hv. unfold coerceValue. destruct (to_boolean dnc);
    [by apply classify_alloc_valid|].
  destruct value as [| | | |str|l]; try by apply classify_alloc_valid.
  destruct (strict_equal ty (VStr "number")).
  { by rewrite (classify_primitive (h ++ [c]) _ (coerceNumber_primitive str)),
       (classify_primitive h _ (coerceNumber_primitive str)). }
  by destruct (strict_equal ty (VStr "boolean")).
Qed.

Lemma coerce_eq value ls dnc s :
  (if tag_eqb (classify (st_heap s) value) TString && negb (to_boolean dnc)
   then coerce value (VRef ls) else ret value) s
  = Ok (coerceValue dnc (deref (st_heap s) ls "type") value) s.
Proof.
  unfold coerceValue, coerce.
  destruct value as [| | | |str|l]; cbn [classify tag_eqb andb];
    try by destruct (to_boolean dnc).
  - destruct (to_boolean dnc); cbn [negb]; [done|].
    rewrite bind_getp_ref.
    destruct (strict_equal _ (VStr "number")); [done|].
    by destruct (strict_equal _ (VStr "boolean")).
  - destruct (to_boolean dnc); destruct (tag_eqb _ TString) eqn:E; cbn; try done.
Qed.

Lemma checkScalar_untrusted value ls sp lo s :
  locked lo (st_heap s) ->
  st_heap s !! ls = Some (Cell KObject sp) ->
  classify (st_heap s) value <> TNull ->
  classify (st_heap s) value <> TUndefined ->
  let ty := prop "type" sp in
  let v := coerceValue (deref (st_heap s) lo "doNotCoerce") ty value in
  to_boolean ty && negb (match_ (VStr (tag_name (classify (st_heap s) v))) ty)
    = false ->
  classify (st_heap s) (prop "value" sp) = TFunction ->
  exists e s' info,
    checkScalar value (VRef ls) (VRef lo) s = Ok (VRef e) s' /\
    classify (st_heap s') (VRef e) = TError /\
    deref (st_heap s') e "code" = VStr "badSchema" /\
    deref (st_heap s') e "message" =
      VStr ("Invalid Schema: Function validators are not allowed" +:+ info) /\
    st_calls s' = st_calls s.
Proof.
  intros Hl Hs Hnull Hund ty v Hty Hfn.
  pose proof (locked_lt _ _ Hl) as Hlo.
  assert (ls < length (st_heap s)) as Hls by by eapply lookup_lt_Some.
  unfold checkScalar. rewrite bind_alloc. cbn [st_heap st_calls].
  set (args := Cell KObject _). set (h1 := st_heap s ++ [args]).
  assert (h1 !! ls = Some (Cell KObject sp)) as Hs1
    by (unfold h1; by rewrite lookup_alloc_old).
  rewrite bind_isM. cbn [st_heap]. unfold tipe_is at 1. cbn [classify].
  rewrite Hs1. cbn [ckind tag_eqb negb].
  assert (classify h1 value = classify (st_heap s) value) as Hcv
    by by apply classify_alloc_valid.
  assert (deref h1 lo "doNotCoerce" = deref (st_heap s) lo "doNotCoerce") as Hd
    by by apply deref_alloc_old.
  assert (classify h1 v = classify (st_heap s) v) as Hcv'
    by by apply classify_coerced.
  rewrite bind_classifyM. cbn [st_heap].
  assert (tag_eqb (classify h1 value) TNull
          || tag_eqb (classify h1 value) TUndefined = false) as ->.
  { rewrite Hcv. by destruct (classify (st_heap s) value). }
  rewrite bind_getp_ref. cbn [st_heap].
  rewrite (bind_Ok _ _ _ _ _ (coerce_eq value ls _ (State h1 (st_calls s)))).
  cbn [st_heap]. rewrite Hd, (deref_cell _ _ _ _ Hs1).
  cbn [cell_get ckind cprops]. fold ty. fold v.
  rewrite bind_getp_ref. cbn [st_heap].
  rewrite (deref_cell _ _ _ _ Hs1). cbn [cell_get ckind cprops]. fold ty.
  rewrite bind_classifyM. cbn [st_heap]. rewrite Hcv'.
  assert (to_boolean ty && negb (tag_eqb (classify (st_heap s) v) TUndefined)
          && negb (tag_eqb (classify (st_heap s) v) TNull)
          && negb (match_ (VStr (tag_name (classify (st_heap s) v))) ty) = false)
    as ->.
  { destruct (to_boolean ty); [|done]. cbn in Hty. rewrite Hty.
    by rewrite andb_false_r. }
  rewrite bind_getp_ref. cbn [st_heap].
  rewrite (deref_cell _ _ _ _ Hs1). cbn [cell_get ckind cprops].
  rewrite bind_classifyM. cbn [st_heap].
  assert (classify h1 (prop "value" sp) = TFunction) as ->.
  { unfold h1. rewrite classify_alloc_valid; [done|]. by rewrite Hfn. }
  rewrite (bind_Ok _ _ _ _ _ (getp_locked lo (State h1 (st_calls s))
                                (locked_app _ _ _ Hl))).
  cbn [to_boolean].
  unfold fail. rewrite bind_isM, bind_get_heap, bind_isM. cbn [st_heap].
  rewrite bind_to_stringM, bind_alloc, bind_setp_ref. cbn [st_heap st_calls].
  unfold ret.
  eexists _, _, _. split; [done|]. cbn [st_heap st_calls].
  rewrite store_alloc_new.
  split; [|split; [|split; [|done]]].
  - cbn [classify]. by rewrite lookup_alloc_new.
  - unfold deref. by rewrite lookup_alloc_new.
  - unfold deref. rewrite lookup_alloc_new.
    assert (tipe_is TObject h1 (VRef (length (st_heap s))) = true) as ->.
    { unfold tipe_is, h1. cbn [classify]. by rewrite lookup_alloc_new. }
    cbn -[inspect]. done.
Qed.

(** The options [chk] leaves in the caller's object. *)
Definition configured (pp : props) (value schema : val) : props :=
  let flag k ps := set_prop k (or_else (prop k pp) (VBool false)) ps in
  set_prop "key" (or_else (prop "key" pp) (VStr ""))
    (set_prop "rootSchema" schema
       (set_prop "rootValue" value
          (flag "untrusted"
             (flag "doNotCoerce"
                (flag "ignoreRequired"
                   (flag "ignoreDefaults" (flag "strict" pp))))))).

Lemma store_insert h l c k x :
  l < length h -> store (<[l := c]> h) l k x = <[l := cell_set c k x]> h.
Proof.
  intros Hl. unfold store. rewrite list_lookup_insert_eq by done.
  by rewrite list_insert_insert_eq.
Qed.

Lemma deref_insert h l c k : l < length h -> deref (<[l := c]> h) l k = cell_get c k.
Proof. intros Hl. unfold deref. by rewrite list_lookup_insert_eq. Qed.

Lemma coerceValue_or_else d ty value :
  coerceValue (or_else d (VBool false)) ty value = coerceValue d ty value.
Proof.
  unfold coerceValue, or_else. destruct (to_boolean d) eqn:E; [by rewrite E|done].
Qed.

(** [chk] on a value that is there and is no object or array, under a
    schema whose [value] is a function. *)
Local Ltac prim :=
  match goal with
  | Hp : primitive ?value |- _ =>
      destruct value as [| |?|?|?|?l]; try done; by destruct (Hp l)
  end.

Lemma chk_untrusted_root fuel value ls sp lo pp s :
  st_heap s !! lo = Some (Cell KObject pp) ->
  prop "untrusted" pp = VBool true ->
  st_heap s !! ls = Some (Cell KObject sp) ->
  ls <> lo ->
  primitive value -> value <> VUndef -> value <> VNull ->
  let ty := prop "type" sp in
  let v := coerceValue (prop "doNotCoerce" pp) ty value in
  to_boolean ty && negb (match_ (VStr (tag_name (classify (st_heap s) value))) ty)
    = false ->
  to_boolean ty && negb (match_ (VStr (tag_name (classify (st_heap s) v))) ty)
    = false ->
  classify (st_heap s) (prop "value" sp) = TFunction ->
  exists e s' info,
    chk (S fuel) value (VRef ls) (VRef lo) s = Ok (VRef e) s' /\
    classify (st_heap s') (VRef e) = TError /\
    deref (st_heap s') e "code" = VStr "badSchema" /\
    deref (st_heap s') e "message" =
      VStr ("Invalid Schema: Function validators are not allowed" +:+ info) /\
    st_calls s' = st_calls s.
Proof.
  intros Hlo Hu Hs Hne Hp Hund Hnull ty v Hty Hty' Hfn.
  assert (lo < length (st_heap s)) as Hlt by by eapply lookup_lt_Some.
  unfold chk, checkSchema. mstep. cbn [to_boolean]. mstep.
  mstep. rewrite (deref_cell _ _ _ _ Hlo). mstep.
  unfold store at 1. rewrite Hlo.
  repeat (mstep; rewrite ?deref_insert, ?store_insert by done).
  cbn [doCheck to_boolean]. mstep.
  repeat (mstep; rewrite ?deref_insert, ?store_insert by done).
  cbn [cell_get cell_set ckind cprops].
  rewrite !prop_set_prop. cbn [String.eqb Ascii.eqb Bool.eqb].
  unfold remove. rewrite lookup_alloc_new, insert_alloc_new.
  unfold cell_delete. cbn [ckind cprops del_prop String.eqb Ascii.eqb Bool.eqb].
  fold (configured pp value (VRef ls)).
  set (cfg := configured pp value (VRef ls)).
  set (h2 := <[lo := Cell KObject cfg]> (st_heap s) ++ [_]).
  assert (h2 !! ls = Some (Cell KObject sp)) as Hs2.
  { unfold h2. rewrite lookup_alloc_old by (rewrite length_insert; by eapply lookup_lt_Some).
    by rewrite list_lookup_insert_ne. }
  assert (h2 !! lo = Some (Cell KObject cfg)) as Hlo2.
  { unfold h2. rewrite lookup_alloc_old by by rewrite length_insert.
    by rewrite list_lookup_insert_eq. }
  assert (prop "untrusted" cfg = VBool true) as Hu2.
  { unfold cfg, configured. cbv zeta. rewrite !prop_set_prop.
    cbn [String.eqb Ascii.eqb Bool.eqb]. by rewrite Hu. }
  assert (prop "doNotCoerce" cfg = or_else (prop "doNotCoerce" pp) (VBool false))
    as Hd2.
  { unfold cfg, configured. cbv zeta. rewrite !prop_set_prop.
    by cbn [String.eqb Ascii.eqb Bool.eqb]. }
  unfold tipe_is at 1. cbn [classify]. rewrite Hs2. cbn [ckind tag_eqb negb].
  assert (exists e s' info,
            checkScalar value (VRef ls) (VRef lo) (State h2 (st_calls s))
              = Ok (VRef e) s' /\
            classify (st_heap s') (VRef e) = TError /\
            deref (st_heap s') e "code" = VStr "badSchema" /\
            deref (st_heap s') e "message" =
              VStr ("Invalid Schema: Function validators are not allowed" +:+ info) /\
            st_calls s' = st_calls s) as (e & s' & info & Hrun & He & Hrest).
  { apply (checkScalar_untrusted value ls sp lo (State h2 (st_calls s)));
      cbn [st_heap].
    - by exists cfg.
    - done.
    - prim.
    - prim.
    - rewrite (deref_cell _ _ _ _ Hlo2). cbn [cell_get ckind cprops].
      rewrite Hd2, coerceValue_or_else. fold ty. fold v.
      replace (classify h2 v) with (classify (st_heap s) v); [done|].
      assert (primitive v) as Hv by by apply coerceValue_primitive.
      by rewrite (classify_primitive h2), (classify_primitive (st_heap s)).
    - unfold h2. rewrite classify_alloc_valid.
      + erewrite classify_insert; [done|done|done].
      + erewrite classify_insert; [by rewrite Hfn|done|done]. }
  exists e, s', info. split; [|done].
  assert (tag_eqb (classify h2 value) TUndefined = false) as Hu1 by prim.
  assert (tag_eqb (classify h2 value) TNull = false) as Hn1 by prim.
  repeat mstep. rewrite Hu1, !andb_false_r. repeat mstep.
  rewrite Hu1, Hn1. cbn [orb]. rewrite !andb_false_r. repeat mstep.
  rewrite (deref_cell _ _ _ _ Hs2). cbn [cell_get ckind cprops]. fold ty.
  replace (classify h2 value) with (classify (st_heap s) value) by prim.
  rewrite Hty.
  assert (forall (a b c : M val),
            match classify (st_heap s) value with
            | TObject => a | TArray => b | _ => c end = c) as ->
    by (intros; prim).
  unfold bind at 1. rewrite (bind_Ok _ _ _ _ _ Hrun), bind_isM.
  unfold tipe_is at 1. rewrite He. cbn [tag_eqb]. unfold ret at 1.
  rewrite bind_isM. unfold tipe_is at 1. rewrite He. by cbn [tag_eqb].
Qed.

End UntrustedNode.

Lemma sample_pure : PureJSON Sample.runtime.
Proof.
  intros h v. cbn [JSON_roundtrip Sample.runtime].
  unfold Sample.sample_JSON_roundtrip.
  destruct (Sample.json_value _ h v) as [[h' y]|] eqn:E; [|by eexists].
  apply json_value_extends in E as [ext ->].
  destruct y; cbn [fst]; try by eexists.
  rewrite <- app_assoc. by eexists.
Qed.

(** ** C5 *)


Import Sample.

(** A validator that accepts, a schema that holds it, options that disable
    it; and an object with its schema, whose second field has no rule. *)
Definition untrusted_store : list cell :=
  [Cell (KFunction 0) [];
   Cell KObject [("value", VRef 0)];
   Cell KObject [("untrusted", VBool true)];
   Cell KObject [("a", VRef 1); ("b", VRef 4)];
   Cell KObject [];
   Cell KObject [("a", VStr "x"); ("b", VNum 1)]].



(** * Defaults and required fields of an object *)

Section Fields.
Context `{R : Runtime}.
Import Part000.

(** [tipe.undefined(v)], and [tipe.undefined(v) || tipe.null(v)]. *)
Definition absent (h : heap) (v : val) : bool := tag_eqb (classify h v) TUndefined.

Definition unset (h : heap) (v : val) : bool :=
  absent h v || tag_eqb (classify h v) TNull.

(** [fields[k].default] and [fields[k].required], for the fields object at [lf]. *)
Definition field_default (h : heap) (lf : nat) (k : string) : val :=
  match deref h lf k with
  | VRef le => deref h le "default"
  | _ => VUndef
  end.

Definition field_required (h : heap) (lf : nat) (k : string) : val :=
  match deref h lf k with
  | VRef le => deref h le "required"
  | _ => VUndef
  end.

(** What the defaults loop makes of the properties of the value. *)
Definition fill_one (h : heap) (lf : nat) (vp : props) (k : string) : props :=
  let d := field_default h lf k in
  if negb (absent h d) && absent h (prop k vp) then set_prop k d vp else vp.

Definition filled (h : heap) (lf : nat) (ks : list string) (vp : props) : props :=
  fold_left (fill_one h lf) ks vp.

(** The first key the required sweep stops at. *)
Definition first_missing (h : heap) (lf : nat) (ks : list string) (vp : props)
  : option string :=
  List.find (fun k => to_boolean (field_required h lf k) && unset h (prop k vp)) ks.

(** Two stores that differ at [lv] at most. *)
Definition apart (lv : nat) (h h' : heap) : Prop :=
  forall l, l <> lv -> h' !! l = h !! l.

Lemma apart_refl lv h : apart lv h h.
Proof. by intros l. Qed.

Lemma apart_insert lv h h' c : apart lv h h' -> apart lv h (<[lv := c]> h').
Proof. intros Ha l Hl. rewrite list_lookup_insert_ne by done. by apply Ha. Qed.

Lemma deref_apart lv h h' l k : apart lv h h' -> l <> lv -> deref h' l k = deref h l k.
Proof. intros Ha Hl. unfold deref. by rewrite Ha. Qed.

Lemma classify_apart lv h h' vp vp' v :
  apart lv h h' ->
  h !! lv = Some (Cell KObject vp) -> h' !! lv = Some (Cell KObject vp') ->
  classify h' v = classify h v.
Proof.
  intros Ha Hh Hh'. destruct v as [| | | | |l]; try done. cbn.
  destruct (decide (l = lv)) as [->|Hne]; [by rewrite Hh, Hh'|by rewrite Ha].
Qed.

Lemma tipe_is_primitive t h v : primitive v -> tipe_is t h v = tipe_is t [] v.
Proof. intros Hp. unfold tipe_is. by rewrite (classify_primitive h). Qed.

Lemma primitive_not_class h v :
  primitive v -> tipe_is TObject h v = false /\ tipe_is TError h v = false.
Proof. intros Hp. destruct v; try done. by destruct (Hp l). Qed.

Lemma clone_not_object obj s :
  tipe_is TObject (st_heap s) obj = false -> clone obj s = Ok obj s.
Proof. intros Ho. unfold clone. by rewrite bind_isM, Ho. Qed.

(** One pass of the defaults loop, on a default that is a scalar. *)
Lemma defaultField_scalar lv lf le vp schema options key s :
  st_heap s !! lv = Some (Cell KObject vp) ->
  deref (st_heap s) lf key = VRef le ->
  let d := deref (st_heap s) le "default" in
  primitive d ->
  defaultField (VRef lv) schema options (VRef lf) key s =
    Ok None
      (State (if negb (absent (st_heap s) d) && absent (st_heap s) (prop key vp)
              then <[lv := Cell KObject (set_prop key d vp)]> (st_heap s)
              else st_heap s)
         (st_calls s)).
Proof.
  intros Hv He d Hd. unfold defaultField.
  rewrite bind_getp_ref, He, bind_getp_ref. fold d.
  rewrite bind_classifyM, bind_getp_ref, bind_classifyM.
  rewrite (deref_cell _ _ _ _ Hv). cbn [cell_get ckind cprops].
  unfold absent. destruct (_ && _); [|by destruct s].
  destruct (primitive_not_class (st_heap s) d Hd) as [Ho Herr].
  rewrite (bind_Ok _ _ _ _ _ (clone_not_object _ _ Ho)).
  rewrite bind_setp_ref. cbn [st_heap st_calls].
  rewrite bind_getp_ref. cbn [st_heap].
  rewrite (deref_store_object _ _ _ _ _ Hv eq_refl).
  rewrite bind_isM. cbn [st_heap].
  rewrite (tipe_is_primitive _ _ _ Hd), <- (tipe_is_primitive _ (st_heap s) _ Hd), Herr.
  unfold ret, store. by rewrite Hv.
Qed.

Section Loop.
Variables (h : heap) (lv lf : nat) (vp0 : props) (schema options : val).
Hypothesis value_object : h !! lv = Some (Cell KObject vp0).
Hypothesis fields_apart : lf <> lv.

Lemma defaultField_apart k vp s :
  (exists le, deref h lf k = VRef le /\ le <> lv /\
              primitive (deref h le "default")) ->
  apart lv h (st_heap s) ->
  st_heap s !! lv = Some (Cell KObject vp) ->
  exists s',
    defaultField (VRef lv) schema options (VRef lf) k s = Ok None s' /\
    apart lv h (st_heap s') /\
    st_heap s' !! lv = Some (Cell KObject (fill_one h lf vp k)) /\
    st_calls s' = st_calls s.
Proof.
  intros (le & He & Hle & Hd) Ha Hv.
  assert (deref (st_heap s) lf k = VRef le) as He'
    by by rewrite (deref_apart lv h).
  assert (deref (st_heap s) le "default" = deref h le "default") as Hd'
    by by apply (deref_apart lv).
  pose proof (defaultField_scalar lv lf le vp schema options k s Hv He') as Hstep.
  cbn zeta in Hstep. rewrite Hd' in Hstep. specialize (Hstep Hd).
  unfold absent in Hstep.
  rewrite !(classify_apart lv h (st_heap s) vp0 vp _ Ha value_object Hv) in Hstep.
  eexists. split; [exact Hstep|]. cbn [st_heap st_calls].
  unfold fill_one, field_default, absent. rewrite He.
  destruct (_ && _).
  - split; [by apply apart_insert|]. split; [|done].
    rewrite list_lookup_insert_eq; [done|]. by eapply lookup_lt_Some.
  - done.
Qed.

Lemma setDefaults_loop ks :
  (forall k, k ∈ ks ->
     exists le, deref h lf k = VRef le /\ le <> lv /\
                primitive (deref h le "default")) ->
  forall vp s,
    apart lv h (st_heap s) ->
    st_heap s !! lv = Some (Cell KObject vp) ->
    exists s',
      for_in ks (defaultField (VRef lv) schema options (VRef lf)) s = Ok None s' /\
      apart lv h (st_heap s') /\
      st_heap s' !! lv = Some (Cell KObject (filled h lf ks vp)) /\
      st_calls s' = st_calls s.
Proof.
  induction ks as [|k ks IH]; intros Hks vp s Ha Hv.
  - exists s. by destruct s.
  - destruct (defaultField_apart k vp s) as (s1 & Hstep & Ha1 & Hv1 & Hc1);
      [apply Hks; by left|done..|].
    destruct (IH (fun k' Hk' => Hks k' (list_elem_of_further _ _ _ Hk'))
                (fill_one h lf vp k) s1 Ha1 Hv1) as (s' & Hrun & Ha' & Hv' & Hc').
    exists s'. cbn [for_in]. rewrite (bind_Ok _ _ _ _ _ Hstep).
    repeat split; try done. congruence.
Qed.

End Loop.

Lemma prop_filled h lf ks vp k :
  prop k (filled h lf ks vp) =
    if bool_decide (k ∈ ks)
       && (negb (absent h (field_default h lf k)) && absent h (prop k vp))
    then field_default h lf k else prop k vp.
Proof.
  revert vp. induction ks as [|k0 ks IH]; intros vp; [done|].
  cbn [filled fold_left]. fold (filled h lf ks (fill_one h lf vp k0)).
  rewrite IH. unfold fill_one.
  destruct (decide (k = k0)) as [<-|Hne].
  - rewrite (bool_decide_eq_true_2 (k ∈ k :: ks)) by by left.
    cbn [andb].
    destruct (negb (absent h (field_default h lf k)) && absent h (prop k vp)) eqn:C.
    + rewrite prop_set_prop, String.eqb_refl.
      apply andb_prop in C as [Cd _]. apply negb_true_iff in Cd. rewrite Cd.
      cbn [negb andb]. by rewrite andb_false_r.
    + rewrite C. by rewrite andb_false_r.
  - assert (prop k (if negb (absent h (field_default h lf k0))
                       && absent h (prop k0 vp)
                    then set_prop k0 (field_default h lf k0) vp else vp)
            = prop k vp) as ->.
    { destruct (_ && _); [|done]. rewrite prop_set_prop.
      destruct (String.eqb k k0) eqn:E; [|done]. by apply String.eqb_eq in E. }
    assert (bool_decide (k ∈ k0 :: ks) = bool_decide (k ∈ ks)) as ->; [|done].
    apply bool_decide_ext. rewrite elem_of_cons. split; [intros [->|?]; done|by right].
Qed.

(** The defaults loop, when every default is a scalar. *)
Lemma setDefaults_scalars lv lf vp fp schema options s :
  st_heap s !! lv = Some (Cell KObject vp) ->
  st_heap s !! lf = Some (Cell KObject fp) ->
  lf <> lv ->
  (forall k, k ∈ map fst fp ->
     exists le, deref (st_heap s) lf k = VRef le /\ le <> lv /\
                primitive (deref (st_heap s) le "default")) ->
  setDefaults (VRef lv) schema options (VRef lf) s =
    Ok None
      (State (<[lv := Cell KObject (filled (st_heap s) lf (map fst fp) vp)]>
                (st_heap s))
         (st_calls s)).
Proof.
  intros Hv Hf Hne Hks. unfold setDefaults. rewrite bind_keysM.
  cbn [keys]. rewrite Hf. cbn [ckind cprops app].
  destruct (setDefaults_loop (st_heap s) lv lf vp schema options Hv Hne
              (map fst fp) Hks vp s (apart_refl _ _) Hv)
    as (s' & Hrun & Ha & Hv' & Hc).
  rewrite Hrun. f_equal. destruct s' as [h' c']. cbn in *. subst c'. f_equal.
  apply list_eq. intros l. destruct (decide (l = lv)) as [->|Hl].
  - rewrite Hv'. rewrite list_lookup_insert_eq; [done|]. by eapply lookup_lt_Some.
  - rewrite list_lookup_insert_ne by done. by apply Ha.
Qed.

(** The required sweep stops at the first required field that is unset. *)
Lemma requireField_eq lv lf le vp schema options key s :
  st_heap s !! lv = Some (Cell KObject vp) ->
  deref (st_heap s) lf key = VRef le ->
  requireField (VRef lv) schema options (VRef lf) key s =
    (if to_boolean (field_required (st_heap s) lf key)
        && unset (st_heap s) (prop key vp)
     then e <- fail (VStr "missingParam") (VStr key) (VRef lv) schema options ;;
          ret (Some e)
     else ret None) s.
Proof.
  intros Hv He. unfold requireField, field_required, unset, absent.
  rewrite bind_getp_ref, He, bind_getp_ref, bind_getp_ref, bind_classifyM.
  by rewrite (deref_cell _ _ _ _ Hv).
Qed.

Lemma checkRequired_loop lv lf vp schema options s ks :
  st_heap s !! lv = Some (Cell KObject vp) ->
  (forall k, k ∈ ks -> exists le, deref (st_heap s) lf k = VRef le) ->
  match first_missing (st_heap s) lf ks vp with
  | Some k =>
      exists e s',
        for_in ks (requireField (VRef lv) schema options (VRef lf)) s
          = Ok (Some (VRef e)) s' /\
        classify (st_heap s') (VRef e) = TError /\
        deref (st_heap s') e "code" = VStr "missingParam" /\
        deref (st_heap s') e "message" =
          VStr ("Missing Required Parameter: " +:+ k) /\
        st_calls s' = st_calls s
  | None =>
      for_in ks (requireField (VRef lv) schema options (VRef lf)) s = Ok None s
  end.
Proof.
  intros Hv. unfold first_missing.
  induction ks as [|k ks IH]; intros Hks; [done|].
  destruct (Hks k) as [le He]; [by left|].
  assert (for_in (k :: ks) (requireField (VRef lv) schema options (VRef lf)) s =
          if to_boolean (field_required (st_heap s) lf k)
             && unset (st_heap s) (prop k vp)
          then (e <- fail (VStr "missingParam") (VStr k) (VRef lv) schema options ;;
                ret (Some e)) s
          else for_in ks (requireField (VRef lv) schema options (VRef lf)) s) as ->.
  { cbn [for_in]. unfold bind at 1. rewrite (requireField_eq _ _ le vp) by done.
    destruct (_ && _); [|done].
    unfold bind. by destruct (fail _ _ _ _ _ s). }
  cbn [find].
  destruct (to_boolean (field_required (st_heap s) lf k)
            && unset (st_heap s) (prop k vp)).
  - pose proof (fail_new_error "missingParam" (VStr k) k (VRef lv) schema options s
                  (fun _ => eq_refl) (fun _ => eq_refl)) as Hf.
    apply returns_inv in Hf as (r & s' & Hrun & -> & Hlen & Hc & _ & Hcell).
    exists (S (length (st_heap s))), s'.
    rewrite (bind_Ok _ _ _ _ _ Hrun). unfold ret.
    split; [done|]. unfold deref. cbn [classify]. rewrite Hcell. done.
  - apply IH. intros k' Hk'. apply Hks. by right.
Qed.

Lemma checkRequired_eq lv lf vp fp schema options s :
  st_heap s !! lv = Some (Cell KObject vp) ->
  st_heap s !! lf = Some (Cell KObject fp) ->
  (forall k, k ∈ map fst fp -> exists le, deref (st_heap s) lf k = VRef le) ->
  match first_missing (st_heap s) lf (map fst fp) vp with
  | Some k =>
      exists e s',
        checkRequired (VRef lv) schema options (VRef lf) s = Ok (Some (VRef e)) s' /\
        classify (st_heap s') (VRef e) = TError /\
        deref (st_heap s') e "code" = VStr "missingParam" /\
        deref (st_heap s') e "message" =
          VStr ("Missing Required Parameter: " +:+ k) /\
        st_calls s' = st_calls s
  | None => checkRequired (VRef lv) schema options (VRef lf) s = Ok None s
  end.
Proof.
  intros Hv Hf Hks. unfold checkRequired. rewrite bind_keysM.
  cbn [keys]. rewrite Hf. cbn [ckind cprops app].
  by apply checkRequired_loop.
Qed.

(** [clone] of an object is its JSON round trip, or what that throws. *)
Definition outcome_value (r : completion) : val :=
  match r with Returned v | Thrown v => v end.

Lemma clone_object obj s h' r :
  tipe_is TObject (st_heap s) obj = true ->
  JSON_roundtrip (st_heap s) obj = (h', r) ->
  clone obj s = Ok (outcome_value r) (State h' (st_calls s)).
Proof.
  intros Ho Hj. unfold clone. rewrite bind_isM, Ho. cbn [negb].
  unfold try_catch, json_copy. rewrite Hj. by destruct r.
Qed.

(** One pass of the defaults loop, on a default that is an object. *)
Lemma defaultField_object lv lf le vp vp' schema options key s h' r :
  st_heap s !! lv = Some (Cell KObject vp) ->
  deref (st_heap s) lf key = VRef le ->
  let d := deref (st_heap s) le "default" in
  tipe_is TObject (st_heap s) d = true ->
  absent (st_heap s) (prop key vp) = true ->
  JSON_roundtrip (st_heap s) d = (h', r) ->
  h' !! lv = Some (Cell KObject vp') ->
  let c := outcome_value r in
  (tipe_is TError h' c = false ->
   defaultField (VRef lv) schema options (VRef lf) key s =
     Ok None (State (<[lv := Cell KObject (set_prop key c vp')]> h') (st_calls s))) /\
  (tipe_is TError h' c = true ->
   exists e s',
     defaultField (VRef lv) schema options (VRef lf) key s = Ok (Some (VRef e)) s' /\
     classify (st_heap s') (VRef e) = TError /\
     deref (st_heap s') e "code" = VStr "badSchema" /\
     deref (st_heap s') e "message" =
       VStr "Invalid Schema: Invalid default. Could not serialize as JSON." /\
     st_calls s' = st_calls s).
Proof.
  intros Hv He d Ho Hab Hj Hv' c.
  assert (defaultField (VRef lv) schema options (VRef lf) key s =
          (if tipe_is TError h' c
           then r <- fail (VStr "badSchema")
                       (VStr "Invalid default. Could not serialize as JSON.")
                       (VRef lv) schema options ;;
                ret (Some r)
           else ret None)
            (State (<[lv := Cell KObject (set_prop key c vp')]> h') (st_calls s)))
    as ->.
  { unfold defaultField.
    rewrite bind_getp_ref, He, bind_getp_ref. fold d.
    rewrite bind_classifyM, bind_getp_ref, bind_classifyM.
    rewrite (deref_cell _ _ _ _ Hv). cbn [cell_get ckind cprops].
    unfold absent in Hab. rewrite Hab.
    assert (tag_eqb (classify (st_heap s) d) TUndefined = false) as ->.
    { unfold tipe_is in Ho. by destruct (classify (st_heap s) d). }
    cbn [negb andb].
    rewrite (bind_Ok _ _ _ _ _ (clone_object _ _ _ _ Ho Hj)). fold c.
    rewrite bind_setp_ref. cbn [st_heap st_calls].
    rewrite bind_getp_ref. cbn [st_heap].
    rewrite (deref_store_object _ _ _ _ _ Hv' eq_refl).
    rewrite bind_isM. cbn [st_heap]. rewrite tipe_is_store.
    unfold store. by rewrite Hv'. }
  split; intros ->; [done|].
  set (s1 := State _ _).
  pose proof (fail_new_error "badSchema"
                (VStr "Invalid default. Could not serialize as JSON.")
                "Invalid default. Could not serialize as JSON."
                (VRef lv) schema options s1
                (fun _ => eq_refl) (fun _ => eq_refl)) as Hf.
  apply returns_inv in Hf as (r' & s' & Hrun & -> & Hlen & Hc & _ & Hcell).
  exists (S (length (st_heap s1))), s'.
  rewrite (bind_Ok _ _ _ _ _ Hrun). unfold ret.
  split; [done|]. unfold deref. cbn [classify]. rewrite Hcell. done.
Qed.

(** ** The object check, stage by stage *)

(** The object [checkobject] takes the fields from: [schema.value] when the
    schema is of the nested style, the schema itself otherwise. *)
Definition fieldsOf (h : heap) (ls : nat) (sp : props) : val :=
  if strict_equal (VStr "object") (prop "type" sp)
     && tipe_is TObject h (prop "value" sp)
  then prop "value" sp else VRef ls.

(** The strict pass lets a value through whose keys are all fields. *)
Lemma checkStrict_passes value schema options lf fp s :
  st_heap s !! lf = Some (Cell KObject fp) ->
  (forall k, k ∈ keys (st_heap s) value -> to_boolean (prop k fp) = true) ->
  checkStrict value schema options (VRef lf) s = Ok None s.
Proof.
  intros Hf. unfold checkStrict. rewrite bind_keysM.
  induction (keys (st_heap s) value) as [|k ks IH]; intros Hks; [done|].
  cbn [for_in]. unfold strictKey at 1. rewrite bind_bind, bind_getp_ref.
  rewrite (deref_cell _ _ _ _ Hf). cbn [cell_get ckind cprops].
  rewrite (Hks k) by by left. cbn [negb]. rewrite bind_ret.
  apply IH. intros k' Hk'. apply Hks. by right.
Qed.

Lemma unset_insert h l c c' v :
  h !! l = Some c -> unset (<[l := c']> h) v = unset h v.
Proof.
  intros Hc. unfold unset, absent. destruct v as [| | | | |l']; try done.
  cbn [classify]. destruct (decide (l' = l)) as [->|Hne].
  - rewrite list_lookup_insert_eq by by eapply lookup_lt_Some.
    rewrite Hc. by destruct (ckind c), (ckind c').
  - by rewrite list_lookup_insert_ne.
Qed.

Lemma first_missing_insert h lv lf c c' ks vp :
  h !! lv = Some c -> lf <> lv ->
  (forall k, k ∈ ks -> exists le, deref h lf k = VRef le /\ le <> lv) ->
  first_missing (<[lv := c']> h) lf ks vp = first_missing h lf ks vp.
Proof.
  intros Hc Hne. unfold first_missing.
  induction ks as [|k ks IH]; intros Hks; [done|]. cbn [find].
  destruct (Hks k) as (le & He & Hle); [by left|].
  assert (field_required (<[lv := c']> h) lf k = field_required h lf k) as ->.
  { unfold field_required, deref.
    rewrite list_lookup_insert_ne by done. fold (deref h lf k). rewrite He.
    by rewrite list_lookup_insert_ne. }
  rewrite (unset_insert _ _ _ _ _ Hc).
  destruct (_ && _); [done|]. apply IH. intros k' Hk'. apply Hks. by right.
Qed.

Lemma insert_same (h : heap) l c : h !! l = Some c -> <[l := c]> h = h.
Proof. apply list_insert_id. Qed.

(** A loop that goes through its first keys goes on with the rest. *)
Lemma for_in_app {A} ks1 ks2 (body : string -> M (option A)) s s1 :
  for_in ks1 body s = Ok None s1 ->
  for_in (ks1 ++ ks2) body s = for_in ks2 body s1.
Proof.
  revert s. induction ks1 as [|k ks1 IH]; intros s Hrun.
  - by injection Hrun as <-.
  - cbn [for_in app] in *. unfold bind in *.
    destruct (body k s) as [[a|] s0|x s0|]; try done. by apply IH.
Qed.

Section Stages.
Variable rec : val -> val -> val -> M val.
Variables (lv ls lf lo : nat) (vp sp fp : props) (s : state).
Hypothesis value_cell : st_heap s !! lv = Some (Cell KObject vp).
Hypothesis schema_cell : st_heap s !! ls = Some (Cell KObject sp).
Hypothesis fields_ref : fieldsOf (st_heap s) ls sp = VRef lf.
Hypothesis fields_cell : st_heap s !! lf = Some (Cell KObject fp).
Hypothesis fields_apart : lf <> lv.
Hypothesis options_apart : lo <> lv.
Hypothesis strict_passes :
  to_boolean (deref (st_heap s) lo "strict") = true ->
  forall k, k ∈ map fst vp -> to_boolean (prop k fp) = true.

(** Up to the defaults loop. *)
Lemma checkobject_strict :
  checkobject rec (VRef lv) (VRef ls) (VRef lo) s =
    (ignoreDefaults <- getp (VRef lo) "ignoreDefaults" ;;
     or_continue
       (if negb (to_boolean ignoreDefaults)
        then setDefaults (VRef lv) (VRef ls) (VRef lo) (VRef lf) else ret None)
       (ignoreRequired <- getp (VRef lo) "ignoreRequired" ;;
        or_continue
          (if negb (to_boolean ignoreRequired)
           then checkRequired (VRef lv) (VRef ls) (VRef lo) (VRef lf) else ret None)
          (or_continue (checkProperties rec (VRef lv) (VRef lf) (VRef lo))
             (ret (VRef lv))))) s.
Proof.
  unfold checkobject. rewrite bind_isM. unfold tipe_is at 1. cbn [classify].
  rewrite schema_cell. cbn [ckind tag_eqb negb].
  rewrite !bind_getp_ref, !(deref_cell _ _ _ _ schema_cell).
  cbn [cell_get ckind cprops]. rewrite bind_isM, bind_getp_ref.
  fold (fieldsOf (st_heap s) ls sp). rewrite fields_ref.
  unfold or_continue at 1.
  destruct (to_boolean (deref (st_heap s) lo "strict")) eqn:Hstrict.
  - rewrite (bind_Ok _ _ _ _ _
               (checkStrict_passes (VRef lv) (VRef ls) (VRef lo) lf fp s fields_cell
                  ltac:(intros k Hk; apply strict_passes; [done|];
                        cbn [keys] in Hk; rewrite value_cell in Hk; exact Hk))).
    done.
  - by rewrite bind_ret.
Qed.

Variable ks : list string.
Hypothesis fields_keys : map fst fp = ks.

(** The value as the defaults loop leaves it. *)
Definition after_defaults : props :=
  if to_boolean (deref (st_heap s) lo "ignoreDefaults") then vp
  else filled (st_heap s) lf ks vp.

Hypothesis entries :
  forall k, k ∈ ks ->
    exists le, deref (st_heap s) lf k = VRef le /\ le <> lv /\
               primitive (deref (st_heap s) le "default").

(** Past the defaults loop: the required sweep works on the value as the
    loop left it. *)
Lemma checkobject_defaults :
  checkobject rec (VRef lv) (VRef ls) (VRef lo) s =
    (or_continue
       (if negb (to_boolean (deref (st_heap s) lo "ignoreRequired"))
        then checkRequired (VRef lv) (VRef ls) (VRef lo) (VRef lf) else ret None)
       (or_continue (checkProperties rec (VRef lv) (VRef lf) (VRef lo))
          (ret (VRef lv))))
      (State (<[lv := Cell KObject after_defaults]> (st_heap s)) (st_calls s)).
Proof.
  rewrite checkobject_strict, bind_getp_ref. unfold after_defaults.
  assert (forall c k,
            deref (<[lv := c]> (st_heap s)) lo k = deref (st_heap s) lo k) as Hlo.
  { intros c k. unfold deref. by rewrite list_lookup_insert_ne. }
  destruct (to_boolean (deref (st_heap s) lo "ignoreDefaults")); cbn [negb].
  - unfold or_continue at 1. rewrite bind_ret, bind_getp_ref.
    rewrite (insert_same _ _ _ value_cell). by destruct s.
  - unfold or_continue at 1.
    rewrite (bind_Ok _ _ _ _ _
               (setDefaults_scalars lv lf vp fp (VRef ls) (VRef lo) s
                  value_cell fields_cell fields_apart
                  ltac:(rewrite fields_keys; exact entries))).
    rewrite bind_getp_ref. cbn [st_heap]. by rewrite Hlo, fields_keys.
Qed.

(** The required sweep, after the defaults. *)
Lemma checkobject_required :
  match (if to_boolean (deref (st_heap s) lo "ignoreRequired") then None
         else first_missing (st_heap s) lf ks after_defaults) with
  | Some k =>
      exists e s',
        checkobject rec (VRef lv) (VRef ls) (VRef lo) s = Ok (VRef e) s' /\
        classify (st_heap s') (VRef e) = TError /\
        deref (st_heap s') e "code" = VStr "missingParam" /\
        deref (st_heap s') e "message" =
          VStr ("Missing Required Parameter: " +:+ k) /\
        st_calls s' = st_calls s
  | None =>
      checkobject rec (VRef lv) (VRef ls) (VRef lo) s =
        or_continue (checkProperties rec (VRef lv) (VRef lf) (VRef lo))
          (ret (VRef lv))
          (State (<[lv := Cell KObject after_defaults]> (st_heap s)) (st_calls s))
  end.
Proof.
  rewrite checkobject_defaults.
  destruct (to_boolean (deref (st_heap s) lo "ignoreRequired")); cbn [negb].
  { unfold or_continue at 1. by rewrite bind_ret. }
  set (s1 := State _ _).
  assert (lv < length (st_heap s)) as Hlv by by eapply lookup_lt_Some.
  assert (st_heap s1 !! lv = Some (Cell KObject after_defaults)) as Hv1
    by (cbn; by rewrite list_lookup_insert_eq).
  assert (st_heap s1 !! lf = Some (Cell KObject fp)) as Hf1
    by (cbn; by rewrite list_lookup_insert_ne).
  pose proof (checkRequired_eq lv lf after_defaults fp (VRef ls) (VRef lo) s1
                Hv1 Hf1) as Hreq.
  rewrite fields_keys in Hreq.
  assert (first_missing (st_heap s1) lf ks after_defaults
          = first_missing (st_heap s) lf ks after_defaults) as Hfm.
  { apply (first_missing_insert _ _ _ _ _ _ _ value_cell fields_apart).
    intros k Hk. destruct (entries k Hk) as (le & He & Hle & _). by exists le. }
  rewrite Hfm in Hreq.
  assert (forall k, k ∈ ks -> exists le, deref (st_heap s1) lf k = VRef le) as Hks.
  { intros k Hk. destruct (entries k Hk) as (le & He & _). exists le.
    cbn. unfold deref. rewrite list_lookup_insert_ne by done. exact He. }
  specialize (Hreq Hks).
  destruct (first_missing (st_heap s) lf ks after_defaults) as [k|].
  - destruct Hreq as (e & s' & Hrun & Hcl & Hcode & Hmsg & Hc).
    exists e, s'. unfold or_continue at 1. rewrite (bind_Ok _ _ _ _ _ Hrun).
    done.
  - unfold or_continue at 1. by rewrite (bind_Ok _ _ _ _ _ Hreq).
Qed.

End Stages.

(** The defaults loop stops at a default that is an object and comes back
    from its JSON round trip as an Error. *)
Lemma checkobject_bad_default rec lv ls lf lo le vp vp' sp fp s ks1 key ks2 h' r :
  st_heap s !! lv = Some (Cell KObject vp) ->
  st_heap s !! ls = Some (Cell KObject sp) ->
  fieldsOf (st_heap s) ls sp = VRef lf ->
  st_heap s !! lf = Some (Cell KObject fp) ->
  lf <> lv -> lo <> lv -> le <> lv ->
  to_boolean (deref (st_heap s) lo "strict") = false ->
  to_boolean (deref (st_heap s) lo "ignoreDefaults") = false ->
  map fst fp = ks1 ++ key :: ks2 ->
  (forall k, k ∈ ks1 ->
     exists le, deref (st_heap s) lf k = VRef le /\ le <> lv /\
                primitive (deref (st_heap s) le "default")) ->
  deref (st_heap s) lf key = VRef le ->
  let d := deref (st_heap s) le "default" in
  let vp1 := filled (st_heap s) lf ks1 vp in
  tipe_is TObject (st_heap s) d = true ->
  absent (st_heap s) (prop key vp1) = true ->
  JSON_roundtrip (<[lv := Cell KObject vp1]> (st_heap s)) d = (h', r) ->
  h' !! lv = Some (Cell KObject vp') ->
  tipe_is TError h' (outcome_value r) = true ->
  exists e s',
    checkobject rec (VRef lv) (VRef ls) (VRef lo) s = Ok (VRef e) s' /\
    classify (st_heap s') (VRef e) = TError /\
    deref (st_heap s') e "code" = VStr "badSchema" /\
    deref (st_heap s') e "message" =
      VStr "Invalid Schema: Invalid default. Could not serialize as JSON." /\
    st_calls s' = st_calls s.
Proof.
  intros Hv Hs Hfr Hf Hlf Hlo Hle Hstrict Hid Hks Hks1 He d vp1 Hd Hab Hj Hv' Herr.
  rewrite (checkobject_strict rec lv ls lf lo vp sp fp s Hv Hs Hfr Hf)
    by by rewrite Hstrict.
  rewrite bind_getp_ref, Hid. cbn [negb]. unfold or_continue at 1.
  unfold setDefaults. rewrite bind_bind, bind_keysM. cbn [keys].
  rewrite Hf. cbn [ckind cprops app]. rewrite Hks.
  destruct (setDefaults_loop (st_heap s) lv lf vp (VRef ls) (VRef lo) Hv Hlf
              ks1 Hks1 vp s (apart_refl _ _) Hv)
    as (s1 & Hrun1 & Ha1 & Hv1 & Hc1).
  assert (st_heap s1 = <[lv := Cell KObject vp1]> (st_heap s)) as Hh1.
  { apply list_eq. intros l. destruct (decide (l = lv)) as [->|Hl].
    - rewrite Hv1, list_lookup_insert_eq; [done|]. by eapply lookup_lt_Some.
    - rewrite list_lookup_insert_ne by done. by apply Ha1. }
  assert (forall l k, l <> lv -> deref (st_heap s1) l k = deref (st_heap s) l k)
    as Hderef.
  { intros l k Hl. by apply (deref_apart lv). }
  assert (tipe_is TObject (st_heap s1) d = true) as Hd1.
  { unfold tipe_is.
    by rewrite (classify_apart lv (st_heap s) (st_heap s1) vp vp1 d Ha1 Hv Hv1). }
  assert (absent (st_heap s1) (prop key vp1) = true) as Hab1.
  { unfold absent.
    by rewrite (classify_apart lv (st_heap s) (st_heap s1) vp vp1 _ Ha1 Hv Hv1). }
  destruct (defaultField_object lv lf le vp1 vp' (VRef ls) (VRef lo) key s1 h' r)
    as [_ Hbad]; try done.
  { by rewrite Hderef. }
  { by rewrite Hderef. }
  { by rewrite Hderef, Hh1. }
  destruct (Hbad Herr) as (e & s' & Hrun & Hcl & Hcode & Hmsg & Hc).
  exists e, s'. unfold bind at 1.
  rewrite (for_in_app _ _ _ _ _ Hrun1). cbn [for_in]. unfold bind at 1.
  rewrite Hrun. cbn. repeat split; try done. congruence.
Qed.

(** ** C2 *)


End Fields.

Import Sample.

(** An empty value (0); fields [a], with default 5, and [b], with default
    [null], both required (1); a field [c] whose default is the object
    [{x: 1}] (4); a field [d] whose default holds itself (7); the value
    [{a: 5, b: null}] (10); the field [b] alone (11); the options [chk]
    starts from (12); and the field [a] alone (13). *)
Definition fields_store : list cell :=
  [Cell KObject [];
   Cell KObject [("a", VRef 2); ("b", VRef 3)];
   Cell KObject [("default", VNum 5); ("required", VBool true)];
   Cell KObject [("default", VNull); ("required", VBool true)];
   Cell KObject [("c", VRef 5)];
   Cell KObject [("default", VRef 6)];
   Cell KObject [("x", VNum 1)];
   Cell KObject [("d", VRef 8)];
   Cell KObject [("default", VRef 9)];
   Cell KObject [("self", VRef 9)];
   Cell KObject [("a", VNum 5); ("b", VNull)];
   Cell KObject [("b", VRef 3)];
   Cell KObject [("ignoreDefaults", VBool false); ("ignoreRequired", VBool false);
                 ("doNotCoerce", VBool false); ("strict", VBool false);
                 ("log", VBool false)];
   Cell KObject [("a", VRef 2)]].



(** * Checking a scalar twice *)

Section Rerun.
Context `{R : Runtime}.
Import Part000.

(** [fail] returns an Error, and invokes nothing. *)
Lemma fail_error code msg a0 a1 a2 s :
  exists r s',
    fail code msg a0 a1 a2 s = Ok r s' /\
    classify (st_heap s') r = TError /\ st_calls s' = st_calls s.
Proof.
  destruct (returns_inv _ _ _ (fail_post code msg a0 a1 a2 s))
    as (r & s' & Hrun & Hcl & Hc & _).
  by exists r, s'.
Qed.

(** What [fail] leaves alone, when the message is no object. *)
Lemma fail_keeps code msg a0 a1 a2 s :
  primitive msg ->
  exists r s',
    fail code msg a0 a1 a2 s = Ok r s' /\
    classify (st_heap s') r = TError /\ st_calls s' = st_calls s /\
    keeps (fun l => a2 <> VRef l) s s'.
Proof.
  intros Hm.
  destruct (returns_inv _ _ _ (fail_post code msg a0 a1 a2 s))
    as (r & s' & Hrun & Hcl & Hc & _ & Hk).
  exists r, s'. repeat split; try done.
  intros l c Hl. apply Hk. split; [done|].
  destruct (primitive_not_class (st_heap s) msg Hm) as [_ E]. by rewrite E.
Qed.

(** The verdict of [_chk] on a value that is no object, under a schema whose
    [value] is a scalar rule, if any, and that has no final validator. *)
Definition rejected (opts sp : props) (value : val) : bool :=
  let v := coerceValue (prop "doNotCoerce" opts) (prop "type" sp) value in
  missing (prop "ignoreRequired" opts) (prop "required" sp) value
  || mistyped (prop "type" sp) v
  || misvalued (prop "value" sp) v.

Lemma _chk_scalar_verdict fuel ls sp lo pp s value :
  st_heap s !! ls = Some (Cell KObject sp) ->
  st_heap s !! lo = Some (Cell KObject pp) ->
  lo <> ls ->
  primitive value ->
  primitive (prop "value" sp) ->
  primitive (prop "validate" sp) ->
  let opts := optionsOf (st_heap s) pp sp in
  let v := coerceValue (prop "doNotCoerce" opts) (prop "type" sp) value in
  exists r s',
    _chk (S fuel) value (VRef ls) (VRef lo) s = Ok r s' /\
    st_calls s' = st_calls s /\
    if rejected opts sp value
    then classify (st_heap s') r = TError
         /\ (primitive (prop "key" opts) -> keeps (fun l => l <> lo) s s')
    else r = v /\ length (st_heap s) <= length (st_heap s')
         /\ keeps (fun l => l <> lo) s s'.
Proof.
  intros Hs Hp Hne Hprim Hsv Hvf opts v.
  destruct (rejected opts sp value) eqn:Hrej.
  2:{ unfold rejected in Hrej. fold v in Hrej.
      apply orb_false_elim in Hrej as [Hrej Hval].
      apply orb_false_elim in Hrej as [Hreq Hty].
      destruct (_chk_scalar_pass fuel ls sp lo pp s value Hs Hp Hne Hprim
                  Hreq Hty Hval) as (s' & Hrun & Hc & Hlen & Hk).
      { rewrite (classify_primitive _ _ Hvf). by destruct (prop "validate" sp). }
      by exists v, s'. }
  assert (ls < length (st_heap s)) as Hls by by eapply lookup_lt_Some.
  assert (lo < length (st_heap s)) as Hlo by by eapply lookup_lt_Some.
  cbn [_chk]. mstep.
  unfold tipe_is at 1, classify at 1. rewrite Hs. cbn [ckind tag_eqb negb].
  rewrite (bind_Ok _ _ _ _ _ (override_objects _ _ _ _ _ Hp Hs)).
  fold (optionsOf (st_heap s) pp sp). fold opts.
  set (c := Cell KObject opts). mstep. rewrite deref_alloc_new.
  assert (exists h2,
            (h2 = st_heap s ++ [c]
             \/ h2 = logged (st_heap s ++ [c]) value (VRef ls) (VRef lo))
            /\ (if to_boolean (cell_get c "log")
                then log value (VRef ls) (VRef lo) else ret tt)
                 (State (st_heap s ++ [c]) (st_calls s))
               = Ok tt (State h2 (st_calls s))) as (h2 & Hh2 & Hlog).
  { destruct (to_boolean (cell_get c "log")).
    - eexists. split; [right; reflexivity|exact (log_eq _ _ _ (State _ _))].
    - eexists. split; [left; reflexivity|done]. }
  rewrite (bind_Ok _ _ _ _ _ Hlog). clear Hlog.
  assert (forall l, l < length (st_heap s) -> l <> lo -> h2 !! l = st_heap s !! l)
    as Hkeep.
  { intros l Hl Hl'. destruct Hh2 as [-> | ->].
    - by rewrite lookup_alloc_old.
    - rewrite lookup_logged, lookup_alloc_old; try done.
      + rewrite length_alloc. lia.
      + congruence. }
  assert (h2 !! length (st_heap s) = Some c) as Hc2.
  { destruct Hh2 as [-> | ->].
    - apply lookup_alloc_new.
    - rewrite lookup_logged, lookup_alloc_new; try done.
      + rewrite length_alloc. lia.
      + intros [= ->]. lia. }
  assert (h2 !! ls = Some (Cell KObject sp)) as Hs2
    by (rewrite Hkeep; done).
  clear Hh2.
  assert (forall a2 s',
            (forall l, a2 = VRef l -> l = lo \/ length (st_heap s) <= l) ->
            keeps (fun l => a2 <> VRef l) (State h2 (st_calls s)) s' ->
            keeps (fun l => l <> lo) s s') as Hframe.
  { intros a2 s' Ha2 Hk l c' Hl Hc'.
    assert (l < length (st_heap s)) as Hlt by by eapply lookup_lt_Some.
    apply Hk.
    - intros ->. destruct (Ha2 l eq_refl); [done|lia].
    - cbn [st_heap]. by rewrite Hkeep. }
  repeat mstep. rewrite (deref_cell _ _ _ _ Hs2), (deref_cell _ _ _ _ Hc2).
  cbn [cell_get ckind cprops c].
  rewrite (classify_primitive _ value Hprim).
  unfold rejected in Hrej. fold v in Hrej.
  fold (missing (prop "ignoreRequired" opts) (prop "required" sp) value).
  destruct (missing (prop "ignoreRequired" opts) (prop "required" sp) value).
  { (* required, and not there *)
    mstep. rewrite (deref_cell _ _ _ _ Hc2). cbn [cell_get ckind cprops c].
    destruct (returns_inv _ _ _
                (fail_post (VStr "missingParam") (prop "key" opts)
                   value (VRef ls) (VRef lo) (State h2 (st_calls s))))
      as (r & s' & Hrun & Hcl & Hc & _ & Hk).
    exists r, s'. split; [done|]. split; [done|]. split; [done|].
    intros Hkey. apply (Hframe (VRef lo)); [intros l [= <-]; by left|].
    intros l c' Hl. apply Hk. split; [done|].
    destruct (primitive_not_class h2 (prop "key" opts) Hkey) as [_ E].
    cbn [st_heap]. by rewrite E. }
  cbn [orb] in Hrej.
  rewrite (bind_Ok _ _ _ _ _ (coerceType_eq _ _ _ _)). cbn [st_heap].
  rewrite (deref_cell _ _ _ _ Hs2), (deref_cell _ _ _ _ Hc2).
  cbn [cell_get ckind cprops c]. fold v.
  assert (primitive v) as Hpv by by apply coerceValue_primitive.
  clearbody v. repeat mstep. rewrite (deref_cell _ _ _ _ Hs2). cbn [cell_get ckind cprops].
  rewrite (classify_primitive _ v Hpv), classify_string.
  fold (mistyped (prop "type" sp) v).
  destruct (mistyped (prop "type" sp) v).
  { (* not of the declared type *)
    destruct (fail_keeps (VStr "badType") (VStr (tag_name (classify [] v)))
                v (VRef ls) (VRef lo) (State h2 (st_calls s)))
      as (r & s' & Hrun & Hcl & Hc & Hk); [by intros l|].
    exists r, s'. split; [done|]. split; [done|]. split; [done|].
    intros _. apply (Hframe (VRef lo)); [intros l [= <-]; by left|done]. }
  cbn [orb] in Hrej.
  (* the scalar rules *)
  assert (exists r s',
            checkScalar v (VRef ls) (VRef (length (st_heap s)))
              (State h2 (st_calls s)) = Ok r s' /\
            classify (st_heap s') r = TError /\ st_calls s' = st_calls s /\
            keeps (fun l => VRef (length (st_heap s)) <> VRef l)
              (State h2 (st_calls s)) s')
    as (r & s' & Hsc & Hcl & Hc & Hk).
  { unfold checkScalar. repeat mstep.
    unfold tipe_is, classify at 1. rewrite Hs2. cbn [ckind tag_eqb negb orb].
    rewrite (classify_primitive _ v Hpv).
    unfold misvalued in Hrej.
    destruct (tag_eqb (classify [] v) TNull || tag_eqb (classify [] v) TUndefined);
      [done|].
    cbn [negb andb] in Hrej. repeat mstep.
    rewrite (deref_cell _ _ _ _ Hs2). cbn [cell_get ckind cprops].
    destruct (prop "value" sp) as [| | | | |l] eqn:Esv; try done;
      cbn [classify]; rewrite ?Hrej; repeat mstep;
      try (apply (fail_keeps _ _ _ _ _ (State h2 (st_calls s))); by intros l').
    by destruct (Hsv l). }
  assert (match classify [] v with
          | TObject => checkobject (_chk fuel) v (VRef ls) (VRef (length (st_heap s)))
          | TArray => checkArray (_chk fuel) v (VRef ls) (VRef (length (st_heap s)))
          | _ => checkScalar v (VRef ls) (VRef (length (st_heap s)))
          end = checkScalar v (VRef ls) (VRef (length (st_heap s)))) as ->.
  { by destruct v. }
  rewrite (bind_Ok _ _ _ _ _ Hsc). repeat mstep.
  unfold tipe_is at 1. rewrite Hcl. cbn [tag_eqb].
  exists r, s'. split; [done|]. split; [done|]. split; [done|].
  intros _. apply (Hframe (VRef (length (st_heap s)))); [|done].
  intros l [= <-]. by right.
Qed.

(** The options [chk] starts from, and those it makes of
    [{doNotCoerce: true}]. *)
Definition chkDefaults : props :=
  [("ignoreDefaults", VBool false); ("ignoreRequired", VBool false);
   ("doNotCoerce", VBool false); ("strict", VBool false); ("log", VBool false)].

Definition doNotCoerce_options (h : heap) (value schema : val) : props :=
  set_prop "rootSchema" schema
    (set_prop "rootValue" value
       (merged (classify (h ++ [Cell KObject chkDefaults] ++ [Cell KObject []]))
          chkDefaults [("doNotCoerce", VBool true)])).

Lemma chk_doNotCoerce fuel value ls sp lu s :
  st_heap s !! ls = Some (Cell KObject sp) ->
  st_heap s !! lu = Some (Cell KObject [("doNotCoerce", VBool true)]) ->
  chk fuel value (VRef ls) (VRef lu) s =
    bind (_chk fuel value (VRef ls) (VRef (S (length (st_heap s)))))
      (fun err => e <- isM TError err ;; ret (if e then err else VNull))
      (State (st_heap s ++ [Cell KObject chkDefaults]
                ++ [Cell KObject (doNotCoerce_options (st_heap s) value (VRef ls))])
         (st_calls s)).
Proof.
  intros Hs Hu.
  assert (lu < length (st_heap s)) as Hlu by by eapply lookup_lt_Some.
  unfold chk. mstep.
  unfold tipe_is at 1, classify at 1. rewrite Hs. cbn [ckind tag_eqb negb].
  mstep. fold chkDefaults.
  erewrite bind_Ok; cycle 1.
  { apply override_objects with (p1 := chkDefaults)
                                (p2 := [("doNotCoerce", VBool true)]); cbn [st_heap].
    - apply lookup_alloc_new.
    - by rewrite lookup_alloc_old. }
  cbn [st_heap st_calls]. rewrite length_alloc.
  repeat mstep. rewrite <- !app_assoc.
  replace (S (length (st_heap s))) with (length (st_heap s ++ [Cell KObject chkDefaults]))
    by by rewrite length_alloc.
  rewrite !app_assoc, !store_alloc_new. cbn [cell_set ckind cprops].
  rewrite <- !app_assoc. done.
Qed.

(** Whether an option of the schema replaces a boolean one does not depend
    on the store. *)
Lemma adopts_boolean h h' b x :
  adopts (classify h) (VBool b) x = adopts (classify h') (VBool b) x.
Proof.
  unfold adopts. cbn [classify tag_eqb orb].
  destruct x as [| | | | |l]; try done. cbn [classify].
  destruct (h !! l) as [[[] ?]|], (h' !! l) as [[[] ?]|]; done.
Qed.

Definition uncoerced (ty value : val) : Prop :=
  (forall str, value <> VStr str) \/
  (strict_equal ty (VStr "number") = false /\
   strict_equal ty (VStr "boolean") = false).

Lemma coerceValue_uncoerced dnc ty value :
  uncoerced ty value -> coerceValue dnc ty value = value.
Proof.
  intros [Hs|[Hn Hb]]; [by apply coerceValue_not_string|].
  unfold coerceValue. destruct (to_boolean dnc); [done|].
  destruct value; try done. by rewrite Hn, Hb.
Qed.

Lemma rejected_uncoerced opts sp value :
  uncoerced (prop "type" sp) value ->
  rejected opts sp value =
    missing (prop "ignoreRequired" opts) (prop "required" sp) value
    || mistyped (prop "type" sp) value
    || misvalued (prop "value" sp) value.
Proof. intros Hu. unfold rejected. by rewrite coerceValue_uncoerced. Qed.

Lemma ignoreRequired_first h value schema sp :
  prop "ignoreRequired" (optionsOf h (defaultOptions value schema) sp) =
    if bool_decide ("ignoreRequired" ∈ map fst sp)
       && adopts (classify []) (VBool false) (prop "ignoreRequired" sp)
    then prop "ignoreRequired" sp else VBool false.
Proof.
  unfold optionsOf. rewrite prop_merged. cbn [prop assoc defaultOptions String.eqb Ascii.eqb Bool.eqb].
  by rewrite (adopts_boolean _ []).
Qed.

Lemma ignoreRequired_second h h' value schema sp :
  prop "ignoreRequired" (optionsOf h' (doNotCoerce_options h value schema) sp) =
    if bool_decide ("ignoreRequired" ∈ map fst sp)
       && adopts (classify []) (VBool false) (prop "ignoreRequired" sp)
    then prop "ignoreRequired" sp else VBool false.
Proof.
  unfold optionsOf, doNotCoerce_options. rewrite prop_merged.
  rewrite !prop_set_prop. cbn [String.eqb Ascii.eqb Bool.eqb].
  rewrite prop_merged. cbn [map fst].
  rewrite (bool_decide_eq_false_2 ("ignoreRequired" ∈ ["doNotCoerce"])); cycle 1.
  { intros Hin. apply list_elem_of_singleton in Hin. discriminate. }
  cbn [andb prop assoc chkDefaults String.eqb Ascii.eqb Bool.eqb].
  by rewrite (adopts_boolean _ []).
Qed.

(** ** A scalar, checked twice

    A value that is no object, checked against a schema whose [value] is a
    scalar rule, if any, and that has no final validator, where no coercion
    applies: the value is not a string, or the declared type is neither
    'number' nor 'boolean'.  When the check passes, so does the check
    without coercion after it. *)
Lemma chk_scalar_rerun fuel value ls sp lu s s1 :
  st_heap s !! ls = Some (Cell KObject sp) ->
  st_heap s !! lu = Some (Cell KObject [("doNotCoerce", VBool true)]) ->
  primitive value ->
  primitive (prop "value" sp) ->
  primitive (prop "validate" sp) ->
  uncoerced (prop "type" sp) value ->
  chk (S fuel) value (VRef ls) VUndef s = Ok VNull s1 ->
  exists s2, chk (S fuel) value (VRef ls) (VRef lu) s1 = Ok VNull s2.
Proof.
  intros Hs Hu Hprim Hsv Hvf Hun Hrun1.
  assert (ls < length (st_heap s)) as Hls by by eapply lookup_lt_Some.
  assert (lu < length (st_heap s)) as Hlu by by eapply lookup_lt_Some.
  (* the first run *)
  rewrite (chk_no_options _ _ _ _ _ Hs) in Hrun1.
  set (s0 := State (st_heap s ++ [Cell KObject (defaultOptions value (VRef ls))])
               (st_calls s)) in Hrun1.
  destruct (_chk_scalar_verdict fuel ls sp (length (st_heap s))
              (defaultOptions value (VRef ls)) s0 value) as (r & s' & Hrun & Hc & Hv);
    try done.
  { cbn [st_heap s0]. by rewrite lookup_alloc_old. }
  { apply lookup_alloc_new. }
  { lia. }
  rewrite (bind_Ok _ _ _ _ _ Hrun), bind_isM in Hrun1. unfold ret in Hrun1.
  rewrite rejected_uncoerced, ignoreRequired_first in Hv by done.
  destruct (_ || _ || _) eqn:Hrej.
  { destruct Hv as [Hv _]. unfold tipe_is in Hrun1. rewrite Hv in Hrun1.
    cbn in Hrun1. injection Hrun1 as -> _. done. }
  destruct Hv as (-> & Hlen & Hk).
  assert (s1 = s') as -> by (destruct (tipe_is _ _ _); congruence).
  assert (st_heap s' !! ls = Some (Cell KObject sp)) as Hs'.
  { apply Hk; [lia|]. cbn [st_heap s0]. by rewrite lookup_alloc_old. }
  assert (st_heap s' !! lu = Some (Cell KObject [("doNotCoerce", VBool true)]))
    as Hu'.
  { apply Hk; [lia|]. cbn [st_heap s0]. by rewrite lookup_alloc_old. }
  (* the second run *)
  rewrite (chk_doNotCoerce _ _ _ _ _ _ Hs' Hu').
  set (pp := doNotCoerce_options (st_heap s') value (VRef ls)).
  set (s2 := State _ _).
  assert (ls < length (st_heap s')) as Hls' by by eapply lookup_lt_Some.
  destruct (_chk_scalar_verdict fuel ls sp (S (length (st_heap s'))) pp s2 value)
    as (r2 & s3 & Hrun2 & Hc2 & Hv2); try done.
  { cbn [st_heap s2]. by apply lookup_app_l_Some. }
  { cbn [st_heap s2]. rewrite app_assoc.
    replace (S (length (st_heap s')))
      with (length (st_heap s' ++ [Cell KObject chkDefaults]))
      by by rewrite length_alloc.
    apply lookup_alloc_new. }
  { lia. }
  rewrite rejected_uncoerced in Hv2 by done.
  unfold pp in Hv2. rewrite ignoreRequired_second, Hrej in Hv2.
  destruct Hv2 as (-> & _).
  rewrite (bind_Ok _ _ _ _ _ Hrun2), bind_isM. unfold ret.
  exists s3. rewrite coerceValue_uncoerced by done.
  by destruct (primitive_not_class (st_heap s3) value Hprim) as [_ ->].
Qed.

End Rerun.

(** * Checking a flat object twice *)

Section Flat.
Context `{R : Runtime}.
Import Part000.

(** ** What the check of one field comes to *)

(** An option of the parent, a boolean [b], as the schema of the field
    leaves it: a boolean of the schema under the same key replaces it. *)
Definition effective (k : string) (b : bool) (ep : props) : val :=
  if bool_decide (k ∈ map fst ep) && adopts (classify []) (VBool b) (prop k ep)
  then prop k ep else VBool b.

(** The two options that bear on a scalar, when the caller's [doNotCoerce]
    is [u]. *)
Definition field_options (u : bool) (ep : props) : props :=
  [("ignoreRequired", effective "ignoreRequired" false ep);
   ("doNotCoerce", effective "doNotCoerce" u ep)].

(** The value the check of a field puts back, if it passes. *)
Definition field_verdict (u : bool) (ep : props) (x : val) : option val :=
  if rejected (field_options u ep) ep x then None
  else Some (coerceValue (prop "doNotCoerce" (field_options u ep))
               (prop "type" ep) x).

Lemma prop_optionsOf h pp ep k b :
  prop k pp = VBool b -> prop k (optionsOf h pp ep) = effective k b ep.
Proof.
  intros Hk. unfold optionsOf, effective. rewrite prop_merged, Hk.
  by rewrite (adopts_boolean _ []).
Qed.

Lemma rejected_options opts opts' ep x :
  prop "ignoreRequired" opts = prop "ignoreRequired" opts' ->
  prop "doNotCoerce" opts = prop "doNotCoerce" opts' ->
  rejected opts ep x = rejected opts' ep x.
Proof. intros Hi Hd. unfold rejected. by rewrite Hi, Hd. Qed.

(** The parent's options, as far as a field's check depends on them. *)
Definition flags (u : bool) (pp : props) : Prop :=
  prop "ignoreRequired" pp = VBool false /\ prop "doNotCoerce" pp = VBool u.

Lemma flags_set_key u pp x : flags u pp -> flags u (set_prop "key" x pp).
Proof. intros [Hi Hd]. split; by rewrite prop_set_prop. Qed.

Lemma flags_logged u pp :
  flags u pp -> flags u (del_prop "rootValue" (del_prop "rootSchema" pp)).
Proof. intros [Hi Hd]. split; by rewrite !prop_del_prop. Qed.

Lemma lookup_logged_options h a0 a1 lo pp :
  h !! lo = Some (Cell KObject pp) ->
  logged h a0 a1 (VRef lo) !! lo =
    Some (Cell KObject (del_prop "rootValue" (del_prop "rootSchema" pp))).
Proof.
  intros Hlo. unfold logged.
  assert (tipe_is TObject h (VRef lo) = true) as ->
    by (unfold tipe_is; cbn; by rewrite Hlo).
  assert (lo < length h) by by eapply lookup_lt_Some.
  rewrite lookup_app_l by by rewrite !length_remove.
  rewrite (lookup_remove_eq _ _ _ (Cell KObject (del_prop "rootSchema" pp)));
    [done|].
  by rewrite (lookup_remove_eq _ _ _ _ Hlo).
Qed.

Lemma key_optionsOf h pp ep key :
  prop "key" pp = VStr key -> primitive (prop "key" (optionsOf h pp ep)).
Proof.
  intros Hk. unfold optionsOf. rewrite prop_merged, Hk.
  destruct (bool_decide _); cbn [andb]; [|by intros l].
  unfold adopts. cbn [classify tag_eqb orb].
  destruct (prop "key" ep) as [| | | | |l]; cbn [classify tag_eqb]; try by intros l'.
  destruct (_ !! l) as [[[] ?]|]; by intros l'.
Qed.

(** The check of a scalar field, with the store it leaves. *)
Lemma _chk_field fuel u le ep lo pp s x :
  st_heap s !! le = Some (Cell KObject ep) ->
  st_heap s !! lo = Some (Cell KObject pp) ->
  lo <> le ->
  flags u pp ->
  (exists key, prop "key" pp = VStr key) ->
  primitive x ->
  primitive (prop "value" ep) ->
  primitive (prop "validate" ep) ->
  exists r s',
    _chk (S fuel) x (VRef le) (VRef lo) s = Ok r s' /\
    st_calls s' = st_calls s /\
    match field_verdict u ep x with
    | None => classify (st_heap s') r = TError /\ keeps (fun l => l <> lo) s s'
    | Some v =>
        r = v /\
        length (st_heap s) <= length (st_heap s') /\
        (forall l, l < length (st_heap s) -> l <> lo ->
                   st_heap s' !! l = st_heap s !! l) /\
        exists pp', st_heap s' !! lo = Some (Cell KObject pp') /\ flags u pp'
    end.
Proof.
  intros He Hlo Hne [Hi Hd] [key Hkey] Hx Hsv Hvf.
  assert (lo < length (st_heap s)) as Hlt by by eapply lookup_lt_Some.
  unfold field_verdict.
  rewrite (rejected_options (field_options u ep) (optionsOf (st_heap s) pp ep)).
  2:{ by rewrite (prop_optionsOf _ _ _ _ false). }
  2:{ by rewrite (prop_optionsOf _ _ _ _ u). }
  assert (prop "doNotCoerce" (field_options u ep)
          = prop "doNotCoerce" (optionsOf (st_heap s) pp ep)) as ->
    by by rewrite (prop_optionsOf _ _ _ _ u).
  destruct (rejected (optionsOf (st_heap s) pp ep) ep x) eqn:Hrej.
  - destruct (_chk_scalar_verdict fuel le ep lo pp s x He Hlo Hne Hx Hsv Hvf)
      as (r & s' & Hrun & Hc & Hv).
    rewrite Hrej in Hv. destruct Hv as [Hcl Hk].
    exists r, s'. split; [done|]. split; [done|]. split; [done|].
    apply Hk. by eapply key_optionsOf.
  - unfold rejected in Hrej.
    apply orb_false_elim in Hrej as [Hrej Hval].
    apply orb_false_elim in Hrej as [Hreq Hty].
    destruct (_chk_scalar_pass_store fuel le ep lo pp s x He Hlo Hne Hx
                Hreq Hty Hval) as (h2 & Hh2 & Hrun).
    { rewrite (classify_primitive _ _ Hvf). by destruct (prop "validate" ep). }
    eexists _, _. split; [exact Hrun|]. cbn [st_heap st_calls].
    split; [done|]. split; [done|].
    destruct Hh2 as [-> | ->].
    + split; [rewrite length_alloc; lia|]. split.
      * intros l Hl _. by rewrite lookup_alloc_old.
      * exists pp. by rewrite lookup_alloc_old.
    + split; [|split].
      * unfold logged. rewrite length_app. destruct (tipe_is _ _ _);
          rewrite ?length_remove, length_alloc; cbn; lia.
      * intros l Hl Hl'. rewrite lookup_logged, lookup_alloc_old; try done.
        -- rewrite length_alloc. lia.
        -- congruence.
      * eexists. split.
        -- apply lookup_logged_options. by rewrite lookup_alloc_old.
        -- by apply flags_logged.
Qed.

(** ** Fields whose schemas check scalars

    [E] gives the schema of each field: every property of the fields
    object [sp] is an object, apart from the value at [lv], whose default
    and rule are scalars, if any, and which has no final validator. *)
Definition scalar_fields (h : heap) (lv : nat) (sp : props)
    (E : string -> option props) : Prop :=
  (forall k, k ∈ map fst sp ->
     exists le ep,
       prop k sp = VRef le /\ h !! le = Some (Cell KObject ep) /\ le <> lv /\
       E k = Some ep /\
       primitive (prop "default" ep) /\ primitive (prop "value" ep) /\
       primitive (prop "validate" ep)) /\
  (forall k, k ∉ map fst sp -> E k = None).

(** The schema of the field [k], as the store has it. *)
Definition entry_props (h : heap) (sp : props) (k : string) : option props :=
  if bool_decide (k ∈ map fst sp) then
    match prop k sp with
    | VRef le =>
        match h !! le with
        | Some (Cell KObject ep) => Some ep
        | _ => None
        end
    | _ => None
    end
  else None.

(** ** The loop over the properties of the value

    [hb] is the store when the loop starts: the fields object at [lf],
    every one of its properties the schema of a scalar; the options of this
    level at [lo], above all of that. *)
Section Fields.
Variables (fuel : nat) (u : bool) (lv lf lo : nat) (hb : heap) (sp : props).
Variable E : string -> option props.
Hypothesis fields_cell : hb !! lf = Some (Cell KObject sp).
Hypothesis value_below : lv < length hb.
Hypothesis fields_apart : lf <> lv.
Hypothesis options_fresh : length hb <= lo.
Hypothesis entries : scalar_fields hb lv sp E.

(** One pass of the loop, on the properties of the value. *)
Definition field_step (acc : option props) (k : string) : option props :=
  match acc with
  | None => None
  | Some vp =>
      match E k with
      | Some ep =>
          match field_verdict u ep (prop k vp) with
          | Some v => Some (set_prop k v vp)
          | None => None
          end
      | None => Some vp
      end
  end.

Definition loop_inv (acc : props) (s : state) : Prop :=
  st_heap s !! lv = Some (Cell KObject acc) /\
  (exists pp, st_heap s !! lo = Some (Cell KObject pp) /\ flags u pp) /\
  (forall l, l < length hb -> l <> lv -> st_heap s !! l = hb !! l) /\
  (forall k, k ∈ map fst sp -> primitive (prop k acc)).

Lemma checkProperty_step k acc s :
  loop_inv acc s ->
  exists res s',
    checkProperty (_chk (S fuel)) (VRef lv) (VRef lf) (VRef lo) k s = Ok res s' /\
    st_calls s' = st_calls s /\
    match field_step (Some acc) k with
    | Some acc' => res = None /\ loop_inv acc' s'
    | None => exists e, res = Some e /\ classify (st_heap s') e = TError
    end.
Proof.
  intros (Hv & (pp & Hlo & Hfl) & Hfr & Hprim).
  assert (lf < length hb) as Hlf by by eapply lookup_lt_Some.
  assert (st_heap s !! lf = Some (Cell KObject sp)) as Hf
    by by rewrite Hfr.
  assert (lv <> lo) as Hvo by lia.
  assert (lo < length (st_heap s)) as Hlo_lt by by eapply lookup_lt_Some.
  unfold checkProperty. rewrite bind_getp_ref, (deref_cell _ _ _ _ Hf).
  cbn [cell_get ckind cprops field_step].
  destruct (decide (k ∈ map fst sp)) as [Hin|Hout].
  2:{ rewrite (proj2 entries k Hout), (prop_not_elem _ _ Hout).
      rewrite bind_isM. cbn. exists None, s. repeat split; try done.
      by exists pp. }
  destruct (proj1 entries k Hin) as (le & ep & Hk & Hle & Hlev & HE & _ & Hsv & Hvf).
  assert (le < length hb) as Hlt by by eapply lookup_lt_Some.
  assert (st_heap s !! le = Some (Cell KObject ep)) as Hle'
    by by rewrite Hfr.
  rewrite HE, Hk.
  rewrite bind_isM. unfold tipe_is at 1. cbn [classify]. rewrite Hle'.
  cbn [ckind tag_eqb].
  rewrite bind_setp_ref. cbn [st_heap st_calls].
  unfold store at 1. rewrite Hlo. cbn [cell_set ckind cprops].
  set (ha := <[lo := Cell KObject (set_prop "key" (VStr k) pp)]> (st_heap s)).
  assert (forall l, l <> lo -> ha !! l = st_heap s !! l) as Ha
    by (intros l Hl; unfold ha; by rewrite list_lookup_insert_ne).
  assert (ha !! lo = Some (Cell KObject (set_prop "key" (VStr k) pp))) as Hlo_a.
  { unfold ha. rewrite list_lookup_insert_eq; [done|]. by eapply lookup_lt_Some. }
  assert (length ha = length (st_heap s)) as Hlen_a
    by (unfold ha; by rewrite length_insert).
  rewrite bind_getp_ref. cbn [st_heap].
  assert (deref ha lv k = prop k acc) as ->.
  { unfold deref. by rewrite Ha, Hv. }
  rewrite bind_getp_ref. cbn [st_heap].
  assert (deref ha lf k = VRef le) as ->.
  { unfold deref. rewrite Ha by lia. by rewrite Hf. }
  destruct (_chk_field fuel u le ep lo (set_prop "key" (VStr k) pp)
              (State ha (st_calls s)) (prop k acc))
    as (r & s1 & Hrun & Hc & Hverdict); cbn [st_heap]; try done.
  { rewrite Ha by lia. done. }
  { lia. }
  { by apply flags_set_key. }
  { exists k. by rewrite prop_set_prop. }
  { by apply Hprim. }
  rewrite (bind_Ok _ _ _ _ _ Hrun).
  rewrite bind_setp_ref, bind_getp_ref. cbn [st_heap st_calls].
  assert (lv < length (st_heap s)) as Hlv by by eapply lookup_lt_Some.
  destruct (field_verdict u ep (prop k acc)) as [v|] eqn:Hfv.
  - destruct Hverdict as (-> & Hlen & Hfr1 & pp' & Hlo1 & Hfl1).
    cbn [st_heap] in *.
    assert (st_heap s1 !! lv = Some (Cell KObject acc)) as Hv1.
    { rewrite Hfr1, Ha; try done. lia. }
    rewrite (deref_store_object _ _ _ _ _ Hv1 eq_refl), bind_isM.
    cbn [st_heap].
    assert (primitive v) as Hpv.
    { unfold field_verdict in Hfv. destruct (rejected _ _ _); [done|].
      injection Hfv as <-. by apply coerceValue_primitive, Hprim. }
    destruct (primitive_not_class
                (store (st_heap s1) lv k v) v Hpv) as [_ ->].
    exists None, (State (store (st_heap s1) lv k v) (st_calls s1)).
    split; [done|]. split; [done|]. split; [done|].
    unfold loop_inv, store. rewrite Hv1. cbn [cell_set ckind cprops st_heap].
    split; [|split; [|split]].
    + rewrite list_lookup_insert_eq; [done|]. by eapply lookup_lt_Some.
    + exists pp'. by rewrite list_lookup_insert_ne.
    + intros l Hl Hlne. rewrite list_lookup_insert_ne by done.
      rewrite Hfr1, Ha; [by apply Hfr|lia..].
    + intros k' Hk'. rewrite prop_set_prop.
      destruct (String.eqb k' k); [done|by apply Hprim].
  - destruct Hverdict as [Hcl Hkeep].
    assert (st_heap s1 !! lv = Some (Cell KObject acc)) as Hv1.
    { apply Hkeep; [done|]. cbn [st_heap]. by rewrite Ha. }
    rewrite (deref_store_object _ _ _ _ _ Hv1 eq_refl), bind_isM.
    cbn [st_heap]. rewrite tipe_is_store. unfold tipe_is. rewrite Hcl.
    cbn [tag_eqb].
    eexists _, _. split; [done|]. cbn [st_heap st_calls]. split; [done|].
    eexists. split; [done|]. by rewrite classify_store.
Qed.

Lemma field_step_none ks : fold_left field_step ks None = None.
Proof. by induction ks. Qed.

Lemma checkProperties_loop ks acc s :
  loop_inv acc s ->
  exists res s',
    for_in ks (checkProperty (_chk (S fuel)) (VRef lv) (VRef lf) (VRef lo)) s
      = Ok res s' /\
    st_calls s' = st_calls s /\
    match fold_left field_step ks (Some acc) with
    | Some acc' => res = None /\ loop_inv acc' s'
    | None => exists e, res = Some e /\ classify (st_heap s') e = TError
    end.
Proof.
  revert acc s. induction ks as [|k ks IH]; intros acc s Hinv.
  - exists None, s. done.
  - destruct (checkProperty_step k acc s Hinv) as (res & s1 & Hrun & Hc & Hstep).
    cbn [for_in fold_left]. rewrite (bind_Ok _ _ _ _ _ Hrun).
    destruct (field_step (Some acc) k) as [acc1|].
    + destruct Hstep as [-> Hinv1].
      destruct (IH acc1 s1 Hinv1) as (res' & s' & Hrun' & Hc' & Hfold).
      exists res', s'. split; [done|]. split; [congruence|done].
    + destruct Hstep as (e & -> & Hcl). rewrite field_step_none.
      exists (Some e), s1. split; [done|]. split; [done|]. by exists e.
Qed.

End Fields.

(** ** What the check of a flat object comes to *)

Definition undefined (v : val) : bool := tag_eqb (classify [] v) TUndefined.

Definition nothing (v : val) : bool :=
  undefined v || tag_eqb (classify [] v) TNull.

Definition default_of (E : string -> option props) (k : string) : val :=
  match E k with Some ep => prop "default" ep | None => VUndef end.

Definition required_of (E : string -> option props) (k : string) : val :=
  match E k with Some ep => prop "required" ep | None => VUndef end.

Definition default_step (E : string -> option props) (vp : props) (k : string)
  : props :=
  let d := default_of E k in
  if negb (undefined d) && undefined (prop k vp) then set_prop k d vp else vp.

Definition defaulted (E : string -> option props) (ks : list string) (vp : props)
  : props :=
  fold_left (default_step E) ks vp.

Definition missing_field (E : string -> option props) (ks : list string)
    (vp : props) : option string :=
  List.find (fun k => to_boolean (required_of E k) && nothing (prop k vp)) ks.

(** The properties of the value after a check that passes; [None] when the
    check fails.  [ks] are the keys of the fields. *)
Definition flat_result (u : bool) (E : string -> option props)
    (ks : list string) (vp : props) : option props :=
  let vp1 := defaulted E ks vp in
  match missing_field E ks vp1 with
  | Some _ => None
  | None => fold_left (field_step u E) (map fst vp1) (Some vp1)
  end.

Lemma absent_primitive h v : primitive v -> absent h v = undefined v.
Proof. intros Hv. unfold absent, undefined. by rewrite (classify_primitive h). Qed.

Lemma unset_primitive h v : primitive v -> unset h v = nothing v.
Proof.
  intros Hv. unfold unset, nothing. rewrite (absent_primitive _ _ Hv).
  by rewrite (classify_primitive h).
Qed.

Section Bridge.
Variables (h : heap) (lv lf : nat) (sp : props) (E : string -> option props).
Hypothesis fields_cell : h !! lf = Some (Cell KObject sp).
Hypothesis entries : scalar_fields h lv sp E.

Lemma field_default_of k :
  k ∈ map fst sp ->
  field_default h lf k = default_of E k /\ primitive (default_of E k).
Proof.
  intros Hk. destruct (proj1 entries k Hk) as (le & ep & Hp & Hle & _ & HE & Hd & _).
  unfold field_default, default_of. rewrite HE.
  rewrite (deref_cell _ _ _ _ fields_cell). cbn [cell_get ckind cprops].
  rewrite Hp, (deref_cell _ _ _ _ Hle). done.
Qed.

Lemma field_required_of k :
  k ∈ map fst sp -> field_required h lf k = required_of E k.
Proof.
  intros Hk. destruct (proj1 entries k Hk) as (le & ep & Hp & Hle & _ & HE & _).
  unfold field_required, required_of. rewrite HE.
  rewrite (deref_cell _ _ _ _ fields_cell). cbn [cell_get ckind cprops].
  by rewrite Hp, (deref_cell _ _ _ _ Hle).
Qed.

Lemma default_step_primitive vp k k' :
  k ∈ map fst sp -> primitive (prop k' vp) -> primitive (prop k' (default_step E vp k)).
Proof.
  intros Hk Hp. unfold default_step. destruct (_ && _); [|done].
  rewrite prop_set_prop. destruct (String.eqb k' k); [|done].
  by apply field_default_of.
Qed.

Lemma defaulted_primitive ks vp k' :
  (forall k, k ∈ ks -> k ∈ map fst sp) ->
  primitive (prop k' vp) -> primitive (prop k' (defaulted E ks vp)).
Proof.
  revert vp. induction ks as [|k ks IH]; intros vp Hks Hp; [done|].
  cbn [defaulted fold_left]. apply IH.
  - intros k0 Hk0. apply Hks. by right.
  - apply default_step_primitive; [apply Hks; by left|done].
Qed.

Lemma filled_defaulted ks vp :
  (forall k, k ∈ ks -> k ∈ map fst sp) ->
  (forall k, k ∈ map fst sp -> primitive (prop k vp)) ->
  filled h lf ks vp = defaulted E ks vp.
Proof.
  revert vp. induction ks as [|k ks IH]; intros vp Hks Hp; [done|].
  cbn [filled defaulted fold_left].
  assert (k ∈ map fst sp) as Hk by (apply Hks; by left).
  assert (fill_one h lf vp k = default_step E vp k) as ->.
  { unfold fill_one, default_step.
    destruct (field_default_of k Hk) as [-> Hd].
    by rewrite (absent_primitive _ _ Hd), (absent_primitive _ _ (Hp k Hk)). }
  apply IH.
  - intros k0 Hk0. apply Hks. by right.
  - intros k0 Hk0. by apply default_step_primitive, Hp.
Qed.

Lemma first_missing_field ks vp :
  (forall k, k ∈ ks -> k ∈ map fst sp) ->
  (forall k, k ∈ map fst sp -> primitive (prop k vp)) ->
  first_missing h lf ks vp = missing_field E ks vp.
Proof.
  intros Hks Hp. unfold first_missing, missing_field.
  induction ks as [|k ks IH]; [done|]. cbn [find].
  assert (k ∈ map fst sp) as Hk by (apply Hks; by left).
  rewrite (field_required_of k Hk), (unset_primitive _ _ (Hp k Hk)).
  destruct (_ && _); [done|]. apply IH. intros k0 Hk0. apply Hks. by right.
Qed.

End Bridge.

(** ** The second check of what the first one leaves *)

Lemma coerceNumber_cases str :
  coerceNumber str = VStr str \/ exists f, coerceNumber str = VNum f.
Proof.
  unfold coerceNumber.
  destruct (PrimFloat.ltb _ _).
  - right. destruct (strict_equal _ _); by eexists.
  - destruct (to_boolean _).
    + right. destruct (strict_equal _ _); by eexists.
    + destruct (strict_equal _ _); [right; by eexists|by left].
Qed.

(** Coercion leaves what it made alone. *)
Lemma coerceValue_again d ty x :
  coerceValue d ty (coerceValue d ty x) = coerceValue d ty x.
Proof.
  unfold coerceValue. destruct (to_boolean d); [done|].
  destruct x as [| | | |str|]; try done.
  destruct (strict_equal ty (VStr "number")) eqn:En.
  - destruct (coerceNumber_cases str) as [E|[f E]]; rewrite E; [|done].
    by rewrite ?En.
  - destruct (strict_equal ty (VStr "boolean")) eqn:Eb; [done|].
    done.
Qed.

(** Coercion makes nothing of something, nor something of nothing. *)
Lemma coerceValue_tag d ty x :
  undefined (coerceValue d ty x) = undefined x /\
  nothing (coerceValue d ty x) = nothing x.
Proof.
  unfold coerceValue. destruct (to_boolean d); [done|].
  destruct x as [| | | |str|]; try done.
  destruct (strict_equal ty (VStr "number")).
  - by destruct (coerceNumber_cases str) as [E|[f E]]; rewrite E.
  - by destruct (strict_equal ty (VStr "boolean")).
Qed.

Lemma effective_flag k u ep :
  effective k u ep = VBool u \/
  (exists b, effective k true ep = VBool b /\ effective k false ep = VBool b).
Proof.
  unfold effective, adopts. cbn [classify tag_eqb orb].
  destruct (bool_decide _); cbn [andb]; [|by left].
  destruct (prop k ep) as [| |b| | |l]; cbn [classify tag_eqb]; try by left.
  right. by exists b.
Qed.

(** What passes with coercion passes again as it is. *)
Lemma field_verdict_again ep x v :
  field_verdict false ep x = Some v -> field_verdict true ep v = Some v.
Proof.
  unfold field_verdict, rejected, field_options, missing.
  cbn [prop assoc String.eqb Ascii.eqb Bool.eqb].
  set (d0 := effective "doNotCoerce" false ep).
  set (d1 := effective "doNotCoerce" true ep).
  set (ty := prop "type" ep).
  destruct (_ || _ || _) eqn:Hrej; [done|]. intros [= <-].
  assert (coerceValue d1 ty (coerceValue d0 ty x) = coerceValue d0 ty x) as Hv.
  { destruct (effective_flag "doNotCoerce" true ep) as [E|(b & E1 & E0)].
    - unfold d1. by rewrite E.
    - unfold d1, d0. rewrite E1, E0. apply coerceValue_again. }
  rewrite Hv.
  destruct (coerceValue_tag d0 ty x) as [Hu Hn].
  unfold nothing, undefined in Hu, Hn.
  unfold undefined in Hn. rewrite Hn. by rewrite Hrej.
Qed.

Lemma map_fst_set_prop k v ps :
  k ∈ map fst ps -> map fst (set_prop k v ps) = map fst ps.
Proof.
  induction ps as [|[k' v'] ps IH]; intros Hk; [by apply elem_of_nil in Hk|].
  cbn [set_prop]. destruct (String.eqb k k') eqn:E.
  - apply String.eqb_eq in E as ->. done.
  - cbn [map fst]. f_equal. apply IH.
    apply elem_of_cons in Hk as [->|Hk]; [|done].
    by rewrite String.eqb_refl in E.
Qed.

Lemma set_prop_same k ps : k ∈ map fst ps -> set_prop k (prop k ps) ps = ps.
Proof.
  unfold prop.
  induction ps as [|[k' v'] ps IH]; intros Hk; [by apply elem_of_nil in Hk|].
  cbn [set_prop assoc]. destruct (String.eqb k k') eqn:E.
  - apply String.eqb_eq in E as ->. done.
  - f_equal. apply IH. apply elem_of_cons in Hk as [->|Hk]; [|done].
    by rewrite String.eqb_refl in E.
Qed.

Section Again.
Variable E : string -> option props.

(** A field that passes as it is, without coercion. *)
Definition settled (acc : props) (k : string) : Prop :=
  forall ep, E k = Some ep ->
    field_verdict true ep (prop k acc) = Some (prop k acc).

Definition same_tags (acc acc' : props) : Prop :=
  forall k, undefined (prop k acc') = undefined (prop k acc) /\
            nothing (prop k acc') = nothing (prop k acc).

Lemma field_step_first acc k acc' :
  field_step false E (Some acc) k = Some acc' ->
  k ∈ map fst acc ->
  map fst acc' = map fst acc /\ same_tags acc acc' /\ settled acc' k /\
  (forall k', settled acc k' -> settled acc' k').
Proof.
  unfold field_step. destruct (E k) as [ep|] eqn:HE.
  2:{ intros [= <-] _. repeat split; try done. intros ep. congruence. }
  destruct (field_verdict false ep (prop k acc)) as [v|] eqn:Hfv; [|done].
  intros [= <-] Hk.
  assert (settled (set_prop k v acc) k) as Hset.
  { intros ep' HE'. rewrite prop_set_prop, String.eqb_refl.
    assert (ep' = ep) as -> by congruence. by eapply field_verdict_again. }
  split; [by apply map_fst_set_prop|]. split; [|split; [done|]].
  - intros k'. rewrite prop_set_prop. destruct (String.eqb k' k) eqn:Ek; [|done].
    apply String.eqb_eq in Ek as ->.
    unfold field_verdict in Hfv. destruct (rejected _ _ _); [done|].
    injection Hfv as <-. apply coerceValue_tag.
  - intros k' Hk'. destruct (String.eqb k' k) eqn:Ek.
    + apply String.eqb_eq in Ek as ->. done.
    + intros ep' HE'. rewrite prop_set_prop, Ek. by apply Hk'.
Qed.

Lemma field_steps_first ks acc acc' :
  fold_left (field_step false E) ks (Some acc) = Some acc' ->
  (forall k, k ∈ ks -> k ∈ map fst acc) ->
  map fst acc' = map fst acc /\ same_tags acc acc' /\
  (forall k, k ∈ ks -> settled acc' k) /\
  (forall k', settled acc k' -> settled acc' k').
Proof.
  revert acc. induction ks as [|k ks IH]; intros acc Hfold Hks.
  - injection Hfold as <-. repeat split; try done. intros k Hk.
    by apply elem_of_nil in Hk.
  - cbn [fold_left] in Hfold.
    destruct (field_step false E (Some acc) k) as [acc1|] eqn:Hstep.
    2:{ by rewrite field_step_none in Hfold. }
    apply field_step_first in Hstep as (Hk1 & Ht1 & Hs1 & Hp1); [|apply Hks; by left].
    apply IH in Hfold as (Hk2 & Ht2 & Hs2 & Hp2).
    2:{ intros k0 Hk0. rewrite Hk1. apply Hks. by right. }
    split; [congruence|]. split; [|split].
    + intros k0. destruct (Ht2 k0) as [-> ->]. apply Ht1.
    + intros k0 Hk0. apply elem_of_cons in Hk0 as [->|Hk0]; [by apply Hp2|by apply Hs2].
    + intros k0 Hk0. by apply Hp2, Hp1.
Qed.

Lemma field_steps_settled ks acc :
  (forall k, k ∈ ks -> k ∈ map fst acc /\ settled acc k) ->
  fold_left (field_step true E) ks (Some acc) = Some acc.
Proof.
  induction ks as [|k ks IH]; intros Hks; [done|].
  cbn [fold_left]. destruct (Hks k) as [Hk Hs]; [by left|].
  assert (field_step true E (Some acc) k = Some acc) as ->.
  { unfold field_step. destruct (E k) as [ep|] eqn:HE; [|done].
    by rewrite (Hs ep HE), set_prop_same. }
  apply IH. intros k0 Hk0. apply Hks. by right.
Qed.

Lemma prop_defaulted ks vp k :
  prop k (defaulted E ks vp) =
    if bool_decide (k ∈ ks)
       && (negb (undefined (default_of E k)) && undefined (prop k vp))
    then default_of E k else prop k vp.
Proof.
  revert vp. induction ks as [|k0 ks IH]; intros vp; [done|].
  cbn [defaulted fold_left]. fold (defaulted E ks (default_step E vp k0)).
  rewrite IH. unfold default_step.
  destruct (decide (k = k0)) as [<-|Hne].
  - rewrite (bool_decide_eq_true_2 (k ∈ k :: ks)) by by left.
    cbn [andb].
    destruct (negb (undefined (default_of E k)) && undefined (prop k vp)) eqn:C.
    + rewrite prop_set_prop, String.eqb_refl.
      apply andb_prop in C as [Cd _]. apply negb_true_iff in Cd. rewrite Cd.
      cbn [negb andb]. by rewrite andb_false_r.
    + rewrite C. by rewrite andb_false_r.
  - assert (prop k (if negb (undefined (default_of E k0)) && undefined (prop k0 vp)
                    then set_prop k0 (default_of E k0) vp else vp)
            = prop k vp) as ->.
    { destruct (_ && _); [|done]. rewrite prop_set_prop.
      destruct (String.eqb k k0) eqn:Ek; [|done]. by apply String.eqb_eq in Ek. }
    assert (bool_decide (k ∈ k0 :: ks) = bool_decide (k ∈ ks)) as ->; [|done].
    apply bool_decide_ext. rewrite elem_of_cons. split; [intros [->|?]; done|by right].
Qed.

Lemma defaulted_full ks vp :
  (forall k, k ∈ ks ->
     negb (undefined (default_of E k)) && undefined (prop k vp) = false) ->
  defaulted E ks vp = vp.
Proof.
  induction ks as [|k ks IH]; intros Hks; [done|].
  cbn [defaulted fold_left]. unfold default_step at 2.
  rewrite Hks by by left. apply IH. intros k0 Hk0. apply Hks. by right.
Qed.

Lemma missing_field_tags ks vp vp' :
  same_tags vp vp' -> missing_field E ks vp' = missing_field E ks vp.
Proof.
  intros Ht. unfold missing_field. induction ks as [|k ks IH]; [done|].
  cbn [find]. destruct (Ht k) as [_ ->]. by rewrite IH.
Qed.

(** What the check leaves, it passes without coercion, as it is. *)
Lemma flat_result_again ks vp vp' :
  flat_result false E ks vp = Some vp' -> flat_result true E ks vp' = Some vp'.
Proof.
  unfold flat_result. cbv zeta. set (vp1 := defaulted E ks vp).
  destruct (missing_field E ks vp1) eqn:Hm; [done|]. intros Hfold.
  apply field_steps_first in Hfold as (Hkeys & Htags & Hset & _); [|done].
  assert (defaulted E ks vp' = vp') as ->.
  { apply defaulted_full. intros k Hk. destruct (Htags k) as [-> _].
    unfold vp1. rewrite prop_defaulted, (bool_decide_eq_true_2 _ Hk).
    cbn [andb].
    destruct (undefined (default_of E k)) eqn:Hd; [done|]. cbn [negb andb].
    by destruct (undefined (prop k vp)) eqn:Hv. }
  rewrite (missing_field_tags _ _ _ Htags), Hm.
  apply field_steps_settled. intros k Hk. split; [done|].
  apply Hset. by rewrite <- Hkeys.
Qed.

End Again.

(** ** The check of a flat object *)

Lemma scalar_fields_kept h h' lv sp E :
  (forall l, l < length h -> l <> lv -> h' !! l = h !! l) ->
  scalar_fields h lv sp E -> scalar_fields h' lv sp E.
Proof.
  intros Hfr [Hin Hout]. split; [|done]. intros k Hk.
  destruct (Hin k Hk) as (le & ep & Hp & Hle & Hne & HE & Hrest).
  exists le, ep. split; [done|]. split; [|done].
  rewrite Hfr; [done| |done]. by eapply lookup_lt_Some.
Qed.

(** The schemas of the fields are no options: those of the caller stand. *)
Lemma effective_fields h lv sp E k b :
  scalar_fields h lv sp E -> effective k b sp = VBool b.
Proof.
  intros [Hin _]. unfold effective.
  destruct (decide (k ∈ map fst sp)) as [Hk|Hk].
  - destruct (Hin k Hk) as (le & ep & -> & _).
    unfold adopts. cbn. by rewrite andb_false_r.
  - by rewrite (bool_decide_eq_false_2 _ Hk).
Qed.

Lemma field_entry h lv sp E k :
  scalar_fields h lv sp E ->
  prop k sp = VUndef \/
  exists le ep, prop k sp = VRef le /\ h !! le = Some (Cell KObject ep) /\ le <> lv.
Proof.
  intros [Hin _]. destruct (decide (k ∈ map fst sp)) as [Hk|Hk].
  - destruct (Hin k Hk) as (le & ep & Hp & Hle & Hne & _). right. by exists le, ep.
  - left. by apply prop_not_elem.
Qed.

Lemma _chk_flat fuel u lv vp ls sp E lo pp s :
  st_heap s !! lv = Some (Cell KObject vp) ->
  st_heap s !! ls = Some (Cell KObject sp) ->
  st_heap s !! lo = Some (Cell KObject pp) ->
  ls <> lv ->
  scalar_fields (st_heap s) lv sp E ->
  (forall k, k ∈ map fst sp -> primitive (prop k vp)) ->
  prop "log" pp = VBool false ->
  prop "strict" pp = VBool false ->
  prop "ignoreDefaults" pp = VBool false ->
  flags u pp ->
  exists r s',
    _chk (S (S fuel)) (VRef lv) (VRef ls) (VRef lo) s = Ok r s' /\
    st_calls s' = st_calls s /\
    match flat_result u E (map fst sp) vp with
    | Some vp' =>
        r = VRef lv /\ st_heap s' !! lv = Some (Cell KObject vp') /\
        (forall l, l < length (st_heap s) -> l <> lv ->
                   st_heap s' !! l = st_heap s !! l) /\
        (forall k, k ∈ map fst sp -> primitive (prop k vp'))
    | None => classify (st_heap s') r = TError
    end.
Proof.
  intros Hv Hs Hp Hne Hent Hprim Hlog Hstrict Hdef [Hreq Hdnc].
  assert (lv < length (st_heap s)) as Hlv by by eapply lookup_lt_Some.
  assert (ls < length (st_heap s)) as Hls by by eapply lookup_lt_Some.
  assert (lo < length (st_heap s)) as Hlo by by eapply lookup_lt_Some.
  set (hb := st_heap s) in *.
  set (opts := optionsOf hb pp sp).
  assert (forall k b, prop k pp = VBool b -> prop k opts = VBool b) as Hopt.
  { intros k b Hk. unfold opts.
    by rewrite (prop_optionsOf _ _ _ _ b), (effective_fields hb lv sp E). }
  set (c := Cell KObject opts).
  set (h1 := hb ++ [c]).
  assert (h1 !! length hb = Some c) as Hc1 by apply lookup_alloc_new.
  assert (forall l, l < length hb -> h1 !! l = hb !! l) as Hold
    by (intros l Hl; by apply lookup_alloc_old).
  remember (S fuel) as n eqn:Hn. cbn [_chk]. mstep.
  unfold tipe_is at 1, classify at 1. fold hb. rewrite Hs. cbn [ckind tag_eqb negb].
  rewrite (bind_Ok _ _ _ _ _ (override_objects _ _ _ _ _ Hp Hs)).
  fold hb. fold (optionsOf hb pp sp). fold opts. fold c. fold h1.
  mstep. rewrite (deref_cell _ _ _ _ Hc1). cbn [cell_get ckind cprops c].
  rewrite (Hopt _ _ Hlog). cbn [to_boolean]. mstep.
  assert (h1 !! lv = Some (Cell KObject vp)) as Hv1 by (rewrite Hold; done).
  assert (h1 !! ls = Some (Cell KObject sp)) as Hs1 by (rewrite Hold; done).
  assert (classify h1 (VRef lv) = TObject) as Hcv by (cbn; by rewrite Hv1).
  assert (scalar_fields h1 lv sp E) as Hent1.
  { apply (scalar_fields_kept hb); [|done]. intros l Hl _. by apply Hold. }
  repeat mstep. rewrite Hcv. cbn [tag_eqb orb]. rewrite andb_false_r.
  erewrite bind_Ok; cycle 1.
  { apply coerceType_not_string. by intros str. }
  repeat mstep. rewrite Hcv, (deref_cell _ _ _ _ Hs1). cbn [cell_get ckind cprops].
  assert (forall k, tag_eqb (classify h1 (prop k sp)) TString = false /\
                    strict_equal (VStr "object") (prop k sp) = false) as Hcls.
  { intros k. destruct (field_entry _ _ _ _ k Hent1) as [->|(le & ep & -> & Hle & _)];
      [done|]. cbn. by rewrite Hle. }
  rewrite (proj1 (Hcls "type")). cbn [tag_eqb negb andb].
  (* the object *)
  set (vp1 := defaulted E (map fst sp) vp).
  assert (forall k, k ∈ map fst sp -> primitive (prop k vp1)) as Hprim1.
  { intros k Hk. apply (defaulted_primitive h1 lv ls sp E Hs1 Hent1); [done|].
    by apply Hprim. }
  set (h2 := <[lv := Cell KObject vp1]> h1).
  assert (h2 !! lv = Some (Cell KObject vp1)) as Hv2.
  { unfold h2. rewrite list_lookup_insert_eq; [done|]. by eapply lookup_lt_Some. }
  assert (forall l, l <> lv -> h2 !! l = h1 !! l) as Hh2
    by (intros l Hl; unfold h2; by rewrite list_lookup_insert_ne).
  assert (h2 !! ls = Some (Cell KObject sp)) as Hs2 by by rewrite Hh2.
  assert (h2 !! length hb = Some c) as Hc2 by (rewrite Hh2; [done|lia]).
  assert (scalar_fields h2 lv sp E) as Hent2.
  { apply (scalar_fields_kept h1); [|done]. intros l _ Hl. by apply Hh2. }
  assert (forall k, k ∈ map fst sp -> exists le, deref h1 ls k = VRef le /\ le <> lv /\
                     primitive (deref h1 le "default")) as Hdefs.
  { intros k Hk. destruct (proj1 Hent1 k Hk) as (le & ep & Hk' & Hle & Hlv' & _ & Hd & _).
    exists le. rewrite (deref_cell _ _ _ _ Hs1), (deref_cell _ _ _ _ Hle).
    cbn [cell_get ckind cprops]. done. }
  assert (exists r s',
            checkobject (_chk n) (VRef lv) (VRef ls) (VRef (length hb))
              (State h1 (st_calls s)) = Ok r s' /\
            st_calls s' = st_calls s /\
            match flat_result u E (map fst sp) vp with
            | Some vp' =>
                r = VRef lv /\ st_heap s' !! lv = Some (Cell KObject vp') /\
                (forall l, l < length hb -> l <> lv -> st_heap s' !! l = hb !! l) /\
                (forall k, k ∈ map fst sp -> primitive (prop k vp'))
            | None => classify (st_heap s') r = TError
            end) as (r & s' & Hrun & Hcalls & Hres).
  { unfold checkobject. mstep.
    unfold tipe_is at 1, classify at 1. rewrite Hs1. cbn [ckind tag_eqb negb].
    repeat mstep. rewrite (deref_cell _ _ _ _ Hs1). cbn [cell_get ckind cprops].
    rewrite (proj2 (Hcls "type")). cbn [andb].
    rewrite (deref_cell _ _ _ _ Hc1). cbn [cell_get ckind cprops c].
    rewrite (Hopt _ _ Hstrict). cbn [to_boolean]. unfold or_continue at 1.
    mstep. mstep. rewrite (deref_cell _ _ _ _ Hc1). cbn [cell_get ckind cprops c].
    rewrite (Hopt _ _ Hdef). cbn [to_boolean negb]. unfold or_continue at 1.
    rewrite (bind_Ok _ _ _ _ _
               (setDefaults_scalars lv ls vp sp (VRef ls) (VRef (length hb))
                  (State h1 (st_calls s)) Hv1 Hs1 Hne Hdefs)).
    cbn [st_heap st_calls].
    rewrite (filled_defaulted h1 lv ls sp E Hs1 Hent1) by done.
    fold vp1. fold h2.
    mstep. rewrite (deref_cell _ _ _ _ Hc2). cbn [cell_get ckind cprops c].
    rewrite (Hopt _ _ Hreq). cbn [to_boolean negb]. unfold or_continue at 1.
    pose proof (checkRequired_eq lv ls vp1 sp (VRef ls) (VRef (length hb))
                  (State h2 (st_calls s)) Hv2 Hs2) as Hcr.
    cbn [st_heap st_calls] in Hcr.
    rewrite (first_missing_field h2 lv ls sp E Hs2 Hent2) in Hcr by done.
    assert (forall k, k ∈ map fst sp -> exists le, deref h2 ls k = VRef le) as Hrefs.
    { intros k Hk. destruct (proj1 Hent2 k Hk) as (le & ep & Hk' & _).
      exists le. by rewrite (deref_cell _ _ _ _ Hs2). }
    specialize (Hcr Hrefs).
    unfold flat_result. cbv zeta. fold vp1.
    destruct (missing_field E (map fst sp) vp1) as [k|].
    { destruct Hcr as (e & s' & Hrun & Hcl & _ & _ & Hc).
      rewrite (bind_Ok _ _ _ _ _ Hrun). by exists (VRef e), s'. }
    rewrite (bind_Ok _ _ _ _ _ Hcr). unfold or_continue, checkProperties.
    rewrite bind_bind. mstep. cbn [keys]. rewrite Hv2. cbn [ckind cprops app].
    destruct (checkProperties_loop fuel u lv ls (length hb) hb sp E Hs Hlv Hne
                (le_n _) Hent (map fst vp1) vp1 (State h2 (st_calls s)))
      as (res & s' & Hrun & Hc & Hfold).
    { split; [done|]. split; [|split; [|done]].
      - exists opts. split; [done|]. split; by apply Hopt.
      - intros l Hl Hl'. cbn [st_heap]. by rewrite Hh2, Hold. }
    subst n. rewrite (bind_Ok _ _ _ _ _ Hrun).
    destruct (fold_left (field_step u E) (map fst vp1) (Some vp1)) as [vp'|].
    - destruct Hfold as (-> & Hv' & _ & Hfr & Hprim').
      exists (VRef lv), s'. done.
    - destruct Hfold as (e & -> & Hcl). by exists e, s'. }
  rewrite (bind_Ok _ _ _ _ _ Hrun). mstep.
  destruct (flat_result u E (map fst sp) vp) as [vp'|].
  - destruct Hres as (-> & Hv' & Hfr & Hprim').
    assert (st_heap s' !! ls = Some (Cell KObject sp)) as Hs' by by rewrite Hfr.
    unfold tipe_is at 1, classify at 1. rewrite Hv'. cbn [ckind tag_eqb].
    repeat mstep. rewrite (deref_cell _ _ _ _ Hs'). cbn [cell_get ckind cprops].
    assert (tipe_is TFunction (st_heap s') (prop "validate" sp) = false) as ->.
    { destruct (field_entry _ _ _ _ "validate" Hent) as [->|(le & ep & -> & Hle & Hle')];
        [done|].
      unfold tipe_is. cbn. rewrite Hfr, Hle; [done| |done]. by eapply lookup_lt_Some. }
    by exists (VRef lv), s'.
  - unfold tipe_is at 1. rewrite Hres. cbn [tag_eqb]. by exists r, s'.
Qed.

(** The options of the second check. *)
Lemma doNotCoerce_options_props h value schema :
  let pp := doNotCoerce_options h value schema in
  prop "log" pp = VBool false /\ prop "strict" pp = VBool false /\
  prop "ignoreDefaults" pp = VBool false /\ flags true pp.
Proof.
  assert (forall k, k <> "doNotCoerce" -> bool_decide (k ∈ ["doNotCoerce"]) = false)
    as Hk.
  { intros k Hne. apply bool_decide_eq_false_2. intros Hin.
    by apply list_elem_of_singleton in Hin. }
  unfold flags, doNotCoerce_options. cbv zeta.
  rewrite !prop_set_prop. cbn [String.eqb Ascii.eqb Bool.eqb].
  rewrite !prop_merged. cbn [map fst].
  rewrite !Hk by done. cbn [andb].
  rewrite (bool_decide_eq_true_2 ("doNotCoerce" ∈ ["doNotCoerce"]))
    by by apply list_elem_of_singleton.
  done.
Qed.

(** A flat object that passes passes again, as the first check left it. *)
Lemma chk_flat_rerun fuel lv vp ls sp E lu s s1 :
  st_heap s !! lv = Some (Cell KObject vp) ->
  st_heap s !! ls = Some (Cell KObject sp) ->
  st_heap s !! lu = Some (Cell KObject [("doNotCoerce", VBool true)]) ->
  ls <> lv -> lu <> lv ->
  scalar_fields (st_heap s) lv sp E ->
  (forall k, k ∈ map fst sp -> primitive (prop k vp)) ->
  chk (S (S fuel)) (VRef lv) (VRef ls) VUndef s = Ok VNull s1 ->
  exists s2,
    chk (S (S fuel)) (VRef lv) (VRef ls) (VRef lu) s1 = Ok VNull s2 /\
    st_heap s2 !! lv = st_heap s1 !! lv.
Proof.
  intros Hv Hs Hu Hne Hne' Hent Hprim Hrun1.
  assert (lv < length (st_heap s)) as Hlv by by eapply lookup_lt_Some.
  assert (ls < length (st_heap s)) as Hls by by eapply lookup_lt_Some.
  assert (lu < length (st_heap s)) as Hlu by by eapply lookup_lt_Some.
  (* the first check *)
  rewrite (chk_no_options _ _ _ _ _ Hs) in Hrun1.
  set (pp0 := defaultOptions (VRef lv) (VRef ls)) in Hrun1.
  set (s0 := State (st_heap s ++ [Cell KObject pp0]) (st_calls s)) in Hrun1.
  assert (forall l, l < length (st_heap s) -> st_heap s0 !! l = st_heap s !! l)
    as Hold by (intros l Hl; by apply lookup_alloc_old).
  destruct (_chk_flat fuel false lv vp ls sp E (length (st_heap s)) pp0 s0)
    as (r & s' & Hrun & Hc & Hres); try done.
  { by rewrite Hold. }
  { by rewrite Hold. }
  { apply lookup_alloc_new. }
  { apply (scalar_fields_kept (st_heap s)); [|done]. intros l Hl _. by apply Hold. }
  rewrite (bind_Ok _ _ _ _ _ Hrun), bind_isM in Hrun1. unfold ret in Hrun1.
  destruct (flat_result false E (map fst sp) vp) as [vp'|] eqn:Hflat.
  2:{ unfold tipe_is in Hrun1. rewrite Hres in Hrun1. cbn in Hrun1.
      injection Hrun1 as -> _. done. }
  destruct Hres as (-> & Hv' & Hfr & Hprim').
  assert (s1 = s') as -> by (destruct (tipe_is _ _ _); congruence).
  cbn [st_heap s0] in Hfr. rewrite length_alloc in Hfr.
  assert (forall l, l < length (st_heap s) -> l <> lv ->
                    st_heap s' !! l = st_heap s !! l) as Hfr'.
  { intros l Hl Hl'. rewrite Hfr, lookup_alloc_old; try done. lia. }
  assert (st_heap s' !! ls = Some (Cell KObject sp)) as Hs' by by rewrite Hfr'.
  assert (st_heap s' !! lu = Some (Cell KObject [("doNotCoerce", VBool true)]))
    as Hu' by by rewrite Hfr'.
  assert (scalar_fields (st_heap s') lv sp E) as Hent'
    by by apply (scalar_fields_kept (st_heap s)).
  (* the second check *)
  rewrite (chk_doNotCoerce _ _ _ _ _ _ Hs' Hu').
  set (pp := doNotCoerce_options (st_heap s') (VRef lv) (VRef ls)).
  set (s2 := State _ _).
  assert (forall l, l < length (st_heap s') -> st_heap s2 !! l = st_heap s' !! l)
    as Hold2 by (intros l Hl; cbn [st_heap s2]; by apply lookup_app_l).
  destruct (doNotCoerce_options_props (st_heap s') (VRef lv) (VRef ls))
    as (Hlog & Hstrict & Hdef & Hflags).
  assert (lv < length (st_heap s')) as Hlv' by by eapply lookup_lt_Some.
  destruct (_chk_flat fuel true lv vp' ls sp E (S (length (st_heap s'))) pp s2)
    as (r2 & s3 & Hrun2 & Hc2 & Hres2); try done.
  { by rewrite Hold2. }
  { rewrite Hold2; [done|]. by eapply lookup_lt_Some. }
  { cbn [st_heap s2]. rewrite app_assoc.
    replace (S (length (st_heap s')))
      with (length (st_heap s' ++ [Cell KObject chkDefaults]))
      by by rewrite length_alloc.
    apply lookup_alloc_new. }
  { apply (scalar_fields_kept (st_heap s')); [|done]. intros l Hl _. by apply Hold2. }
  rewrite (flat_result_again _ _ _ _ Hflat) in Hres2.
  destruct Hres2 as (-> & Hv3 & _).
  rewrite (bind_Ok _ _ _ _ _ Hrun2), bind_isM. unfold ret.
  exists s3. unfold tipe_is, classify. rewrite Hv3. cbn [ckind tag_eqb].
  split; [done|]. congruence.
Qed.

(** ** C9 *)

(** Whether a value is no object of the store. *)
Definition scalar (v : val) : bool :=
  match v with VRef _ => false | _ => true end.

(** Whether [v] is the schema of a scalar field: an object, not the value
    at [lv], whose default and rule are scalars, if any, and which has no
    final validator. *)
Definition scalar_entry (h : heap) (lv : nat) (v : val) : bool :=
  match v with
  | VRef le =>
      match h !! le with
      | Some (Cell KObject ep) =>
          negb (Nat.eqb le lv) && scalar (prop "default" ep)
          && scalar (prop "value" ep) && scalar (prop "validate" ep)
      | _ => false
      end
  | _ => false
  end.

(** Whether every property of the schema [sp] is the schema of a scalar
    field. *)
Definition flat_schema (h : heap) (lv : nat) (sp : props) : bool :=
  forallb (fun k => scalar_entry h lv (prop k sp)) (map fst sp).

(** Whether the object [vp] holds a scalar, if anything, under each of the
    keys [ks]. *)
Definition flat_value (ks : list string) (vp : props) : bool :=
  forallb (fun k => scalar (prop k vp)) ks.

Lemma scalar_primitive v : scalar v = true -> primitive v.
Proof. intros Hv l ->. done. Qed.

Lemma flat_schema_fields h lv sp :
  flat_schema h lv sp = true -> scalar_fields h lv sp (entry_props h sp).
Proof.
  intros Hflat. split.
  - intros k Hk. unfold flat_schema in Hflat.
    rewrite forallb_forall in Hflat.
    specialize (Hflat k (proj1 (list_elem_of_In _ _) Hk)).
    unfold entry_props. rewrite (bool_decide_eq_true_2 _ Hk).
    unfold scalar_entry in Hflat.
    destruct (prop k sp) as [| | | | |le]; try done.
    destruct (h !! le) as [[[] ep]|] eqn:Hle; try done.
    apply andb_prop in Hflat as [Hflat Hvf].
    apply andb_prop in Hflat as [Hflat Hsv].
    apply andb_prop in Hflat as [Hlv Hd].
    exists le, ep. repeat split; try done; try by apply scalar_primitive.
    intros ->. by rewrite Nat.eqb_refl in Hlv.
  - intros k Hk. unfold entry_props. by rewrite (bool_decide_eq_false_2 _ Hk).
Qed.


End Flat.


Import Sample.

(** The schema [{type: 'number'}] (0), the options [{doNotCoerce: true}]
    (1), the schema [{type: 'string', value: 'a|b'}] (2), the array
    [['42']] (3) and the schema of an array of numbers (4). *)
Definition rerun_store : list cell :=
  [Cell KObject [("type", VStr "number")];
   Cell KObject [("doNotCoerce", VBool true)];
   Cell KObject [("type", VStr "string"); ("value", VStr "a|b")];
   Cell (KArray [VStr "42"]) [];
   Cell KObject [("type", VStr "array"); ("value", VRef 0)]].

(** The object [{a: '42', c: 'true'}] (0), the schema
    [{a: {type: 'number', required: true}, b: {type: 'string', default: 'x'},
      c: {type: 'boolean'}}] (1, with its fields at 2, 3 and 4) and the
    options [{doNotCoerce: true}] (5). *)
Definition flat_store : list cell :=
  [Cell KObject [("a", VStr "42"); ("c", VStr "true")];
   Cell KObject [("a", VRef 2); ("b", VRef 3); ("c", VRef 4)];
   Cell KObject [("type", VStr "number"); ("required", VBool true)];
   Cell KObject [("type", VStr "string"); ("default", VStr "x")];
   Cell KObject [("type", VStr "boolean")];
   Cell KObject [("doNotCoerce", VBool true)]].



Import Sample.

(** * The claims on concrete inputs *)

(** [{type: 'string'}], and the same with a [validate] that rejects. *)
Definition typed_schema : list cell := [Cell KObject [("type", VStr "string")]].

Definition validated_schema : list cell :=
  [Cell KObject [("type", VStr "string"); ("validate", VRef 1)];
   Cell (KFunction 1) []].

Lemma C10_witness :
  exists s', Part000.chk 1 VUndef (VRef 0) VUndef (State typed_schema []) = Ok VNull s'.
Proof.
  apply (C10_absent_value_passes 0 (VRef 0) VUndef (State typed_schema [])
           "string" VUndef VUndef); reflexivity.
Defined.

(** C10 as stated fails on a schema with a final validator: the absent
    value is handed to [validate], whose verdict stands. *)
Lemma C10_counterexample :
  let s := State validated_schema [] in
  tipe_is TObject (st_heap s) (VRef 0) = true /\
  read (st_heap s) (VRef 0) "type" = Some (VStr "string") /\
  read (st_heap s) (VRef 0) "required" = Some VUndef /\
  exists e s',
    Part000.chk 1 VUndef (VRef 0) VUndef s = Ok (VRef e) s' /\
    classify (st_heap s') (VRef e) = TError /\
    deref (st_heap s') e "code" = VStr "badValue".
Proof.
  cbn zeta. repeat split.
  eexists _, _. split; [vm_compute; reflexivity|]. by vm_compute.
Qed.

(** The parsers and the truthiness rule of the sample runtime read the
    three literals of the specification as it expects. *)
Lemma C3_witness :
  let s := State [Cell KObject [("type", VStr "number")];
                  Cell KObject [("type", VStr "boolean")];
                  Cell KObject [("doNotCoerce", VBool false)]] [] in
  ((exists s', Part000._chk 1 (VStr "42") (VRef 0) (VRef 2) s = Ok (VNum 42) s') /\
   (exists s', Part000.chk 1 (VStr "42") (VRef 0) VUndef s = Ok VNull s')) /\
  ((exists s', Part000._chk 1 (VStr "0") (VRef 0) (VRef 2) s = Ok (VNum 0) s') /\
   (exists s', Part000.chk 1 (VStr "0") (VRef 0) VUndef s = Ok VNull s')) /\
  ((exists s', Part000._chk 1 (VStr "true") (VRef 1) (VRef 2) s
               = Ok (VBool true) s') /\
   (exists s', Part000.chk 1 (VStr "true") (VRef 1) VUndef s = Ok VNull s')) /\
  (exists v, Part000.coerceType (VStr "1e2") (VRef 0) (VRef 2) s = Ok v s /\
             ChkJs.coerce (VStr "1e2") (VRef 0) s = Ok v s /\
             v = VNum 100).
Proof.
  cbn zeta.
  set (s := State [Cell KObject [("type", VStr "number")];
                   Cell KObject [("type", VStr "boolean")];
                   Cell KObject [("doNotCoerce", VBool false)]] []).
  destruct C3_coercion as (Hgen & H42 & H0 & Htrue).
  split; [|split; [|split]].
  - destruct (H42 0 s 0 eq_refl eq_refl eq_refl) as [Hin Hout].
    split; [|exact Hout]. apply (Hin 2 [("doNotCoerce", VBool false)]); [done|lia|done].
  - destruct (H0 0 s 0 eq_refl eq_refl eq_refl) as [Hin Hout].
    split; [|exact Hout]. apply (Hin 2 [("doNotCoerce", VBool false)]); [done|lia|done].
  - destruct (Htrue 0 s 1 eq_refl eq_refl) as [Hin Hout].
    split; [|exact Hout]. apply (Hin 2 [("doNotCoerce", VBool false)]); [done|lia|done].
  - destruct (Hgen "1e2" (VRef 0) (VRef 2) s
                (VBool false) eq_refl eq_refl eq_refl) as (v & Hv & Hv' & Hf & _).
    exists v. split; [exact Hv|]. split; [exact Hv'|]. apply Hf. reflexivity.
Defined.

(** C3 as stated fails on "0.0": the float parse (0) is not strictly
    greater in magnitude than the integer parse (0), yet the integer does
    not win: the string stays a string, and the check fails badType.  And
    what the check of "42" yields is no number: [chk] of
    src/unnamed/part_000 returns null, and [chk] of src/chk.js, which
    compares the type before it coerces, returns a badType error, as it
    does for "0" and for "true" under [{type: 'boolean'}]. *)
Lemma C3_counterexample :
  let s := State [Cell KObject [("type", VStr "number")]; Cell KObject [];
                  Cell KObject [("type", VStr "boolean")]] [] in
  (PrimFloat.ltb (PrimFloat.abs (parseInt "0.0")) (PrimFloat.abs (parseFloat "0.0"))
     = false /\
   Part000.coerceType (VStr "0.0") (VRef 0) (VRef 1) s = Ok (VStr "0.0") s /\
   VStr "0.0" <> VNum (parseInt "0.0") /\
   exists e s',
     Part000.chk 1 (VStr "0.0") (VRef 0) VUndef s = Ok (VRef e) s' /\
     deref (st_heap s') e "code" = VStr "badType") /\
  (exists s', Part000.chk 1 (VStr "42") (VRef 0) VUndef s = Ok VNull s') /\
  (forall str ls, (str, ls) ∈ [("42", 0); ("0", 0); ("true", 2)] ->
     exists e s',
       ChkJs.chk 1 (VStr str) (VRef ls) VUndef s = Ok (VRef e) s' /\
       classify (st_heap s') (VRef e) = TError /\
       deref (st_heap s') e "code" = VStr "badType").
Proof.
  cbn zeta. split; [|split].
  - split; [reflexivity|]. split; [reflexivity|]. split; [discriminate|].
    eexists _, _. split; [vm_compute; reflexivity|]. by vm_compute.
  - eexists. vm_compute. reflexivity.
  - intros str ls Hin. repeat (apply elem_of_cons in Hin as [[= -> ->]|Hin]).
    + eexists _, _. split; [vm_compute; reflexivity|]. by vm_compute.
    + eexists _, _. split; [vm_compute; reflexivity|]. by vm_compute.
    + eexists _, _. split; [vm_compute; reflexivity|]. by vm_compute.
    + by apply elem_of_nil in Hin.
Qed.

(** [['x', true, 3]] under [{type: 'array', value: {type: 'number'}}]. *)
Definition array_store : list cell :=
  [Cell KObject [("type", VStr "array"); ("value", VRef 1)];
   Cell KObject [("type", VStr "number")];
   Cell (KArray [VStr "x"; VBool true; VNum 3]) [];
   Cell KObject [("doNotCoerce", VBool false)]].

(** The pass at index 2 succeeds, the pass at index 1 fails, and its error
    is the result: index 0 is never visited. *)
Lemma C4_witness :
  exists e s2,
    Part000.checkArray (Part000._chk 1) (VRef 2) (VRef 0) (VRef 3)
      (State array_store []) = Ok (VRef e) s2 /\
    deref (st_heap s2) e "message" = VStr "Invalid Type: boolean" /\
    deref (st_heap s2) 3 "key" = VNum 1.
Proof.
  pose (s := State array_store []).
  destruct (Part000._chk 1 (VNum 3) (VRef 1) (VRef 3)
              (State (store array_store 3 "key" (VNum 2)) [])) as [r1 s1| |] eqn:E1;
    [|by vm_compute in E1..].
  destruct (Part000._chk 1 (VBool true) (VRef 1) (VRef 3)
              (State (store (st_heap s1) 3 "key" (VNum 1)) (st_calls s1)))
    as [r2 s2| |] eqn:E2.
  2,3: vm_compute in E1; injection E1 as <- <-; by vm_compute in E2.
  assert (exists e, r2 = VRef e) as [e ->].
  { vm_compute in E1. injection E1 as <- <-. vm_compute in E2.
    injection E2 as <- <-. by eexists. }
  exists e, s2.
  destruct (C4_array_descending (Part000._chk 1) 2 [VStr "x"; VBool true; VNum 3] []
              (VRef 0) (VRef 1) (VRef 3) s eq_refl eq_refl eq_refl eq_refl)
    as [Hfail _].
  split.
  - apply (Hfail 1 s1 (VRef e) s2); [simpl; lia| | |].
    + eapply passed_next; [|  |apply passed_none].
      * exists (store array_store 3 "key" (VNum 2)), (VNum 3), (VRef 1).
        repeat split; try reflexivity. exact E1.
      * vm_compute in E1. injection E1 as <- <-. reflexivity.
    + exists (store (st_heap s1) 3 "key" (VNum 1)), (VBool true), (VRef 1).
      vm_compute in E1. injection E1 as <- <-.
      repeat split; try reflexivity. exact E2.
    + vm_compute in E1. injection E1 as <- <-. vm_compute in E2.
      injection E2 as <- <-. reflexivity.
  - vm_compute in E1. injection E1 as <- <-. vm_compute in E2.
    injection E2 as <- <-. by vm_compute.
Defined.

(** C4 as stated fails: of the two failing elements of [['x', true, 3]] the
    check reports the later one (index 1, a boolean), not the earliest in
    array order (index 0, a string, which on its own fails too). *)
Lemma C4_counterexample :
  (exists e s',
     Part000.chk 2 (VRef 2) (VRef 0) VUndef (State array_store []) = Ok (VRef e) s' /\
     deref (st_heap s') e "message" = VStr "Invalid Type: boolean") /\
  (exists e s',
     Part000.chk 2 (VStr "x") (VRef 1) VUndef (State array_store []) = Ok (VRef e) s' /\
     deref (st_heap s') e "message" = VStr "Invalid Type: string").
Proof.
  split; eexists _, _; (split; [vm_compute; reflexivity|by vm_compute]).
Qed.

(** [{}] under [{a: {type: 'array', default: [{}], value: {b: {default: 1}}}}]. *)
Definition aliased_default : list cell :=
  [Cell KObject [("a", VRef 1)];
   Cell KObject [("type", VStr "array"); ("default", VRef 2); ("value", VRef 4)];
   Cell (KArray [VRef 3]) [];
   Cell KObject [];
   Cell KObject [("b", VRef 5)];
   Cell KObject [("default", VNum 1)];
   Cell KObject []].

(** C7 fails on an array default: [clone] hands the schema's own array to
    the value, and the check of its elements then writes into the schema:
    after the call the object inside [schema.a.default] has gained [b]. *)
Lemma C7_schema_default_mutated :
  exists s',
    Part000.chk 5 (VRef 6) (VRef 0) VUndef (State aliased_default []) = Ok VNull s' /\
    (* the value holds the schema's array, not a copy *)
    deref (st_heap s') 6 "a" = deref aliased_default 1 "default" /\
    (* and the schema's default is not what it was *)
    aliased_default !! 3 = Some (Cell KObject []) /\
    st_heap s' !! 3 = Some (Cell KObject [("b", VNum 1)]).
Proof. eexists. split; [vm_compute; reflexivity|]. by vm_compute. Qed.
